(** * Collaborative text editor and whiteboard: client-side engines

    A shallow embedding of [static/editor.js] (class [Editor]),
    [html_utilities.js] ([linesIntersect]) and [whiteboard.js]
    (the inbound handlers of class [Whiteboard]), followed by the
    properties of these programs.

    Conventions of the embedding:
    - JavaScript numbers that denote text positions, user ids and
      modification ids are integers ([Z]); the coordinates of the
      geometry helper are binary64 floating-point numbers ([float]);
      strings are [string]s whose characters stand for UTF-16 code
      units;
    - a JS [Map] is an insertion-ordered association list with unique
      keys ([JSMap]); the cursor tables, JS objects indexed by user id,
      are [gmap Z Cursor];
    - [structuredClone] is the identity: values are immutable here, and
      the source never shares an object between the live and the shadow
      replica;
    - a handler that raises a JS exception stops where the exception is
      raised and keeps the mutations done so far ([Throws]);
    - [#render] only writes to the DOM and is not modelled. *)

From Stdlib Require Import ZArith Floats String Ascii List Bool Lia.
From stdpp Require Import base option list gmap strings.
Import ListNotations.

Set Warnings "-register-all,-inexact-float".

Local Open Scope string_scope.
Local Open Scope list_scope.
Local Open Scope Z_scope.

(** ** JavaScript helpers *)

Module JS.

(** [s.length] *)
Definition len (s : string) : Z := Z.of_nat (String.length s).

(** An argument of [substring] is clamped to [0, s.length]. *)
Definition clamp (s : string) (i : Z) : Z := Z.max 0 (Z.min i (len s)).

(** [s.substring(a, b)]: both indices are clamped, and swapped when
    [a > b]. *)
Definition substring (s : string) (a b : Z) : string :=
  let a' := clamp s a in
  let b' := clamp s b in
  let lo := Z.min a' b' in
  let hi := Z.max a' b' in
  String.substring (Z.to_nat lo) (Z.to_nat (hi - lo)) s.

(** [s.substring(a)] *)
Definition substring_from (s : string) (a : Z) : string :=
  substring s a (len s).

End JS.

(** ** JS [Map] as an insertion-ordered association list *)

Module JSMap.
Section WithKey.
Context {K V : Type} `{EqDecision K}.

Fixpoint get (m : list (K * V)) (k : K) : option V :=
  match m with
  | [] => None
  | (k', v) :: rest => if decide (k' = k) then Some v else get rest k
  end.

Definition has (m : list (K * V)) (k : K) : bool :=
  match get m k with Some _ => true | None => false end.

(** [m.set(k, v)]: an existing key keeps its place, a new key goes
    last. *)
Fixpoint set (m : list (K * V)) (k : K) (v : V) : list (K * V) :=
  match m with
  | [] => [(k, v)]
  | (k', v') :: rest =>
      if decide (k' = k) then (k', v) :: rest else (k', v') :: set rest k v
  end.

Fixpoint delete (m : list (K * V)) (k : K) : list (K * V) :=
  match m with
  | [] => []
  | (k', v') :: rest =>
      if decide (k' = k) then rest else (k', v') :: delete rest k
  end.
End WithKey.
End JSMap.

(** ** Property tables *)

(** The [flag] argument: [undefined], [null] (what JSON carries for an
    absent flag) or a string. *)
Inductive Flag : Type :=
| FUndefined
| FNull
| FString (s : string).

#[global] Instance Flag_eq_dec : EqDecision Flag.
Proof. solve_decision. Defined.

(** [if (flag)]: [undefined], [null] and the empty string are falsy. *)
Definition truthy (f : Flag) : bool :=
  match f with
  | FString s => negb (String.eqb s "")
  | _ => false
  end.

(** [a == b] on flags: [undefined] and [null] are loosely equal. *)
Definition loose_eq (a b : Flag) : bool :=
  match a, b with
  | FString x, FString y => String.eqb x y
  | FString _, _ | _, FString _ => false
  | _, _ => true
  end.

(** A range is the two-element array [[start, end]]. *)
Definition Range : Type := Z * Z.

(** [{ flags: false, ranges: [...] }] or
    [{ flags: true, ranges: Map<flag, [...]> }]. *)
Inductive PropertyRanges : Type :=
| Flagless (ranges : list Range)
| Flagged (ranges : list (Flag * list Range)).

Definition PropTable : Type := list (string * PropertyRanges).

Module Props.

(** [cutOverlaps] of [#actual_remove_property]. *)
Definition cutOverlaps (start end_ : Z) (ranges : list Range) : list Range :=
  flat_map (fun range : Range =>
    let (r0, r1) := range in
    if r0 >=? start then
      if r1 >? end_ then [(Z.max end_ r0, r1)] else []
    else
      if r1 >? end_ then [(r0, start); (end_, r1)]
      else [(r0, Z.min start r1)]) ranges.

Definition nonempty {A} (l : list A) : bool :=
  match l with [] => false | _ => true end.

(** The [forEach] over the buckets of a flagged property: a bucket is
    replaced by its cut ranges, or deleted when nothing is left. *)
Definition cut_buckets (start end_ : Z) (m : list (Flag * list Range))
  : list (Flag * list Range) :=
  flat_map (fun kv : Flag * list Range =>
    let new_ranges := cutOverlaps start end_ (snd kv) in
    if nonempty new_ranges then [(fst kv, new_ranges)] else []) m.

(** [#actual_remove_property(start, end, property)] on one table. *)
Definition actual_remove_property (start end_ : Z) (property : string)
    (t : PropTable) : PropTable :=
  match JSMap.get t property with
  | None => t
  | Some (Flagged m) =>
      let m' := cut_buckets start end_ m in
      if nonempty m' then JSMap.set t property (Flagged m')
      else JSMap.delete t property
  | Some (Flagless rs) =>
      let new_ranges := cutOverlaps start end_ rs in
      if nonempty new_ranges then JSMap.set t property (Flagless new_ranges)
      else JSMap.delete t property
  end.

(** The [ranges.forEach] of [#actual_add_property]: every range is
    tested on its own, [was_added] records whether any test fired. *)
Fixpoint merge_loop (start end_ : Z) (ranges : list Range) (was_added : bool)
  : list Range * bool :=
  match ranges with
  | [] => ([], was_added)
  | (r0, r1) :: rest =>
      if r1 =? start then
        let (rs, w) := merge_loop start end_ rest true in ((r0, end_) :: rs, w)
      else if r0 =? end_ then
        let (rs, w) := merge_loop start end_ rest true in ((r0, start) :: rs, w)
      else
        let (rs, w) := merge_loop start end_ rest was_added in ((r0, r1) :: rs, w)
  end.

(** The loop followed by [if (!was_added) ranges.push([start, end])]. *)
Definition add_range (start end_ : Z) (ranges : list Range) : list Range :=
  let (rs, w) := merge_loop start end_ ranges false in
  if w then rs else rs ++ [(start, end_)].

(** The bucket that [#actual_add_property] writes to: the flag's
    bucket of a flagged property (created empty when missing), the
    only bucket of a flagless one. *)
Definition bucket (flag : Flag) (p : PropertyRanges) : list Range :=
  match p with
  | Flagless rs => rs
  | Flagged m => default [] (JSMap.get m flag)
  end.

Definition set_bucket (flag : Flag) (p : PropertyRanges) (rs : list Range)
  : PropertyRanges :=
  match p with
  | Flagless _ => Flagless rs
  | Flagged m => Flagged (JSMap.set m flag rs)
  end.

(** [#actual_add_property(start, end, property, flag)] on one table.

    [prop] is read from the table before [#actual_remove_property]
    runs.  When the removal leaves the property in the table, the
    entry is the same object, updated in place, and the merge is seen
    in the table.  When the removal deletes the property, [prop] is
    no longer reachable from the table: the merge and the [push]
    mutate a detached object and the table stays without the
    property. *)
Definition actual_add_property (start end_ : Z) (property : string)
    (flag : Flag) (t : PropTable) : PropTable :=
  match JSMap.get t property with
  | Some _ =>
      let t' := actual_remove_property start end_ property t in
      match JSMap.get t' property with
      | Some prop =>
          JSMap.set t' property
            (set_bucket flag prop (add_range start end_ (bucket flag prop)))
      | None => t'
      end
  | None =>
      if truthy flag then
        JSMap.set t property (Flagged [(flag, [(start, end_)])])
      else
        JSMap.set t property (Flagless [(start, end_)])
  end.

(** [remove_empty] of [#remove_empty_property_ranges]. *)
Definition remove_empty (ranges : list Range) : list Range :=
  List.filter (fun range : Range => fst range <? snd range) ranges.

(** [#remove_empty_property_ranges] on one table. *)
Definition remove_empty_property_ranges (t : PropTable) : PropTable :=
  flat_map (fun entry : string * PropertyRanges =>
    match snd entry with
    | Flagged m =>
        let m' := flat_map (fun kv : Flag * list Range =>
                    let rs := remove_empty (snd kv) in
                    if nonempty rs then [(fst kv, rs)] else []) m in
        if nonempty m' then [(fst entry, Flagged m')] else []
    | Flagless rs =>
        let rs' := remove_empty rs in
        if nonempty rs' then [(fst entry, Flagless rs')] else []
    end) t.

(** The property half of [#shift_all_fixed_points]. *)
Definition shift_ranges (shift : Z -> Z) (ranges : list Range) : list Range :=
  List.map (fun range : Range => (shift (fst range), shift (snd range))) ranges.

Definition shift_table (shift : Z -> Z) (t : PropTable) : PropTable :=
  List.map (fun entry : string * PropertyRanges =>
    (fst entry,
     match snd entry with
     | Flagged m =>
         Flagged (List.map (fun kv : Flag * list Range =>
                    (fst kv, shift_ranges shift (snd kv))) m)
     | Flagless rs => Flagless (shift_ranges shift rs)
     end)) t.


(** *** Descriptions of the merge *)

(** What the loop of [#actual_add_property] makes of one range. *)
Definition merge_one (start end_ : Z) (R : Range) : Range :=
  if snd R =? start then (fst R, end_)
  else if fst R =? end_ then (fst R, start)
  else R.

(** A range that ends at [start] or begins at [end]. *)
Definition touches (start end_ : Z) (R : Range) : bool :=
  (snd R =? start) || (fst R =? end_).

(** The merge rule in the words of the specification: one three-way
    choice for the whole bucket. *)
Definition merge_rule_spec (start end_ : Z) (ranges : list Range) : list Range :=
  if existsb (fun R : Range => snd R =? start) ranges then
    List.map (fun R : Range => if snd R =? start then (fst R, end_) else R) ranges
  else if existsb (fun R : Range => fst R =? end_) ranges then
    List.map (fun R : Range => if fst R =? end_ then (fst R, start) else R) ranges
  else ranges ++ [(start, end_)].

(** *** The range invariant *)

(** Every range has [start < end], and no two ranges of a bucket
    overlap. *)
Definition range_ok (r : Range) : bool := fst r <? snd r.

Definition disjoint (r1 r2 : Range) : bool :=
  (snd r1 <=? fst r2) || (snd r2 <=? fst r1).

Fixpoint pairwise_disjoint (rs : list Range) : bool :=
  match rs with
  | [] => true
  | r :: rest => forallb (disjoint r) rest && pairwise_disjoint rest
  end.

Definition bucket_ok (rs : list Range) : bool :=
  forallb range_ok rs && pairwise_disjoint rs.

Definition table_ok (t : PropTable) : bool :=
  forallb (fun entry : string * PropertyRanges =>
    match snd entry with
    | Flagless rs => bucket_ok rs
    | Flagged m => forallb (fun kv : Flag * list Range => bucket_ok (snd kv)) m
    end) t.

End Props.

(** ** The editor state *)

(** [{ position, username, colour }].  A colour is [None] when the
    palette lookup yields [undefined]. *)
Record Cursor : Type := mkCursor {
  position : Z;
  username : string;
  colour : option string;
}.

Definition with_position (p : Z) (c : Cursor) : Cursor :=
  {| position := p; username := username c; colour := colour c |}.

(** One entry of [#builtup_inputs]. *)
Inductive Input : Type :=
| IRemove (start end_ : Z)
| IAdd (position : Z) (text : string)
| IAddProperty (start end_ : Z) (property : string) (flag : Flag)
| IRemoveProperty (start end_ : Z) (property : string)
| ICursor (position : Z).

(** What [#socket.emit] sends. *)
Inductive Emit : Type :=
| EmitAddRegion (text : string) (position : Z) (last_mod_id : option Z)
| EmitRemoveRegion (start end_ : Z) (last_mod_id : option Z)
| EmitAddProperty (start end_ : Z) (property : string) (flag : Flag)
    (last_mod_id : option Z)
| EmitRemoveProperty (start end_ : Z) (property : string)
    (last_mod_id : option Z)
| EmitCursorMoved (position : Z) (last_mod_id : option Z)
| EmitUpdateLastModId (last_mod_id : option Z).

(** A replica: the text, the cursor table and the property table.  The
    editor holds two, the live one ([#content], [#cursors],
    [#properties]) and the shadow one ([#server_content],
    [#server_cursors], [#server_properties]). *)
Record Replica : Type := mkReplica {
  r_content : string;
  r_cursors : gmap Z Cursor;
  r_properties : PropTable;
}.

Record Editor : Type := mkEditor {
  live : Replica;
  shadow : Replica;
  builtup_inputs : list Input;
  last_mod_id : option Z;
  last_mod_id_dirty : bool;
  userid : option Z;
  read_only : bool;
  (** events sent on the socket, oldest first *)
  emitted : list Emit;
  (** number of [console.error] calls made by [assert] *)
  errors : nat;
}.

Definition content (s : Editor) : string := r_content (live s).
Definition cursors (s : Editor) : gmap Z Cursor := r_cursors (live s).
Definition properties (s : Editor) : PropTable := r_properties (live s).
Definition server_content (s : Editor) : string := r_content (shadow s).
Definition server_cursors (s : Editor) : gmap Z Cursor := r_cursors (shadow s).
Definition server_properties (s : Editor) : PropTable := r_properties (shadow s).

Definition set_live (r : Replica) (s : Editor) : Editor :=
  mkEditor r (shadow s) (builtup_inputs s) (last_mod_id s)
    (last_mod_id_dirty s) (userid s) (read_only s) (emitted s) (errors s).

Definition set_shadow (r : Replica) (s : Editor) : Editor :=
  mkEditor (live s) r (builtup_inputs s) (last_mod_id s)
    (last_mod_id_dirty s) (userid s) (read_only s) (emitted s) (errors s).

Definition set_inputs (q : list Input) (s : Editor) : Editor :=
  mkEditor (live s) (shadow s) q (last_mod_id s)
    (last_mod_id_dirty s) (userid s) (read_only s) (emitted s) (errors s).

Definition set_dirty (d : bool) (s : Editor) : Editor :=
  mkEditor (live s) (shadow s) (builtup_inputs s) (last_mod_id s)
    d (userid s) (read_only s) (emitted s) (errors s).

Definition set_content (c : string) (r : Replica) : Replica :=
  mkReplica c (r_cursors r) (r_properties r).

Definition set_cursors (c : gmap Z Cursor) (r : Replica) : Replica :=
  mkReplica (r_content r) c (r_properties r).

Definition set_properties (t : PropTable) (r : Replica) : Replica :=
  mkReplica (r_content r) (r_cursors r) t.

(** [this.#socket.emit(...)] *)
Definition emit (e : Emit) (s : Editor) : Editor :=
  mkEditor (live s) (shadow s) (builtup_inputs s) (last_mod_id s)
    (last_mod_id_dirty s) (userid s) (read_only s) (emitted s ++ [e])
    (errors s).

(** [this.#builtup_inputs.push(...)] *)
Definition push (i : Input) (s : Editor) : Editor :=
  set_inputs (builtup_inputs s ++ [i]) s.

(** [assert(value)]: writes to the console when [value] is false and
    never stops the caller. *)
Definition assert (value : bool) (s : Editor) : Editor :=
  if value then s
  else mkEditor (live s) (shadow s) (builtup_inputs s) (last_mod_id s)
         (last_mod_id_dirty s) (userid s) (read_only s) (emitted s)
         (S (errors s)).

(** [#set_last_mod_id] *)
Definition set_last_mod_id (m : Z) (s : Editor) : Editor :=
  mkEditor (live s) (shadow s) (builtup_inputs s) (Some m)
    true (userid s) (read_only s) (emitted s) (errors s).

(** The state of [new Editor(read_only)]. *)
Definition new_editor (ro : bool) : Editor :=
  {| live := mkReplica "" ∅ [];
     shadow := mkReplica "" ∅ [];
     builtup_inputs := [];
     last_mod_id := None;
     last_mod_id_dirty := false;
     userid := None;
     read_only := ro;
     emitted := [];
     errors := 0 |}.

(** How a method or handler ends: it returns, or a JS exception leaves
    it at the state reached so far. *)
Inductive Outcome : Type :=
| Done (s : Editor)
| Throws (s : Editor).

Definition state_of (o : Outcome) : Editor :=
  match o with Done s | Throws s => s end.

Definition bind (o : Outcome) (k : Editor -> Outcome) : Outcome :=
  match o with
  | Done s => k s
  | Throws s => Throws s
  end.

Notation "o >>> k" := (bind o k) (at level 50, left associativity).

(** ** The local application primitives, on one replica *)

Module Replica.

(** [#shift_all_fixed_points] *)
Definition shift_all_fixed_points (shift : Z -> Z) (r : Replica) : Replica :=
  mkReplica (r_content r)
    ((fun c => with_position (shift (position c)) c) <$> r_cursors r)
    (Props.shift_table shift (r_properties r)).

(** [#actual_remove] *)
Definition actual_remove (start end_ : Z) (r : Replica) : Replica :=
  let r1 := shift_all_fixed_points
              (fun pos => if pos >? start
                          then pos - (Z.min end_ pos - start) else pos) r in
  let r2 := set_properties
              (Props.remove_empty_property_ranges (r_properties r1)) r1 in
  set_content (JS.substring (r_content r2) 0 start
               ++ JS.substring_from (r_content r2) end_)%string r2.

(** [#actual_add] *)
Definition actual_add (text : string) (position : Z) (r : Replica) : Replica :=
  let r1 := shift_all_fixed_points
              (fun pos => if pos >? position
                          then pos + JS.len text else pos) r in
  set_content (JS.substring (r_content r1) 0 position
               ++ text
               ++ JS.substring_from (r_content r1) position)%string r1.

(** [#actual_add_property] *)
Definition actual_add_property (start end_ : Z) (property : string)
    (flag : Flag) (r : Replica) : Replica :=
  set_properties
    (Props.actual_add_property start end_ property flag (r_properties r)) r.

(** [#actual_remove_property] *)
Definition actual_remove_property (start end_ : Z) (property : string)
    (r : Replica) : Replica :=
  set_properties
    (Props.actual_remove_property start end_ property (r_properties r)) r.

End Replica.

(** [server_side ? shadow : live] *)
Definition on_replica (server_side : bool) (f : Replica -> Replica)
    (s : Editor) : Editor :=
  if server_side then set_shadow (f (shadow s)) s
  else set_live (f (live s)) s.

(** ** The methods and handlers of class [Editor] *)

Module EditorJS.

Definition CURSOR_COLOURS : list string :=
  ["red"; "orange"; "brown"; "green"; "blue"; "violet"; "pink"].

(** [this.#cursors[this.#userid]], [undefined] when there is none. *)
Definition own_cursor (s : Editor) : option Cursor :=
  match userid s with
  | Some u => cursors s !! u
  | None => None
  end.

(** [get position()]; [None] stands for the [TypeError] of reading
    [.position] of [undefined]. *)
Definition get_position (s : Editor) : option Z :=
  if read_only s then Some 0
  else position <$> own_cursor s.

(** [this.#cursors[this.#userid].position = p] *)
Definition set_own_position (p : Z) (s : Editor) : Outcome :=
  match userid s with
  | Some u =>
      match cursors s !! u with
      | Some c =>
          Done (set_live
                  (set_cursors (<[u := with_position p c]> (cursors s)) (live s)) s)
      | None => Throws s
      end
  | None => Throws s
  end.

Definition in_bounds (p : Z) (s : Editor) : bool :=
  (p >=? 0) && (p <=? JS.len (content s)).

(** [move_cursor(position)] *)
Definition move_cursor (pos : Z) (s : Editor) : Outcome :=
  if read_only s then Done s else
  let s := assert (in_bounds pos s) s in
  let s := push (ICursor pos) s in
  set_own_position pos s >>> fun s =>
  let s := emit (EmitCursorMoved pos (last_mod_id s)) s in
  Done (set_dirty false s).

(** [remove(start, end)] *)
Definition remove (start end_ : Z) (s : Editor) : Outcome :=
  if read_only s then Done s else
  let s := assert (in_bounds start s) s in
  let s := assert (in_bounds end_ s) s in
  let s := push (IRemove start end_) s in
  let s := emit (EmitRemoveRegion start end_ (last_mod_id s)) s in
  let s := set_dirty false s in
  Done (on_replica false (Replica.actual_remove start end_) s).

(** [add(text, position)] *)
Definition add (text : string) (pos : Z) (s : Editor) : Outcome :=
  if read_only s then Done s else
  let s := assert (in_bounds pos s) s in
  let s := push (IAdd pos text) s in
  let s := emit (EmitAddRegion text pos (last_mod_id s)) s in
  let s := set_dirty false s in
  let s := on_replica false (Replica.actual_add text pos) s in
  match get_position s with
  | None => Throws s
  | Some p =>
      if p =? pos then move_cursor (pos + JS.len text) s else Done s
  end.

Inductive ToggleAction : Type := ActAdd | ActRemove.

(** The filter of [toggle_property]:
    [start <= range[0] ? range[0] <= end : range[1] >= start]. *)
Definition overlaps (start end_ : Z) (range : Range) : bool :=
  if start <=? fst range then fst range <=? end_ else snd range >=? start.

(** [range[0] <= start && range[1] >= end] *)
Definition covers (start end_ : Z) (range : Range) : bool :=
  (fst range <=? start) && (snd range >=? end_).

(** The value of the local variable [action] of [toggle_property]. *)
Definition toggle_action (start end_ : Z) (property : string) (flag : Flag)
    (t : PropTable) : ToggleAction :=
  match JSMap.get t property with
  | Some prop =>
      match List.filter (overlaps start end_) (Props.bucket flag prop) with
      | [r] => if covers start end_ r then ActRemove else ActAdd
      | _ => ActAdd
      end
  | None => ActAdd
  end.

Definition is_undefined (f : Flag) : bool :=
  match f with FUndefined => true | _ => false end.

(** [toggle_property(start, end, property, flag = undefined)] *)
Definition toggle_property (start end_ : Z) (property : string) (flag : Flag)
    (s : Editor) : Outcome :=
  if read_only s then Done s else
  let s := assert (in_bounds start s) s in
  let s := assert (in_bounds end_ s) s in
  let s := match JSMap.get (properties s) property with
           | Some (Flagged _) => assert (negb (is_undefined flag)) s
           | Some (Flagless _) => assert (is_undefined flag) s
           | None => s
           end in
  let s :=
    match toggle_action start end_ property flag (properties s) with
    | ActAdd =>
        let s := push (IAddProperty start end_ property flag) s in
        let s := emit (EmitAddProperty start end_ property flag
                         (last_mod_id s)) s in
        on_replica false (Replica.actual_add_property start end_ property flag) s
    | ActRemove =>
        let s := push (IRemoveProperty start end_ property) s in
        let s := emit (EmitRemoveProperty start end_ property
                         (last_mod_id s)) s in
        on_replica false (Replica.actual_remove_property start end_ property) s
    end in
  Done (set_dirty false s).

(** [#on_connected] *)
Definition on_connected (my_userid : Z) (text : string) (mod_id : Z)
    (s : Editor) : Outcome :=
  let s := mkEditor (set_content text (live s)) (set_content text (shadow s))
             (builtup_inputs s) (Some mod_id) (last_mod_id_dirty s)
             (Some my_userid) (read_only s) (emitted s) (errors s) in
  if read_only s then Done s
  else
    let cs := <[my_userid := mkCursor 0 "Me" (Some "black")]> (cursors s) in
    let s := set_live (set_cursors cs (live s)) s in
    Done (set_shadow (set_cursors cs (shadow s)) s).

(** [#on_user_disconnected] *)
Definition on_user_disconnected (uid : Z) (s : Editor) : Outcome :=
  let s := set_shadow (set_cursors (delete uid (server_cursors s)) (shadow s)) s in
  Done (set_live (set_cursors (delete uid (cursors s)) (live s)) s).

(** [#on_ping] *)
Definition on_ping (s : Editor) : Outcome :=
  if last_mod_id_dirty s then
    Done (set_dirty false (emit (EmitUpdateLastModId (last_mod_id s)) s))
  else Done s.

(** [this.#builtup_inputs.shift()] followed by the first read of a
    field of the result: on an empty queue the result is [undefined]
    and the read raises. *)
Definition shift_expect (s : Editor) : option (Input * Editor) :=
  match builtup_inputs s with
  | [] => None
  | expect :: rest => Some (expect, set_inputs rest s)
  end.

(** The conditions the echo branches assert on the popped input. *)

(** [expect.type === 'cursor' && expect.position === position] *)
Definition expects_cursor (pos : Z) (expect : Input) : bool :=
  match expect with
  | ICursor p => p =? pos
  | _ => false
  end.

(** [expect.type === 'remove' && expect.start === start
    && expect.end === end] *)
Definition expects_remove (start end_ : Z) (expect : Input) : bool :=
  match expect with
  | IRemove a b => (a =? start) && (b =? end_)
  | _ => false
  end.

(** [expect.type === 'add' && expect.text === text
    && expect.position === position] *)
Definition expects_add (text : string) (pos : Z) (expect : Input) : bool :=
  match expect with
  | IAdd p t => String.eqb t text && (p =? pos)
  | _ => false
  end.

(** [expect.type === 'remove_property' && expect.start === start
    && expect.end === end && expect.property === property] *)
Definition expects_remove_property (start end_ : Z) (property : string)
    (expect : Input) : bool :=
  match expect with
  | IRemoveProperty a b p =>
      (a =? start) && (b =? end_) && String.eqb p property
  | _ => false
  end.

(** [expect.type === 'add_property' && expect.start === start
    && expect.end === end && expect.property === property
    && expect.flag == flag] *)
Definition expects_add_property (start end_ : Z) (property : string)
    (flag : Flag) (expect : Input) : bool :=
  match expect with
  | IAddProperty a b p f =>
      (a =? start) && (b =? end_) && String.eqb p property && loose_eq f flag
  | _ => false
  end.

(** The loop of [#on_cursor_moved] that carries a remote position over
    the pending inputs. *)
Definition rebase_position (inputs : list Input) (pos : Z) : Z :=
  fold_left (fun pos input =>
    match input with
    | IRemove start end_ =>
        if pos >? start then pos - (Z.min end_ pos - start) else pos
    | IAdd p text =>
        if pos >? p then pos + JS.len text else pos
    | _ => pos
    end) inputs pos.

(** The palette entries no cursor of the live table uses. *)
Definition remaining_colours (cs : gmap Z Cursor) : list string :=
  List.filter (fun col =>
    negb (existsb (fun kc : Z * Cursor =>
                     bool_decide (colour (snd kc) = Some col))
            (map_to_list cs))) CURSOR_COLOURS.

(** [#on_cursor_moved].  [rnd] is the value of
    [Math.floor(Math.random() * remaining_colours.length)]. *)
Definition on_cursor_moved (pos uid : Z) (name : string) (mod_id : Z)
    (rnd : nat) (s : Editor) : Outcome :=
  let s := set_last_mod_id mod_id s in
  if bool_decide (Some uid = userid s) then
    match shift_expect s with
    | None => Throws s
    | Some (expect, s) =>
        let s := assert (expects_cursor pos expect) s in
        match server_cursors s !! uid with
        | Some c =>
            Done (set_shadow
                    (set_cursors (<[uid := with_position pos c]> (server_cursors s))
                       (shadow s)) s)
        | None => Throws s
        end
    end
  else
    let pos := rebase_position (builtup_inputs s) pos in
    let c := match cursors s !! uid with
             | Some c => with_position pos c
             | None => mkCursor pos name (remaining_colours (cursors s) !! rnd)
             end in
    let s := set_live (set_cursors (<[uid := c]> (cursors s)) (live s)) s in
    Done (set_shadow (set_cursors (<[uid := c]> (server_cursors s)) (shadow s)) s).

(** One pending input applied to the live replica, as the [switch] of
    the replay loops does after the rebase. *)
Definition apply_local (input : Input) (s : Editor) : Outcome :=
  match input with
  | IRemove start end_ =>
      Done (on_replica false (Replica.actual_remove start end_) s)
  | IAdd p text =>
      Done (on_replica false (Replica.actual_add text p) s)
  | IRemoveProperty start end_ property =>
      Done (on_replica false
              (Replica.actual_remove_property start end_ property) s)
  | IAddProperty start end_ property flag =>
      Done (on_replica false
              (Replica.actual_add_property start end_ property flag) s)
  | ICursor p => set_own_position p s
  end.

(** [for (const input of this.#builtup_inputs)] of [#on_remove_region]
    and [#on_add_region]: each input object is rebased in place, then
    applied.  [done] holds the inputs already visited. *)
Fixpoint replay (rebase : Input -> Input) (done todo : list Input)
    (s : Editor) : Outcome :=
  match todo with
  | [] => Done (set_inputs done s)
  | input :: rest =>
      let input' := rebase input in
      match apply_local input' (set_inputs (done ++ input' :: rest) s) with
      | Done s' => replay rebase (done ++ [input']) rest s'
      | Throws s' => Throws s'
      end
  end.

(** [content = server_content; cursors = clone(server_cursors);
    properties = clone(server_properties)] *)
Definition reset_live (s : Editor) : Editor := set_live (shadow s) s.

(** The coordinate rule of the replay in [#on_remove_region]:
    [if (start < x) x -= Math.min(x, end) - start]. *)
Definition rebase_over_remove (start end_ x : Z) : Z :=
  if start <? x then x - (Z.min x end_ - start) else x.

Definition rebase_input_remove (start end_ : Z) (input : Input) : Input :=
  let f := rebase_over_remove start end_ in
  match input with
  | IRemove a b => IRemove (f a) (f b)
  | IAdd p text => IAdd (f p) text
  | IRemoveProperty a b property => IRemoveProperty (f a) (f b) property
  | IAddProperty a b property flag => IAddProperty (f a) (f b) property flag
  | ICursor p => ICursor (f p)
  end.

(** The coordinate rules of the replay in [#on_add_region]: a start,
    an insert position and a cursor move when [position < x], an end
    when [position <= x]. *)
Definition rebase_input_add (text : string) (pos : Z) (input : Input) : Input :=
  let lo x := if pos <? x then x + JS.len text else x in
  let hi x := if pos <=? x then x + JS.len text else x in
  match input with
  | IRemove a b => IRemove (lo a) (hi b)
  | IAdd p t => IAdd (lo p) t
  | IRemoveProperty a b property => IRemoveProperty (lo a) (hi b) property
  | IAddProperty a b property flag => IAddProperty (lo a) (hi b) property flag
  | ICursor p => ICursor (lo p)
  end.

(** [#on_remove_region] *)
Definition on_remove_region (start end_ uid mod_id : Z) (s : Editor)
  : Outcome :=
  let s := set_last_mod_id mod_id s in
  let s := on_replica true (Replica.actual_remove start end_) s in
  if bool_decide (Some uid = userid s) then
    match shift_expect s with
    | None => Throws s
    | Some (expect, s) =>
        Done (assert (expects_remove start end_ expect) s)
    end
  else
    let s := reset_live s in
    replay (rebase_input_remove start end_) [] (builtup_inputs s) s.

(** [#on_add_region] *)
Definition on_add_region (text : string) (pos uid mod_id : Z) (s : Editor)
  : Outcome :=
  let s := set_last_mod_id mod_id s in
  let s := on_replica true (Replica.actual_add text pos) s in
  if bool_decide (Some uid = userid s) then
    match shift_expect s with
    | None => Throws s
    | Some (expect, s) =>
        Done (assert (expects_add text pos expect) s)
    end
  else
    let s := reset_live s in
    replay (rebase_input_add text pos) [] (builtup_inputs s) s.

(** The loop of [#on_remove_property] and [#on_add_property]: only the
    pending property inputs are applied again; for a pending [remove]
    or [add] the loop recomputes the handler's own [start] and [end],
    which nothing reads afterwards. *)
Definition replay_properties (inputs : list Input) (s : Editor) : Editor :=
  fold_left (fun s input =>
    match input with
    | IRemoveProperty a b property =>
        on_replica false (Replica.actual_remove_property a b property) s
    | IAddProperty a b property flag =>
        on_replica false (Replica.actual_add_property a b property flag) s
    | _ => s
    end) inputs s.

(** [this.#properties = structuredClone(this.#server_properties)] *)
Definition reset_live_properties (s : Editor) : Editor :=
  set_live (set_properties (server_properties s) (live s)) s.

(** [#on_remove_property] *)
Definition on_remove_property (start end_ : Z) (property : string)
    (uid mod_id : Z) (s : Editor) : Outcome :=
  let s := set_last_mod_id mod_id s in
  let s := on_replica true
             (Replica.actual_remove_property start end_ property) s in
  if bool_decide (Some uid = userid s) then
    match shift_expect s with
    | None => Throws s
    | Some (expect, s) =>
        Done (assert (expects_remove_property start end_ property expect) s)
    end
  else
    let s := reset_live_properties s in
    Done (replay_properties (builtup_inputs s) s).

(** [#on_add_property] *)
Definition on_add_property (start end_ : Z) (property : string) (flag : Flag)
    (uid mod_id : Z) (s : Editor) : Outcome :=
  let s := set_last_mod_id mod_id s in
  let s := on_replica true
             (Replica.actual_add_property start end_ property flag) s in
  if bool_decide (Some uid = userid s) then
    match shift_expect s with
    | None => Throws s
    | Some (expect, s) =>
        Done (assert (expects_add_property start end_ property flag expect) s)
    end
  else
    let s := reset_live_properties s in
    Done (replay_properties (builtup_inputs s) s).

(** *** Traces *)

(** What can happen to an editor: a call of a public method, or an
    event delivered by the socket. *)
Inductive Action : Type :=
| Add (text : string) (position : Z)
| Remove (start end_ : Z)
| MoveCursor (position : Z)
| ToggleProperty (start end_ : Z) (property : string) (flag : Flag)
| Connected (my_userid : Z) (text : string) (mod_id : Z)
| UserDisconnected (uid : Z)
| Ping
| CursorMoved (position uid : Z) (username : string) (mod_id : Z) (rnd : nat)
| RemoveRegion (start end_ uid mod_id : Z)
| AddRegion (text : string) (position uid mod_id : Z)
| RemoveProperty (start end_ : Z) (property : string) (uid mod_id : Z)
| AddProperty (start end_ : Z) (property : string) (flag : Flag)
    (uid mod_id : Z).

Definition step (a : Action) (s : Editor) : Outcome :=
  match a with
  | Add text p => add text p s
  | Remove a b => remove a b s
  | MoveCursor p => move_cursor p s
  | ToggleProperty a b property flag => toggle_property a b property flag s
  | Connected u text m => on_connected u text m s
  | UserDisconnected u => on_user_disconnected u s
  | Ping => on_ping s
  | CursorMoved p u name m rnd => on_cursor_moved p u name m rnd s
  | RemoveRegion a b u m => on_remove_region a b u m s
  | AddRegion text p u m => on_add_region text p u m s
  | RemoveProperty a b property u m => on_remove_property a b property u m s
  | AddProperty a b property flag u m =>
      on_add_property a b property flag u m s
  end.

(** The single-threaded event loop: actions run one after the other;
    an exception ends the action that raised it and the next one
    starts from the state it left. *)
Definition run (trace : list Action) (s : Editor) : Editor :=
  fold_left (fun s a => state_of (step a s)) trace s.

(** The calls of public methods among the actions. *)
Definition is_public (a : Action) : bool :=
  match a with
  | Add _ _ | Remove _ _ | MoveCursor _ | ToggleProperty _ _ _ _ => true
  | _ => false
  end.

(** The states an editor created with [read_only = ro] can be in. *)
Definition reachable (ro : bool) (s : Editor) : Prop :=
  exists trace, s = run trace (new_editor ro).


(** *** The condition of [toggle_property] *)

(** The bucket [toggle_property] inspects; empty when the property
    is not in the table. *)
Definition inspected (property : string) (flag : Flag) (t : PropTable)
  : list Range :=
  match JSMap.get t property with
  | Some prop => Props.bucket flag prop
  | None => []
  end.

(** Exactly one range of the bucket overlaps or touches the closed
    interval from [start] to [end], and that range covers it. *)
Definition sole_cover (start end_ : Z) (rs : list Range) : Prop :=
  exists l1 r l2,
    rs = l1 ++ r :: l2
    /\ overlaps start end_ r = true
    /\ covers start end_ r = true
    /\ Forall (fun x => overlaps start end_ x = false) (l1 ++ l2).

(** *** One user alone *)

(** One pending input applied to a replica on behalf of user [u]. *)
Definition apply_input (u : Z) (input : Input) (r : Replica) : Replica :=
  match input with
  | IRemove a b => Replica.actual_remove a b r
  | IAdd p text => Replica.actual_add text p r
  | IAddProperty a b property flag =>
      Replica.actual_add_property a b property flag r
  | IRemoveProperty a b property =>
      Replica.actual_remove_property a b property r
  | ICursor p => set_cursors (alter (with_position p) u (r_cursors r)) r
  end.

(** What a flag passed to [socket.emit] arrives as.  The arguments of
    an event travel as JSON, which has no [undefined]: an absent flag
    arrives as [null].  The echo branches compare the flag with [==]
    for that reason. *)
Definition wire (flag : Flag) : Flag :=
  match flag with
  | FUndefined => FNull
  | _ => flag
  end.

(** The event by which the server echoes an input of user [u]. *)
Definition echo_of (u m : Z) (input : Input) : Action :=
  match input with
  | IRemove a b => RemoveRegion a b u m
  | IAdd p text => AddRegion text p u m
  | IAddProperty a b property flag => AddProperty a b property (wire flag) u m
  | IRemoveProperty a b property => RemoveProperty a b property u m
  | ICursor p => CursorMoved p u "Me" m 0
  end.

(** The live replica is the shadow replica with the queue applied. *)
Definition in_sync (u : Z) (s : Editor) : Prop :=
  userid s = Some u
  /\ read_only s = false
  /\ is_Some (cursors s !! u)
  /\ is_Some (server_cursors s !! u)
  /\ live s = fold_left (fun r input => apply_input u input r)
                (builtup_inputs s) (shadow s).


End EditorJS.

(** ** Geometry helper of [html_utilities.js]

    A JS number is an IEEE 754 binary64 value: the coordinates are
    primitive floats, and [-], [*], [/], [==], [>=] and [<=] are the
    operations of the format, rounding to nearest even.  [x == 0]
    holds of both zeros and not of NaN; a comparison with NaN is
    false. *)

Module Geometry.
Local Open Scope float_scope.

Definition Point : Type := float * float.

(** [linesIntersect(a1, a2, b1, b2)] *)
Definition linesIntersect (a1 a2 b1 b2 : Point) : bool :=
  let denom := (snd b2 - snd b1) * (fst a2 - fst a1)
               - (fst b2 - fst b1) * (snd a2 - snd a1) in
  if denom =? 0 then false
  else
    let ua := ((fst b2 - fst b1) * (snd a1 - snd b1)
               - (snd b2 - snd b1) * (fst a1 - fst b1)) / denom in
    let ub := ((fst a2 - fst a1) * (snd a1 - snd b1)
               - (snd a2 - snd a1) * (fst a1 - fst b1)) / denom in
    (0 <=? ua) && (ua <=? 1) && (0 <=? ub) && (ub <=? 1).

(** Two values of the format that no comparison tells apart: the same
    value, or two zeros, of either sign. *)
Definition both_zero (x y : spec_float) : Prop :=
  match x, y with
  | S754_zero _, S754_zero _ => True
  | _, _ => False
  end.

Definition sf_same (x y : spec_float) : Prop := x = y \/ both_zero x y.

End Geometry.

(** ** The scene of [whiteboard.js]

    The document is cut down to the children of [#drawing-area]: the
    state is the list of its child elements, each a tree.  The other
    elements of the page (the toolbar, the area itself) are left out,
    so an id is taken to differ from theirs.  A path that is still
    being drawn has no id yet, written [""]; [getElementById] never
    returns it. *)

Module Whiteboard.

Inductive Tag : Type := TagPath | TagG.

(** An SVG element: tag name, [id], attribute [d], child elements. *)
Inductive Element : Type :=
| Elem (tag : Tag) (id : string) (d : option string) (children : list Element).

Definition tag_of (e : Element) : Tag := let (t, _, _, _) := e in t.
Definition id_of (e : Element) : string := let (_, i, _, _) := e in i.
Definition d_of (e : Element) : option string := let (_, _, d, _) := e in d.
Definition children_of (e : Element) : list Element := let (_, _, _, c) := e in c.

Definition has_id (id : string) (e : Element) : bool :=
  negb (String.eqb id "") && String.eqb (id_of e) id.

(** The first element with the given id in document order (an element
    comes before its children, and these before its next sibling),
    searched in the subtree of [e]. *)
Fixpoint find (id : string) (e : Element) : option Element :=
  if has_id id e then Some e
  else
    (fix find_list (l : list Element) : option Element :=
       match l with
       | [] => None
       | c :: rest =>
           match find id c with
           | Some x => Some x
           | None => find_list rest
           end
       end) (children_of e).

(** [document.getElementById(id)] *)
Fixpoint getElementById (id : string) (area : list Element) : option Element :=
  match area with
  | [] => None
  | c :: rest =>
      match find id c with
      | Some x => Some x
      | None => getElementById id rest
      end
  end.

(** The first element with the given id in document order, replaced
    by the elements [f] makes of it; [None] when there is no such
    element. *)
Fixpoint replace_in (id : string) (f : Element -> list Element) (e : Element)
  : option (list Element) :=
  if has_id id e then Some (f e)
  else
    option_map (fun cs => [Elem (tag_of e) (id_of e) (d_of e) cs])
      ((fix replace_list (l : list Element) : option (list Element) :=
          match l with
          | [] => None
          | c :: rest =>
              match replace_in id f c with
              | Some cs => Some (cs ++ rest)
              | None => option_map (cons c) (replace_list rest)
              end
          end) (children_of e)).

Fixpoint replace_first (id : string) (f : Element -> list Element)
    (area : list Element) : option (list Element) :=
  match area with
  | [] => None
  | c :: rest =>
      match replace_in id f c with
      | Some cs => Some (cs ++ rest)
      | None => option_map (cons c) (replace_first id f rest)
      end
  end.

(** Whether the element [getElementById] returns is a child of the
    drawing area itself. *)
Fixpoint is_child_of_area (id : string) (area : list Element) : bool :=
  match area with
  | [] => false
  | c :: rest =>
      if has_id id c then true
      else match find id c with
           | Some _ => false
           | None => is_child_of_area id rest
           end
  end.

(** The handlers return, or raise: [TypeError] for a member access on
    [null], [NotFoundError] for [removeChild] of a node that is not a
    child.  Both keep the scene they reached. *)
Inductive Result : Type :=
| Ok (area : list Element)
| TypeError (area : list Element)
| NotFoundError (area : list Element).

Definition scene_of (o : Result) : list Element :=
  match o with Ok a | TypeError a | NotFoundError a => a end.

(** [#create_path] with the id and [d] set by [#on_draw]. *)
Definition create_path (id d : string) : Element := Elem TagPath id (Some d) [].

(** [#on_draw] *)
Definition on_draw (id path : string) (area : list Element) : Result :=
  match getElementById id area with
  | Some _ => Ok area
  | None => Ok (area ++ [create_path id path])
  end.

(** [#on_remove]: [document.getElementById(id)?.remove()] *)
Definition on_remove (id : string) (area : list Element) : Result :=
  match replace_first id (fun _ => []) area with
  | Some area' => Ok area'
  | None => Ok area
  end.

(** [#on_edit]: [document.getElementById(id)?.setAttribute('d', new_path)] *)
Definition on_edit (id new_path : string) (area : list Element) : Result :=
  match replace_first id
          (fun e => [Elem (tag_of e) (id_of e) (Some new_path) (children_of e)])
          area with
  | Some area' => Ok area'
  | None => Ok area
  end.

Definition without_children (e : Element) : Element :=
  Elem (tag_of e) (id_of e) (d_of e) [].

(** [#ungroup] *)
Definition ungroup (group_id : string) (area : list Element) : Result :=
  match getElementById group_id area with
  | None => TypeError area
  | Some group =>
      (* the [while] loop: the children leave the group one by one and
         are appended to the area *)
      let emptied := default area
                       (replace_first group_id
                          (fun e => [without_children e]) area) in
      let area1 := emptied ++ children_of group in
      (* [this.#area.removeChild(group)] *)
      if is_child_of_area group_id area then
        Ok (default area1 (replace_first group_id (fun _ => []) area1))
      else NotFoundError area1
  end.

(** The [forEach] of [#group]: each named child that exists is taken
    out of the area and appended to the new group. *)
Fixpoint move_children (ids : list string) (area group : list Element)
  : Result * list Element :=
  match ids with
  | [] => (Ok area, group)
  | id :: rest =>
      match getElementById id area with
      | None => move_children rest area group
      | Some child =>
          if is_child_of_area id area then
            move_children rest
              (default area (replace_first id (fun _ => []) area))
              (group ++ [child])
          else (NotFoundError area, group)
      end
  end.

(** [#group] *)
Definition group (group_id : string) (children_id : list string)
    (area : list Element) : Result :=
  match move_children children_id area [] with
  | (Ok area', members) => Ok (area' ++ [Elem TagG group_id None members])
  | (o, _) => o
  end.

(** A scene with a group inside a group, as five events build it. *)
Definition nested_scene : list Element :=
  fold_left (fun area handler => scene_of (handler area))
    [on_draw "a" "M 0 0"; on_draw "b" "M 1 1"; group "g2" ["a"; "b"];
     on_draw "c" "M 2 2"; group "g1" ["g2"; "c"]] [].

(** Induction on an element with the hypothesis for all children. *)
Section ElementInduction.
Variable P : Element -> Prop.
Hypothesis step : forall t i d cs, Forall P cs -> P (Elem t i d cs).

Fixpoint Element_nested_ind (e : Element) : P e :=
  match e with
  | Elem t i d cs =>
      step t i d cs
        ((fix all (l : list Element) : Forall P l :=
            match l with
            | [] => @List.Forall_nil _ P
            | c :: rest =>
                @List.Forall_cons _ P c rest (Element_nested_ind c) (all rest)
            end) cs)
  end.
End ElementInduction.

End Whiteboard.

(** ** The handlers on the page

    [document.getElementById] searches the whole document, not the
    drawing area alone.  Of the elements outside the area the page
    keeps the ids: [ids_before] for the elements that come before the
    children of the area in document order (its ancestors and the
    area itself among them), [ids_after] for those that come after.
    What a handler does to an element outside the area is not
    followed ([Elsewhere]); the element exists, so the handler has
    not dereferenced [null]. *)

Module Page.
Import Whiteboard.

Record Document : Type := mkDocument {
  ids_before : list string;
  area : list Element;
  ids_after : list string;
}.

(** What [document.getElementById] returns: [null], an element inside
    the drawing area, or an element outside it. *)
Inductive Lookup : Type :=
| NoElement
| InArea (e : Element)
| OutsideArea.

(** Some element of the list of ids carries [id]; no element is found
    by the empty id. *)
Definition carries (id : string) (ids : list string) : bool :=
  negb (String.eqb id "") && existsb (String.eqb id) ids.

(** [document.getElementById(id)] *)
Definition getElementById (id : string) (doc : Document) : Lookup :=
  if carries id (ids_before doc) then OutsideArea
  else match Whiteboard.getElementById id (area doc) with
       | Some e => InArea e
       | None => if carries id (ids_after doc) then OutsideArea else NoElement
       end.

(** What a handler does: the result on the scene, or [Elsewhere] when
    it acts on an element outside the drawing area. *)
Inductive PageResult : Type :=
| InScene (r : Result)
| Elsewhere.

(** [#on_remove] *)
Definition on_remove (id : string) (doc : Document) : PageResult :=
  match getElementById id doc with
  | NoElement => InScene (Ok (area doc))
  | InArea _ => InScene (Whiteboard.on_remove id (area doc))
  | OutsideArea => Elsewhere
  end.

(** [#on_edit] *)
Definition on_edit (id new_path : string) (doc : Document) : PageResult :=
  match getElementById id doc with
  | NoElement => InScene (Ok (area doc))
  | InArea _ => InScene (Whiteboard.on_edit id new_path (area doc))
  | OutsideArea => Elsewhere
  end.

(** [#ungroup]: [group.children] of [null] raises a [TypeError]. *)
Definition ungroup (group_id : string) (doc : Document) : PageResult :=
  match getElementById group_id doc with
  | NoElement => InScene (TypeError (area doc))
  | InArea _ => InScene (Whiteboard.ungroup group_id (area doc))
  | OutsideArea => Elsewhere
  end.

(** The page of the whiteboard as far as the source names it: the
    drawing area, which precedes its children, and the controls of
    the toolbar, around a scene.  Where the toolbar stands is not
    known from the source; it only matters for a scene that reuses
    one of its ids. *)
Definition whiteboard_page (scene : list Element) : Document :=
  mkDocument
    ["drawing-area"] scene
    ["select-selector"; "select-pen"; "select-eraser"; "select-shape";
     "specify-sides"; "group"].

End Page.

(** ** Ranges and positions: what the properties are stated with *)

Module Coverage.

(** The half-open range [[r0, r1)] holds position [p]. *)
Definition in_range (p : Z) (r : Range) : bool := (fst r <=? p) && (p <? snd r).

(** Some range of the bucket holds [p]: the character at [p] carries
    the property. *)
Definition covered (p : Z) (rs : list Range) : bool := existsb (in_range p) rs.

(** The ranges stored for a (property, flag) pair; none when the
    property or the flag is not in the table. *)
Definition ranges_of (property : string) (flag : Flag) (t : PropTable)
  : list Range :=
  match JSMap.get t property with
  | Some prop => Props.bucket flag prop
  | None => []
  end.

(** Keys are unique, as in every JS [Map]. *)
Definition unique_keys {K V} (m : list (K * V)) : Prop :=
  List.NoDup (List.map fst m).

Definition table_wf (t : PropTable) : Prop :=
  unique_keys t
  /\ Forall (fun entry : string * PropertyRanges =>
               match snd entry with
               | Flagged m => unique_keys m
               | Flagless _ => True
               end) t.

(** [x] lies within [r]. *)
Definition within (r x : Range) : Prop := fst r <= fst x /\ snd x <= snd r.

Definition monotone (f : Z -> Z) : Prop := forall p q, p <= q -> f p <= f q.

(** Every bucket of the table satisfies [P]. *)
Definition all_buckets (P : list Range -> bool) (t : PropTable) : bool :=
  forallb (fun entry : string * PropertyRanges =>
    match snd entry with
    | Flagless rs => P rs
    | Flagged m => forallb (fun kv : Flag * list Range => P (snd kv)) m
    end) t.

(** Every range of the table satisfies [P]. *)
Definition all_ranges (P : Range -> bool) (t : PropTable) : bool :=
  all_buckets (forallb P) t.

(** No property is stored without a range, and no flag either. *)
Definition no_empty_entry (t : PropTable) : bool :=
  forallb (fun entry : string * PropertyRanges =>
    match snd entry with
    | Flagless rs => Props.nonempty rs
    | Flagged m =>
        Props.nonempty m
        && forallb (fun kv : Flag * list Range => Props.nonempty (snd kv)) m
    end) t.

End Coverage.

Module Bounds.

(** Every cursor of the replica is at a position of its text. *)
Definition cursors_in_bounds (r : Replica) : Prop :=
  forall u c, r_cursors r !! u = Some c ->
              0 <= position c <= JS.len (r_content r).

(** Every range end point of the replica is a position of its text. *)
Definition in_text (n : Z) (range : Range) : bool :=
  (0 <=? fst range) && (fst range <=? n)
  && (0 <=? snd range) && (snd range <=? n).

Definition ranges_in_bounds (r : Replica) : Prop :=
  Coverage.all_ranges (in_text (JS.len (r_content r))) (r_properties r) = true.

End Bounds.

(** ** Traces with text events of other users *)

Module Sync.
Import EditorJS.

(** The modification id an inbound mutation event carries. *)
Definition mod_id_of (a : Action) : option Z :=
  match a with
  | CursorMoved _ _ _ m _ | RemoveRegion _ _ _ m | AddRegion _ _ _ m
  | RemoveProperty _ _ _ _ m | AddProperty _ _ _ _ _ m => Some m
  | _ => None
  end.



(** The part of the state the replay loops leave alone. *)
Definition meta (s : Editor) : option Z * bool * list Emit :=
  (last_mod_id s, last_mod_id_dirty s, emitted s).

End Sync.

(** ** Cursor navigation of [editor.js] *)

Module Navigation.

Inductive Direction : Type := Backwards | Forwards.

(** How [step_while] ends.  [OutOfFuel] belongs to the model only: the
    loop is run for at most [text.length + 1] rounds. *)
Inductive Scan : Type :=
| Returned (pos : Z)
| RaisedTypeError
| OutOfFuel.

(** [text[pos]]: the code unit at an index of the text, [undefined]
    ([None]) elsewhere. *)
Definition char_at (text : string) (pos : Z) : option ascii :=
  if pos <? 0 then None else String.get (Z.to_nat pos) text.

(** [direction === 'forwards' ? this.#content.length : 0] *)
Definition end_of (direction : Direction) (text : string) : Z :=
  match direction with Forwards => JS.len text | Backwards => 0 end.

(** [direction === 'forwards' ? 1 : -1] *)
Definition delta (direction : Direction) : Z :=
  match direction with Forwards => 1 | Backwards => -1 end.

(** [step(direction, start)] *)
Definition step (direction : Direction) (start : Z) (s : Editor) : Z :=
  if start =? end_of direction (content s) then start
  else start + delta direction.

(** [while (pos != end && this.#content[pos].match(condition)) pos += step].
    [condition] tells whether the regular expression matches the
    one-character string; [.match] on [undefined] raises. *)
Fixpoint while_loop (fuel : nat) (condition : ascii -> bool)
    (direction : Direction) (text : string) (pos : Z) : Scan :=
  match fuel with
  | O => OutOfFuel
  | S fuel' =>
      if pos =? end_of direction text then Returned pos
      else match char_at text pos with
           | None => RaisedTypeError
           | Some c =>
               if condition c
               then while_loop fuel' condition direction text
                      (pos + delta direction)
               else Returned pos
           end
  end.

(** [step_while(condition, direction, start)] *)
Definition step_while (condition : ascii -> bool) (direction : Direction)
    (start : Z) (s : Editor) : Scan :=
  let text := content s in
  let pos := match direction with
             | Backwards => if start >? 0 then start - 1 else start
             | Forwards => start
             end in
  match while_loop (S (String.length text)) condition direction text pos with
  | Returned pos =>
      Returned (match direction with
                | Backwards =>
                    if negb (pos =? end_of direction text) then pos + 1 else pos
                | Forwards => pos
                end)
  | other => other
  end.

(** [/[^\n]/] *)
Definition not_newline (c : ascii) : bool := negb (Ascii.eqb c "010"%char).

(** [/\s/], on the code units below 256: tab, line feed, vertical tab,
    form feed, carriage return, space and no-break space. *)
Definition is_space (c : ascii) : bool :=
  let n := nat_of_ascii c in
  ((9 <=? n) && (n <=? 13) || (n =? 32) || (n =? 160))%nat.

(** [/\S/] *)
Definition not_space (c : ascii) : bool := negb (is_space c).

(** [jump_line(direction, start)] *)
Definition jump_line (direction : Direction) (start : Z) (s : Editor) : Scan :=
  step_while not_newline direction (step direction start s) s.

(** [jump_position(direction, start)] *)
Definition jump_position (direction : Direction) (start : Z) (s : Editor)
  : Scan :=
  match step_while is_space direction start s with
  | Returned pos => step_while not_space direction pos s
  | other => other
  end.

(** The character at [i] exists and matches. *)
Definition matches (condition : ascii -> bool) (text : string) (i : Z) : Prop :=
  exists c, char_at text i = Some c /\ condition c = true.

(** The character at [i] exists and does not match. *)
Definition mismatches (condition : ascii -> bool) (text : string) (i : Z)
  : Prop :=
  exists c, char_at text i = Some c /\ condition c = false.

End Navigation.

(** ** The key handlers of [text.js]

    The DOM enters as arguments: [ctrl] is [event.ctrlKey], and
    [selection] is [getSelectionIndices()] when
    [document.getSelection().toString() !== ''], [None] otherwise. *)

Module TextJS.
Import EditorJS Navigation.

Inductive Key : Type :=
| Backspace | Delete
| ArrowLeft | ArrowRight | ArrowUp | ArrowDown
| Home | End_
| Modifier   (* Shift, Control, Alt *)
| OtherKey.

(** [editor.is_initialized()] *)
Definition is_initialized (s : Editor) : bool :=
  match userid s with Some _ => true | None => false end.

(** Reads [editor.position]; the getter raises when the local user has
    no cursor. *)
Definition read_position (s : Editor) (k : Z -> Outcome) : Outcome :=
  match get_position s with
  | Some p => k p
  | None => Throws s
  end.

(** Uses the result of a scan; a scan that raises ends the handler. *)
Definition with_scan (r : Scan) (s : Editor) (k : Z -> Outcome) : Outcome :=
  match r with
  | Returned p => k p
  | _ => Throws s
  end.

(** [editor.remove(start, end); editor.move_cursor(start)] *)
Definition replace_selection (sel : Z * Z) (s : Editor) : Outcome :=
  remove (fst sel) (snd sel) s >>> move_cursor (fst sel).

(** The listener of ['keydown']. *)
Definition keydown (key : Key) (ctrl : bool) (selection : option (Z * Z))
    (s : Editor) : Outcome :=
  if negb (is_initialized s) then Done s else
  match key with
  | Backspace =>
      match selection with
      | Some sel => replace_selection sel s
      | None =>
          if ctrl then
            read_position s (fun p =>
            with_scan (jump_position Backwards p s) s (fun q =>
            remove q p s))
          else
            read_position s (fun p =>
            if negb (p =? 0) then remove (p - 1) p s else Done s)
      end
  | Delete =>
      match selection with
      | Some sel => replace_selection sel s
      | None =>
          if ctrl then
            read_position s (fun p =>
            with_scan (jump_position Forwards p s) s (fun q =>
            remove p q s))
          else
            read_position s (fun p => remove p (p + 1) s)
      end
  | ArrowLeft =>
      read_position s (fun p =>
      if p >? 0 then
        if ctrl then
          with_scan (jump_position Backwards p s) s (fun q => move_cursor q s)
        else move_cursor (p - 1) s
      else Done s)
  | ArrowRight =>
      read_position s (fun p =>
      if p <? JS.len (content s) then
        if ctrl then
          with_scan (jump_position Forwards p s) s (fun q => move_cursor q s)
        else move_cursor (p + 1) s
      else Done s)
  | ArrowUp =>
      read_position s (fun p =>
      if p >? 0 then
        with_scan (step_while not_newline Backwards p s) s
          (fun start_of_current_line =>
        if start_of_current_line >? 0 then
          with_scan (jump_line Backwards start_of_current_line s) s
            (fun start_of_previous_line =>
          move_cursor
            (Z.min (start_of_current_line - 1)
               (start_of_previous_line + (p - start_of_current_line))) s)
        else Done s)
      else Done s)
  | ArrowDown =>
      read_position s (fun p =>
      if p <? JS.len (content s) then
        with_scan (step_while not_newline Forwards p s) s
          (fun end_of_current_line =>
        with_scan (step_while not_newline Backwards p s) s
          (fun start_of_current_line =>
        with_scan (jump_line Forwards end_of_current_line s) s
          (fun end_of_next_line =>
        move_cursor
          (Z.min end_of_next_line
             (end_of_current_line + 1 + (p - start_of_current_line))) s)))
      else Done s)
  | Home =>
      read_position s (fun p =>
      if p >? 0 then
        if ctrl then move_cursor 0 s
        else with_scan (jump_line Backwards p s) s (fun q => move_cursor q s)
      else Done s)
  | End_ =>
      read_position s (fun p =>
      if p <? JS.len (content s) then
        if ctrl then move_cursor (JS.len (content s)) s
        else with_scan (jump_line Forwards p s) s (fun q => move_cursor q s)
      else Done s)
  | Modifier => Done s
  | OtherKey => Done s
  end.

(** The keys that only move the cursor. *)
Definition is_navigation (key : Key) : bool :=
  match key with
  | ArrowLeft | ArrowRight | ArrowUp | ArrowDown | Home | End_ => true
  | _ => false
  end.

(** The listener of ['keypress']: [key] is [event.key], already
    ["\n"] for Enter. *)
Definition keypress (key : string) (selection : option (Z * Z)) (s : Editor)
  : Outcome :=
  if negb (is_initialized s) then Done s else
  (match selection with
   | Some sel => replace_selection sel s
   | None => Done s
   end) >>> fun s =>
  read_position s (fun p => add key p s).

(** The listener of ['click']: [pos] is the text position under the
    pointer, [selecting] whether a selection is shown. *)
Definition click (selecting : bool) (pos : Z) (s : Editor) : Outcome :=
  if negb (is_initialized s) then Done s else
  if selecting then Done s else
  let pos := if pos <? 0 then 0 else pos in
  let pos := if pos >? JS.len (content s) then JS.len (content s) else pos in
  move_cursor pos s.

(** [s'] is [s] after one cursor move of user [u] to [p]: one input
    queued, one event sent, no assertion failed, the text and the
    shadow replica as before. *)
Definition cursor_moved_to (u p : Z) (s s' : Editor) : Prop :=
  errors s' = errors s
  /\ content s' = content s
  /\ shadow s' = shadow s
  /\ builtup_inputs s' = builtup_inputs s ++ [ICursor p]
  /\ emitted s' = emitted s ++ [EmitCursorMoved p (last_mod_id s)]
  /\ position <$> cursors s' !! u = Some p.

End TextJS.

(** * Properties *)

(** ** Tactics *)

(** Closed goals about concrete traces are settled by evaluation, one
    conjunct at a time. *)
Ltac by_computation :=
  repeat match goal with
         | |- _ /\ _ => split
         end;
  try (vm_compute; reflexivity);
  try discriminate.

(** Takes a handler to its echo branch with the head popped. *)
Ltac echo_branch Hu Hq :=
  unfold on_replica, set_shadow, set_last_mod_id, EditorJS.shift_expect,
    set_inputs;
  cbn [builtup_inputs userid live shadow emitted errors last_mod_id
       last_mod_id_dirty read_only];
  rewrite Hu, bool_decide_eq_true_2 by reflexivity;
  rewrite Hq.


(** Comparisons on integers, decided case by case. *)
Ltac zcases :=
  repeat match goal with
         | |- context [?a >=? ?b] => rewrite (Z.geb_leb a b)
         | |- context [?a >? ?b] => rewrite (Z.gtb_ltb a b)
         end;
  repeat match goal with
         | |- context [?a <=? ?b] => destruct (Z.leb_spec a b)
         | |- context [?a <? ?b] => destruct (Z.ltb_spec a b)
         | |- context [?a =? ?b] => destruct (Z.eqb_spec a b)
         end;
  cbn; try reflexivity; try lia.

(** ** Geometry *)

Module GeometryFacts.
Import Geometry.

(** *** The operations of the format and the sign

    Rounding to nearest even does not look at the sign: negating the
    operands of a product, a difference or a quotient negates, or
    keeps, the result.  Only a difference that is zero has the sign
    [+] whichever way round it is taken. *)

Section SpecFloat.
Variables prec emax : Z.

Lemma sf_same_trans (x y z : spec_float) :
  sf_same x y -> sf_same y z -> sf_same x z.
Proof.
  intros [->|H1] [<-|H2]; try (now left); try (now right).
  right. destruct x, y, z; try contradiction; exact I.
Qed.

Lemma SFopp_involutive (x : spec_float) : SFopp (SFopp x) = x.
Proof. destruct x as [[]|[]| |[] m e]; reflexivity. Qed.

Lemma binary_round_aux_opp (s : bool) (m e : Z) (l : location) :
  binary_round_aux prec emax (negb s) m e l
  = SFopp (binary_round_aux prec emax s m e l).
Proof.
  unfold binary_round_aux.
  destruct (shr_fexp prec emax m e l) as [mrs' e'].
  destruct (shr_fexp prec emax _ e' loc_Exact) as [mrs'' e''].
  destruct (shr_m mrs''); [reflexivity| |reflexivity].
  destruct (Z.leb e'' (Z.sub emax prec)); reflexivity.
Qed.

Lemma binary_round_opp (s : bool) (m : positive) (e : Z) :
  binary_round prec emax (negb s) m e = SFopp (binary_round prec emax s m e).
Proof.
  unfold binary_round. destruct (shl_align _ _ _) as [mz ez].
  apply binary_round_aux_opp.
Qed.

Lemma binary_normalize_opp (n e : Z) :
  sf_same (binary_normalize prec emax (Z.opp n) e false)
    (SFopp (binary_normalize prec emax n e false)).
Proof.
  destruct n as [|p|p]; cbn [Z.opp binary_normalize].
  - right. exact I.
  - left. apply (binary_round_opp false).
  - left. change (binary_round prec emax true p e)
      with (binary_round prec emax (negb false) p e).
    rewrite binary_round_opp. symmetry. apply SFopp_involutive.
Qed.

Lemma SFmul_comm (x y : spec_float) : SFmul prec emax x y = SFmul prec emax y x.
Proof.
  destruct x as [sx|sx| |sx mx ex], y as [sy|sy| |sy my ey]; cbn [SFmul];
    rewrite ?(xorb_comm sx sy); try reflexivity.
  now rewrite (Pos.mul_comm mx my), (Z.add_comm ex ey).
Qed.

Lemma xorb_negb_right (a b : bool) : xorb a (negb b) = negb (xorb a b).
Proof. now destruct a, b. Qed.

Lemma SFmul_opp_r (x y : spec_float) :
  SFmul prec emax x (SFopp y) = SFopp (SFmul prec emax x y).
Proof.
  destruct x as [sx|sx| |sx mx ex], y as [sy|sy| |sy my ey];
    cbn [SFmul SFopp]; rewrite ?xorb_negb_right; try reflexivity.
  apply binary_round_aux_opp.
Qed.

Lemma SFmul_same_r (x y y' : spec_float) :
  sf_same y y' -> sf_same (SFmul prec emax x y) (SFmul prec emax x y').
Proof.
  intros [->|H]; [now left|].
  destruct y, y'; try contradiction.
  destruct x; cbn [SFmul]; try (now left); right; exact I.
Qed.

Lemma SFsub_swap (x y : spec_float) :
  sf_same (SFsub prec emax y x) (SFopp (SFsub prec emax x y)).
Proof.
  destruct x as [sx|sx| |sx mx ex], y as [sy|sy| |sy my ey];
    cbn [SFsub SFopp];
    try solve [now left
              |destruct sx, sy; cbn; solve [now left|right; exact I]].
  rewrite (Z.min_comm ey ex).
  set (A := cond_Zopp sx _). set (B := cond_Zopp sy _).
  replace (Z.sub B A) with (Z.opp (Z.sub A B)) by lia.
  apply binary_normalize_opp.
Qed.

Lemma cond_Zopp_negb (s : bool) (n : Z) :
  cond_Zopp (negb s) n = Z.opp (cond_Zopp s n).
Proof. destruct s; cbn [negb cond_Zopp]; lia. Qed.

Lemma SFsub_opp (x y : spec_float) :
  sf_same (SFsub prec emax (SFopp x) (SFopp y)) (SFopp (SFsub prec emax x y)).
Proof.
  destruct x as [sx|sx| |sx mx ex], y as [sy|sy| |sy my ey];
    cbn [SFsub SFopp];
    try solve [now left
              |destruct sx, sy; cbn; solve [now left|right; exact I]].
  rewrite !cond_Zopp_negb.
  set (A := cond_Zopp sx _). set (B := cond_Zopp sy _).
  replace (Z.sub (Z.opp A) (Z.opp B)) with (Z.opp (Z.sub A B)) by lia.
  apply binary_normalize_opp.
Qed.

Lemma SFsub_same (x x' y y' : spec_float) :
  sf_same x x' -> sf_same y y' ->
  sf_same (SFsub prec emax x y) (SFsub prec emax x' y').
Proof.
  intros [->|Hx] [->|Hy]; [now left| | |].
  - destruct y, y'; try contradiction.
    destruct x' as [sx| | |]; cbn [SFsub]; try (now left).
    destruct sx, s, s0; cbn; try (now left); right; exact I.
  - destruct x, x'; try contradiction.
    destruct y' as [sy| | |]; cbn [SFsub]; try (now left).
    destruct s, s0, sy; cbn; try (now left); right; exact I.
  - destruct x, x', y, y'; try contradiction. cbn [SFsub].
    destruct s, s0, s1, s2; cbn; try (now left); right; exact I.
Qed.

Lemma xorb_negb_negb (a b : bool) : xorb (negb a) (negb b) = xorb a b.
Proof. now destruct a, b. Qed.

Lemma SFdiv_opp (x y : spec_float) :
  SFdiv prec emax (SFopp x) (SFopp y) = SFdiv prec emax x y.
Proof.
  destruct x as [sx|sx| |sx mx ex], y as [sy|sy| |sy my ey];
    cbn [SFdiv SFopp]; rewrite ?xorb_negb_negb; reflexivity.
Qed.

Lemma SFdiv_same_l (x x' y : spec_float) :
  sf_same x x' -> sf_same (SFdiv prec emax x y) (SFdiv prec emax x' y).
Proof.
  intros [->|H]; [now left|].
  destruct x, x'; try contradiction.
  destruct y; cbn [SFdiv]; try (now left); right; exact I.
Qed.

Lemma SFcompare_same_l (x x' y : spec_float) :
  sf_same x x' -> SFcompare x y = SFcompare x' y.
Proof.
  intros [->|H]; [reflexivity|]. destruct x, x'; try contradiction.
  now destruct y.
Qed.

Lemma SFcompare_same_r (x x' y : spec_float) :
  sf_same x x' -> SFcompare y x = SFcompare y x'.
Proof.
  intros [->|H]; [reflexivity|]. destruct x, x'; try contradiction.
  now destruct y.
Qed.

Lemma SFeqb_zero_opp (x : spec_float) :
  SFeqb (SFopp x) (S754_zero false) = SFeqb x (S754_zero false).
Proof. destruct x as [s|s| |s m e]; try reflexivity; now destruct s. Qed.

Lemma opp_of_nonzero (d d' : spec_float) :
  SFeqb d (S754_zero false) = false -> sf_same d' (SFopp d) -> d' = SFopp d.
Proof.
  intros Hd [->|H]; [reflexivity|].
  destruct d', d; try contradiction. discriminate.
Qed.

End SpecFloat.

Local Open Scope float_scope.

(** C9, amended.  [linesIntersect] gives the same answer when the two
    segments are exchanged, for all binary64 coordinates, infinities
    and NaN included: exchanging the segments negates [denom] and the
    two numerators and exchanges [ua] and [ub], and the rounding of
    every operation is the same up to the sign of a zero. *)
Theorem linesIntersect_symmetric (a1 a2 b1 b2 : Point) :
  linesIntersect a1 a2 b1 b2 = linesIntersect b1 b2 a1 a2.
Proof.
  destruct a1 as [a1x a1y], a2 as [a2x a2y], b1 as [b1x b1y], b2 as [b2x b2y].
  unfold linesIntersect; cbn [fst snd].
  rewrite !FloatAxioms.eqb_spec, !FloatAxioms.leb_spec, !FloatAxioms.div_spec,
    !FloatAxioms.sub_spec, !FloatAxioms.mul_spec, !FloatAxioms.sub_spec.
  change (Prim2SF 0) with (S754_zero false).
  set (one := Prim2SF 1).
  unfold SF64div, SF64sub, SF64mul.
  set (mul := SFmul prec emax). set (sub := SFsub prec emax).
  set (div := SFdiv prec emax).
  set (dax := sub (Prim2SF a2x) (Prim2SF a1x)).
  set (day := sub (Prim2SF a2y) (Prim2SF a1y)).
  set (dbx := sub (Prim2SF b2x) (Prim2SF b1x)).
  set (dby := sub (Prim2SF b2y) (Prim2SF b1y)).
  set (ex := sub (Prim2SF a1x) (Prim2SF b1x)).
  set (ey := sub (Prim2SF a1y) (Prim2SF b1y)).
  set (ex' := sub (Prim2SF b1x) (Prim2SF a1x)).
  set (ey' := sub (Prim2SF b1y) (Prim2SF a1y)).
  assert (Hex : sf_same ex' (SFopp ex)) by apply SFsub_swap.
  assert (Hey : sf_same ey' (SFopp ey)) by apply SFsub_swap.
  set (denom := sub (mul dby dax) (mul dbx day)).
  set (denom' := sub (mul day dbx) (mul dax dby)).
  assert (Hd : sf_same denom' (SFopp denom)).
  { unfold denom', denom, mul.
    rewrite (SFmul_comm prec emax day dbx), (SFmul_comm prec emax dax dby).
    apply SFsub_swap. }
  assert (Hz : SFeqb denom' (S754_zero false) = SFeqb denom (S754_zero false)).
  { unfold SFeqb. rewrite (SFcompare_same_l _ _ _ Hd).
    apply SFeqb_zero_opp. }
  rewrite Hz. destruct (SFeqb denom (S754_zero false)) eqn:Ez; [reflexivity|].
  pose proof (opp_of_nonzero _ _ Ez Hd) as Ed. rewrite Ed.
  assert (Hnum : forall p q,
            sf_same (sub (mul p ey') (mul q ex'))
              (SFopp (sub (mul p ey) (mul q ex)))).
  { intros p q.
    apply (sf_same_trans _ (sub (SFopp (mul p ey)) (SFopp (mul q ex)))).
    - apply SFsub_same.
      + unfold mul. rewrite <- SFmul_opp_r. now apply SFmul_same_r.
      + unfold mul. rewrite <- SFmul_opp_r. now apply SFmul_same_r.
    - apply SFsub_opp. }
  assert (Hq : forall p q,
            sf_same (div (sub (mul p ey') (mul q ex')) (SFopp denom))
              (div (sub (mul p ey) (mul q ex)) denom)).
  { intros p q. unfold div at 2. rewrite <- (SFdiv_opp prec emax _ denom).
    apply SFdiv_same_l, Hnum. }
  unfold SFleb.
  rewrite (SFcompare_same_r _ _ _ (Hq dax day)).
  rewrite (SFcompare_same_l _ _ _ (Hq dax day)).
  rewrite (SFcompare_same_r _ _ _ (Hq dbx dby)).
  rewrite (SFcompare_same_l _ _ _ (Hq dbx dby)).
  fold div.
  set (c1 := match SFcompare (S754_zero false) (div (sub (mul dbx ey) (mul dby ex)) denom) with
             | Some (Lt | Eq) => true | _ => false end).
  set (c2 := match SFcompare (div (sub (mul dbx ey) (mul dby ex)) denom) one with
             | Some (Lt | Eq) => true | _ => false end).
  set (c3 := match SFcompare (S754_zero false) (div (sub (mul dax ey) (mul day ex)) denom) with
             | Some (Lt | Eq) => true | _ => false end).
  set (c4 := match SFcompare (div (sub (mul dax ey) (mul day ex)) denom) one with
             | Some (Lt | Eq) => true | _ => false end).
  now destruct c1, c2, c3, c4.
Qed.

(** Reversing both segments end for end is another matter.  The
    segments below share the end point (0.1, 2.1): one call computes
    [ua = 1.0000000000000002] and answers false, the call with both
    segments reversed computes [ua = ub = -0] and answers true. *)
Lemma linesIntersect_reverse_fails :
  linesIntersect (2.6, 0.6) (0.1, 2.1) (0.5, 1.0) (0.1, 2.1) = false
  /\ linesIntersect (0.1, 2.1) (2.6, 0.6) (0.1, 2.1) (0.5, 1.0) = true
  /\ linesIntersect (2.6, 0.6) (0.1, 2.1) (0.5, 1.0) (0.1, 2.1)
     <> linesIntersect (0.1, 2.1) (2.6, 0.6) (0.1, 2.1) (0.5, 1.0).
Proof.
  split; [vm_compute; reflexivity|].
  split; [vm_compute; reflexivity|].
  vm_compute. discriminate.
Qed.

(** The eraser example of the specification: the diagonals of a
    square cross. *)
Example linesIntersect_diagonals :
  linesIntersect (0, 10) (10, 0) (0, 0) (10, 10) = true.
Proof. vm_compute. reflexivity. Qed.

Example linesIntersect_parallel :
  linesIntersect (0, 0) (1, 1) (0, 1) (1, 2) = false.
Proof. vm_compute. reflexivity. Qed.

End GeometryFacts.

(** ** Whiteboard *)

Module WhiteboardFacts.
Import Whiteboard.

Lemma find_unfold (id : string) (e : Element) :
  find id e = if has_id id e then Some e else getElementById id (children_of e).
Proof.
  destruct e as [t i d cs]. cbn [find children_of].
  destruct (has_id id (Elem t i d cs)); [reflexivity|].
  induction cs as [|c rest IH]; [reflexivity|].
  cbn [getElementById]. destruct (find id c); [reflexivity|exact IH].
Qed.

Lemma replace_in_unfold (id : string) (f : Element -> list Element) (e : Element) :
  replace_in id f e =
  if has_id id e then Some (f e)
  else option_map (fun cs => [Elem (tag_of e) (id_of e) (d_of e) cs])
         (replace_first id f (children_of e)).
Proof.
  destruct e as [t i d cs]. cbn [replace_in children_of tag_of id_of d_of].
  destruct (has_id id (Elem t i d cs)); [reflexivity|]. f_equal.
  induction cs as [|c rest IH]; [reflexivity|].
  cbn [replace_first]. destruct (replace_in id f c); [reflexivity|].
  now rewrite IH.
Qed.

(** A replacement fails exactly when the lookup does. *)
Lemma replace_in_None (id : string) (f : Element -> list Element) (e : Element) :
  replace_in id f e = None <-> find id e = None.
Proof.
  induction e as [t i d cs IH] using Element_nested_ind.
  rewrite replace_in_unfold, find_unfold.
  destruct (has_id id (Elem t i d cs)); [split; discriminate|].
  cbn [children_of]. induction IH as [|c rest Hc _ IHrest]; cbn.
  - tauto.
  - destruct (replace_in id f c) eqn:Ec, (find id c) eqn:Ef; cbn.
    + split; discriminate.
    + apply proj2 in Hc. specialize (Hc eq_refl). discriminate.
    + apply proj1 in Hc. specialize (Hc eq_refl). discriminate.
    + destruct (replace_first id f rest), (getElementById id rest);
        cbn in *; intuition congruence.
Qed.

Lemma replace_first_None (id : string) (f : Element -> list Element)
    (area : list Element) :
  replace_first id f area = None <-> getElementById id area = None.
Proof.
  induction area as [|c rest IH]; cbn; [tauto|].
  pose proof (replace_in_None id f c) as Hc.
  destruct (replace_in id f c), (find id c); cbn.
  - split; discriminate.
  - apply proj2 in Hc. specialize (Hc eq_refl). discriminate.
  - apply proj1 in Hc. specialize (Hc eq_refl). discriminate.
  - destruct (replace_first id f rest), (getElementById id rest);
      cbn in *; intuition congruence.
Qed.

(** The lookup and the replacement at a child of the area that no
    earlier element hides. *)
Lemma getElementById_at (id : string) (before after : list Element) (e : Element) :
  has_id id e = true -> getElementById id before = None ->
  getElementById id (before ++ e :: after) = Some e.
Proof.
  intros He. induction before as [|c rest IH]; cbn; intros Hb.
  - now rewrite find_unfold, He.
  - destruct (find id c); [discriminate|]. auto.
Qed.

Lemma replace_first_at (id : string) (f : Element -> list Element)
    (before after : list Element) (e : Element) :
  has_id id e = true -> getElementById id before = None ->
  replace_first id f (before ++ e :: after) = Some (before ++ f e ++ after).
Proof.
  intros He. induction before as [|c rest IH]; cbn; intros Hb.
  - now rewrite replace_in_unfold, He.
  - destruct (find id c) eqn:Ef; [discriminate|].
    apply (replace_in_None id f) in Ef. rewrite Ef, (IH Hb). reflexivity.
Qed.

Lemma is_child_of_area_at (id : string) (before after : list Element) (e : Element) :
  has_id id e = true -> getElementById id before = None ->
  is_child_of_area id (before ++ e :: after) = true.
Proof.
  intros He. induction before as [|c rest IH]; cbn; intros Hb.
  - now rewrite He.
  - destruct (has_id id c) eqn:Hc; [reflexivity|].
    destruct (find id c); [discriminate|]. auto.
Qed.

Example nested_scene_value :
  nested_scene =
  [Elem TagG "g1" None
     [Elem TagG "g2" None
        [Elem TagPath "a" (Some "M 0 0") []; Elem TagPath "b" (Some "M 1 1") []];
      Elem TagPath "c" (Some "M 2 2") []]].
Proof. reflexivity. Qed.

(** [#ungroup] does not fail only when the element is missing: the
    inner group of [nested_scene] exists, and [ungroup] raises all the
    same, in [removeChild], once the children have been moved. *)
Lemma ungroup_fails_on_existing_group :
  getElementById "g2" nested_scene
  = Some (Elem TagG "g2" None
            [Elem TagPath "a" (Some "M 0 0") []; Elem TagPath "b" (Some "M 1 1") []])
  /\ ungroup "g2" nested_scene
     = NotFoundError
         [Elem TagG "g1" None
            [Elem TagG "g2" None []; Elem TagPath "c" (Some "M 2 2") []];
          Elem TagPath "a" (Some "M 0 0") [];
          Elem TagPath "b" (Some "M 1 1") []].
Proof. split; reflexivity. Qed.

Lemma has_id_without_children (id : string) (e : Element) :
  has_id id (without_children e) = has_id id e.
Proof. now destruct e. Qed.

(** Emptying the first element of an id keeps every element in its
    place: the scene has as many children as before, and the lookup
    finds the same element, without its children. *)
Lemma replace_in_emptied (id : string) (e g : Element) :
  find id e = Some g ->
  exists e', replace_in id (fun x => [without_children x]) e = Some [e']
             /\ find id e' = Some (without_children g).
Proof.
  revert g. induction e as [t i d cs IH] using Element_nested_ind. intros g.
  rewrite find_unfold, replace_in_unfold.
  destruct (has_id id (Elem t i d cs)) eqn:Hid.
  - intros [= <-]. eexists. split; [reflexivity|].
    now rewrite find_unfold, has_id_without_children, Hid.
  - cbn [children_of tag_of id_of d_of]. intros Hg.
    assert (Hcs : exists cs',
               replace_first id (fun x => [without_children x]) cs = Some cs'
               /\ getElementById id cs' = Some (without_children g)).
    { clear Hid. induction IH as [|c rest Hc _ IHrest]; cbn in Hg |- *;
        [discriminate|].
      destruct (find id c) as [x|] eqn:Ef.
      - injection Hg as ->. destruct (Hc g eq_refl) as (c' & -> & Hc').
        eexists. split; [reflexivity|]. cbn. now rewrite Hc'.
      - apply (replace_in_None id (fun x => [without_children x])) in Ef as Er.
        rewrite Er. destruct (IHrest Hg) as (cs' & -> & Hcs').
        eexists. split; [reflexivity|]. cbn. now rewrite Ef. }
    destruct Hcs as (cs' & -> & Hcs'). eexists. split; [reflexivity|].
    rewrite find_unfold. cbn [children_of].
    assert (Hid' : has_id id (Elem t i d cs') = has_id id (Elem t i d cs))
      by reflexivity.
    now rewrite Hid', Hid.
Qed.

Lemma replace_first_emptied (id : string) (area : list Element) (g : Element) :
  getElementById id area = Some g ->
  exists emptied,
    replace_first id (fun x => [without_children x]) area = Some emptied
    /\ length emptied = length area
    /\ getElementById id emptied = Some (without_children g).
Proof.
  induction area as [|c rest IH]; cbn; [discriminate|].
  destruct (find id c) as [x|] eqn:Ef.
  - intros [= ->]. destruct (replace_in_emptied id c g Ef) as (c' & -> & Hc').
    eexists. split; [reflexivity|]. cbn. now rewrite Hc'.
  - intros Hg.
    apply (replace_in_None id (fun x => [without_children x])) in Ef as Er.
    rewrite Er. destruct (IH Hg) as (emptied & -> & Hlen & Hfind).
    eexists. split; [reflexivity|]. cbn. now rewrite Hlen, Ef.
Qed.

Lemma lookup_InArea (id : string) (doc : Page.Document) (g : Element) :
  Page.getElementById id doc = Page.InArea g ->
  getElementById id (Page.area doc) = Some g.
Proof.
  unfold Page.getElementById.
  destruct (Page.carries id (Page.ids_before doc)); [discriminate|].
  destruct (getElementById id (Page.area doc)); [now intros [= ->]|].
  destruct (Page.carries id (Page.ids_after doc)); discriminate.
Qed.

(** C10, amended.  With no element of the given id in the document,
    [#on_remove] and [#on_edit] leave the scene as it is and
    [#ungroup] raises a [TypeError]; [#ungroup] raises a [TypeError]
    in no other case.  When the element is a child of the drawing
    area (and no element before it carries the id), [#ungroup]
    appends its children to the area in order and removes it.  When
    the element is inside the area without being a child of it,
    [#ungroup] raises [NotFoundError] once the children have been
    moved: the scene it leaves is the area with that element emptied,
    in its place, followed by the children. *)
Theorem ungroup_unguarded (id d : string) (doc : Page.Document) :
  (Page.getElementById id doc = Page.NoElement ->
     Page.on_remove id doc = Page.InScene (Ok (Page.area doc))
     /\ Page.on_edit id d doc = Page.InScene (Ok (Page.area doc))
     /\ Page.ungroup id doc = Page.InScene (TypeError (Page.area doc)))
  /\ (forall a, Page.ungroup id doc = Page.InScene (TypeError a) ->
                Page.getElementById id doc = Page.NoElement)
  /\ (forall before t d' cs after,
        id <> "" ->
        Page.carries id (Page.ids_before doc) = false ->
        Page.area doc = before ++ Elem t id d' cs :: after ->
        getElementById id before = None ->
        Page.ungroup id doc = Page.InScene (Ok (before ++ after ++ cs)))
  /\ (forall g,
        Page.getElementById id doc = Page.InArea g ->
        is_child_of_area id (Page.area doc) = false ->
        exists emptied,
          Page.ungroup id doc
          = Page.InScene (NotFoundError (emptied ++ children_of g))
          /\ replace_first id (fun x => [without_children x]) (Page.area doc)
             = Some emptied
          /\ length emptied = length (Page.area doc)
          /\ getElementById id emptied = Some (without_children g)).
Proof.
  split; [|split; [|split]].
  - intros H. unfold Page.on_remove, Page.on_edit, Page.ungroup.
    now rewrite H.
  - intros a. unfold Page.ungroup.
    destruct (Page.getElementById id doc) as [|g|] eqn:E;
      [reflexivity| |discriminate].
    apply lookup_InArea in E. unfold ungroup. rewrite E.
    destruct (is_child_of_area id (Page.area doc)); discriminate.
  - intros before t d' cs after Hid Hout Harea Hb.
    assert (He : has_id id (Elem t id d' cs) = true).
    { unfold has_id. cbn [id_of]. rewrite String.eqb_refl.
      destruct (String.eqb_spec id ""); [contradiction|reflexivity]. }
    unfold Page.ungroup, Page.getElementById. rewrite Hout, Harea.
    rewrite (getElementById_at id before after _ He Hb). f_equal.
    unfold ungroup.
    rewrite (getElementById_at id before after _ He Hb).
    rewrite (is_child_of_area_at id before after _ He Hb).
    rewrite (replace_first_at id _ before after _ He Hb).
    unfold default, from_option, without_children.
    cbn [Datatypes.id children_of tag_of id_of d_of app].
    rewrite <- app_assoc. cbn [app].
    assert (He' : has_id id (Elem t id d' []) = true) by exact He.
    rewrite (replace_first_at id (fun _ => []) before (after ++ cs) _ He' Hb).
    reflexivity.
  - intros g Hg Hchild. unfold Page.ungroup. rewrite Hg.
    apply lookup_InArea in Hg.
    destruct (replace_first_emptied id (Page.area doc) g Hg)
      as (emptied & Hrep & Hlen & Hfind).
    exists emptied. split; [|auto].
    unfold ungroup. rewrite Hg, Hchild, Hrep. reflexivity.
Qed.

(** The theorem on the page of the whiteboard: an id that is absent,
    a group that is a child of the area, and a group inside a group. *)
Lemma ungroup_unguarded_witness :
  let doc := Page.whiteboard_page nested_scene in
  Page.on_remove "zz" doc = Page.InScene (Ok nested_scene)
  /\ Page.ungroup "zz" doc = Page.InScene (TypeError nested_scene)
  /\ Page.ungroup "g1" doc
     = Page.InScene
         (Ok [Elem TagG "g2" None
                [Elem TagPath "a" (Some "M 0 0") [];
                 Elem TagPath "b" (Some "M 1 1") []];
              Elem TagPath "c" (Some "M 2 2") []])
  /\ Page.ungroup "g2" doc
     = Page.InScene
         (NotFoundError
            [Elem TagG "g1" None
               [Elem TagG "g2" None []; Elem TagPath "c" (Some "M 2 2") []];
             Elem TagPath "a" (Some "M 0 0") [];
             Elem TagPath "b" (Some "M 1 1") []]).
Proof.
  cbv zeta.
  destruct (ungroup_unguarded "zz" "" (Page.whiteboard_page nested_scene))
    as (Hzz & _).
  destruct (ungroup_unguarded "g1" "" (Page.whiteboard_page nested_scene))
    as (_ & _ & Hg1 & _).
  destruct (ungroup_unguarded "g2" "" (Page.whiteboard_page nested_scene))
    as (_ & _ & _ & Hg2).
  split; [apply Hzz; reflexivity|].
  split; [apply Hzz; reflexivity|].
  split.
  - apply (Hg1 [] TagG None _ []); [discriminate|reflexivity..].
  - destruct (Hg2 (Elem TagG "g2" None
                     [Elem TagPath "a" (Some "M 0 0") [];
                      Elem TagPath "b" (Some "M 1 1") []]))
      as (emptied & Hu & Hrep & _); [reflexivity..|].
    rewrite Hu. injection Hrep as <-. reflexivity.
Defined.

(** On the page the id of the button ["group"], or of the drawing
    area itself, names an element outside the scene: [#ungroup] then
    has a group to work on and raises no [TypeError]. *)
Example ungroup_of_page_element :
  Page.getElementById "group" (Page.whiteboard_page nested_scene)
  = Page.OutsideArea
  /\ Page.ungroup "group" (Page.whiteboard_page nested_scene) = Page.Elsewhere
  /\ Page.ungroup "drawing-area" (Page.whiteboard_page nested_scene)
     = Page.Elsewhere.
Proof. repeat split. Qed.

End WhiteboardFacts.

(** ** Property tables *)

Module JSMapFacts.
Section WithKey.
Context {K V : Type} `{EqDecision K}.

Lemma get_set_eq (m : list (K * V)) (k : K) (v : V) :
  JSMap.get (JSMap.set m k v) k = Some v.
Proof.
  induction m as [|[k' v'] rest IH]; cbn.
  - destruct (decide (k = k)); congruence.
  - destruct (decide (k' = k)) as [->|Hne]; cbn.
    + destruct (decide (k = k)); congruence.
    + destruct (decide (k' = k)); congruence.
Qed.

Lemma get_set_ne (m : list (K * V)) (k k0 : K) (v : V) :
  k <> k0 -> JSMap.get (JSMap.set m k v) k0 = JSMap.get m k0.
Proof.
  intros Hk. induction m as [|[k' v'] rest IH]; cbn.
  - destruct (decide (k = k0)); congruence.
  - destruct (decide (k' = k)) as [->|Hne]; cbn.
    + destruct (decide (k = k0)); congruence.
    + destruct (decide (k' = k0)); [reflexivity|exact IH].
Qed.

Lemma get_delete_ne (m : list (K * V)) (k k0 : K) :
  k <> k0 -> JSMap.get (JSMap.delete m k) k0 = JSMap.get m k0.
Proof.
  intros Hk. induction m as [|[k' v'] rest IH]; cbn; [reflexivity|].
  destruct (decide (k' = k)) as [->|Hne]; cbn.
  - destruct (decide (k = k0)); congruence.
  - destruct (decide (k' = k0)); [reflexivity|exact IH].
Qed.
End WithKey.
End JSMapFacts.

Module PropsFacts.
Import Props.

Lemma merge_loop_spec (start end_ : Z) (ranges : list Range) (w : bool) :
  merge_loop start end_ ranges w
  = (List.map (merge_one start end_) ranges,
     w || existsb (touches start end_) ranges).
Proof.
  revert w. induction ranges as [|[r0 r1] rest IH]; intros w; cbn.
  - now rewrite orb_false_r.
  - unfold merge_one, touches. cbn [fst snd].
    destruct (r1 =? start); [|destruct (r0 =? end_)]; rewrite IH; cbn;
      rewrite ?orb_true_r; reflexivity.
Qed.

Lemma add_range_spec (start end_ : Z) (ranges : list Range) :
  add_range start end_ ranges
  = List.map (merge_one start end_) ranges
    ++ (if existsb (touches start end_) ranges then [] else [(start, end_)]).
Proof.
  unfold add_range. rewrite merge_loop_spec. cbn.
  destruct (existsb (touches start end_) ranges); [now rewrite app_nil_r|reflexivity].
Qed.

(** With a range ending at [start] and another beginning at [end],
    the code rewrites both, where the rule as worded rewrites the
    first only. *)
Lemma merge_rule_spec_fails :
  let t := [("b", Flagless [(0, 2); (4, 6)])] in
  actual_remove_property 2 4 "b" t = t
  /\ actual_add_property 2 4 "b" FUndefined t
     = [("b", Flagless [(0, 4); (4, 2)])]
  /\ merge_rule_spec 2 4 [(0, 2); (4, 6)] = [(0, 4); (4, 6)]
  /\ actual_add_property 2 4 "b" FUndefined t
     <> [("b", Flagless (merge_rule_spec 2 4 [(0, 2); (4, 6)]))].
Proof. cbv zeta. repeat split; try reflexivity. discriminate. Qed.

(** C5, amended.  When the property is still in the table after
    [start, end) has been cleared, [#actual_add_property] rewrites
    the bucket range by range: a range that ends at [start] gets the
    end [end], any other range that begins at [end] gets the end
    [start], the rest is kept; [[start, end]] is pushed only when no
    range was rewritten.  Other properties are left alone. *)
Theorem actual_add_property_merge (start end_ : Z) (property : string)
    (flag : Flag) (t : PropTable) (prop : PropertyRanges) :
  JSMap.get (actual_remove_property start end_ property t) property = Some prop ->
  JSMap.get (actual_add_property start end_ property flag t) property
  = Some (set_bucket flag prop
            (List.map (merge_one start end_) (bucket flag prop)
             ++ (if existsb (touches start end_) (bucket flag prop)
                 then [] else [(start, end_)])))
  /\ forall other, other <> property ->
       JSMap.get (actual_add_property start end_ property flag t) other
       = JSMap.get (actual_remove_property start end_ property t) other.
Proof.
  intros Hcut. unfold actual_add_property.
  destruct (JSMap.get t property) as [p|] eqn:Hget.
  - rewrite Hcut. split.
    + rewrite JSMapFacts.get_set_eq, add_range_spec. reflexivity.
    + intros other Hne. now rewrite JSMapFacts.get_set_ne.
  - unfold actual_remove_property in Hcut. rewrite Hget in Hcut. congruence.
Qed.

Lemma actual_add_property_merge_witness :
  JSMap.get (actual_add_property 4 6 "b" FUndefined [("b", Flagless [(0, 4)])]) "b"
  = Some (Flagless [(0, 6)]).
Proof.
  apply (actual_add_property_merge 4 6 "b" FUndefined
           [("b", Flagless [(0, 4)])] (Flagless [(0, 4)])).
  reflexivity.
Defined.

End PropsFacts.

(** ** The editor *)

Module EditorFacts.
Import EditorJS.

(** *** Read-only and unconnected editors *)

(** A fresh editor that is not read-only has no user id, and
    [remove] on it is not a no-op: the input is queued and the event
    is sent. *)
Lemma unconnected_remove_is_not_noop :
  userid (new_editor false) = None
  /\ read_only (new_editor false) = false
  /\ remove 0 0 (new_editor false) <> Done (new_editor false)
  /\ builtup_inputs (state_of (remove 0 0 (new_editor false))) = [IRemove 0 0]
  /\ emitted (state_of (remove 0 0 (new_editor false)))
     = [EmitRemoveRegion 0 0 None].
Proof. repeat split; try reflexivity. discriminate. Qed.

(** On the same editor [move_cursor] and [add] raise, with the input
    already queued. *)
Example unconnected_move_cursor_throws :
  exists s, move_cursor 0 (new_editor false) = Throws s
            /\ builtup_inputs s = [ICursor 0].
Proof. eexists. split; reflexivity. Qed.

Example unconnected_add_throws :
  exists s, add "x" 0 (new_editor false) = Throws s
            /\ builtup_inputs s = [IAdd 0 "x"]
            /\ content s = "x".
Proof. eexists. repeat split; reflexivity. Qed.

(** C6, amended.  In a read-only editor [add], [remove], [move_cursor]
    and [toggle_property] return at once: the state, the queue and
    the socket are untouched.  (The methods do not test the user id;
    the keyboard and click handlers of [text.js] test
    [is_initialized()] before they call them.) *)
Theorem read_only_noop (s : Editor) (text property : string)
    (p a b : Z) (flag : Flag) :
  read_only s = true ->
  add text p s = Done s
  /\ remove a b s = Done s
  /\ move_cursor p s = Done s
  /\ toggle_property a b property flag s = Done s.
Proof.
  intros Hro. unfold add, remove, move_cursor, toggle_property.
  rewrite Hro. repeat split.
Qed.

Lemma read_only_noop_witness :
  let s := run [Connected 7 "abc" 0] (new_editor true) in
  add "x" 1 s = Done s
  /\ remove 0 2 s = Done s
  /\ move_cursor 1 s = Done s
  /\ toggle_property 0 2 "b" FUndefined s = Done s.
Proof.
  apply (read_only_noop (run [Connected 7 "abc" 0] (new_editor true))).
  vm_compute; reflexivity.
Defined.

(** In a read-only editor no sequence of calls of the four methods
    changes anything. *)
Lemma read_only_step (a : Action) (s : Editor) :
  read_only s = true -> is_public a = true -> step a s = Done s.
Proof.
  intros Hro Hpub.
  destruct a; try discriminate; cbn [step];
    unfold add, remove, move_cursor, toggle_property; now rewrite Hro.
Qed.

Lemma read_only_run (trace : list Action) (s : Editor) :
  read_only s = true -> forallb is_public trace = true -> run trace s = s.
Proof.
  intros Hro. unfold run. induction trace as [|a rest IH]; cbn; [reflexivity|].
  intros [Ha Hrest]%andb_prop.
  rewrite (read_only_step a s Hro Ha). cbn [state_of]. exact (IH Hrest).
Qed.

(** *** The action of [toggle_property] *)

Lemma filter_nil_Forall {A} (p : A -> bool) (l : list A) :
  List.filter p l = [] <-> Forall (fun x => p x = false) l.
Proof.
  induction l as [|x l IH]; cbn.
  - split; auto.
  - destruct (p x) eqn:E.
    + split; [discriminate|]. intros H. inversion H; congruence.
    + rewrite IH. split; [now constructor|]. intros H. now inversion H.
Qed.

Lemma filter_singleton {A} (p : A -> bool) (l : list A) (r : A) :
  List.filter p l = [r] <->
  exists l1 l2, l = l1 ++ r :: l2 /\ p r = true
                /\ Forall (fun x => p x = false) (l1 ++ l2).
Proof.
  induction l as [|x l IH]; cbn.
  - split; [discriminate|]. intros (l1 & l2 & H & _). now destruct l1.
  - destruct (p x) eqn:E.
    + split.
      * intros H. injection H as -> H. exists [], l. cbn.
        repeat split; [assumption|]. now apply filter_nil_Forall.
      * intros (l1 & l2 & H & Hr & Hall). destruct l1 as [|y l1]; cbn in *.
        -- injection H as -> ->. f_equal. now apply filter_nil_Forall.
        -- injection H as -> ->. inversion Hall; congruence.
    + rewrite IH. split.
      * intros (l1 & l2 & -> & Hr & Hall). exists (x :: l1), l2. cbn.
        repeat split; [assumption|]. now constructor.
      * intros (l1 & l2 & H & Hr & Hall). destruct l1 as [|y l1]; cbn in *.
        -- injection H as -> ->. congruence.
        -- injection H as -> ->. exists l1, l2. repeat split; [assumption|].
           now inversion Hall.
Qed.

Lemma toggle_action_remove (start end_ : Z) (property : string) (flag : Flag)
    (t : PropTable) :
  toggle_action start end_ property flag t = ActRemove
  <-> sole_cover start end_ (inspected property flag t).
Proof.
  unfold toggle_action, inspected, sole_cover.
  destruct (JSMap.get t property) as [prop|].
  - destruct (List.filter (overlaps start end_) (Props.bucket flag prop))
      as [|r [|r' rest]] eqn:F.
    + split; [discriminate|]. intros (l1 & r & l2 & H & Ho & Hc & Hall).
      assert (List.filter (overlaps start end_) (Props.bucket flag prop) = [r])
        by (apply filter_singleton; eauto). congruence.
    + apply filter_singleton in F as (l1 & l2 & H & Ho & Hall).
      destruct (covers start end_ r) eqn:C.
      * split; [|reflexivity]. intros _. exists l1, r, l2. auto.
      * split; [discriminate|]. intros (k1 & r2 & k2 & H2 & Ho2 & Hc2 & Hall2).
        assert (F1 : List.filter (overlaps start end_) (Props.bucket flag prop) = [r])
          by (apply filter_singleton; eauto).
        assert (F2 : List.filter (overlaps start end_) (Props.bucket flag prop) = [r2])
          by (apply filter_singleton; eauto).
        congruence.
    + split; [discriminate|]. intros (l1 & r0 & l2 & H & Ho & Hc & Hall).
      assert (List.filter (overlaps start end_) (Props.bucket flag prop) = [r0])
        by (apply filter_singleton; eauto). congruence.
  - split; [discriminate|]. intros (l1 & r & l2 & H & _). now destruct l1.
Qed.

(** [assert] only ever touches the error count. *)
Lemma assert_fields (b : bool) (s : Editor) :
  live (assert b s) = live s
  /\ shadow (assert b s) = shadow s
  /\ builtup_inputs (assert b s) = builtup_inputs s
  /\ last_mod_id (assert b s) = last_mod_id s
  /\ last_mod_id_dirty (assert b s) = last_mod_id_dirty s
  /\ userid (assert b s) = userid s
  /\ read_only (assert b s) = read_only s
  /\ emitted (assert b s) = emitted s.
Proof. destruct b; repeat split. Qed.

Lemma assert_errors (b : bool) (s : Editor) :
  errors (assert b s) = (errors s + if b then 0 else 1)%nat.
Proof. destruct b; cbn; lia. Qed.

(** A covering range does not make the action [remove] when a second
    range touches the selection.  The two ranges come to touch when
    the character between them is removed. *)
Lemma toggle_adds_despite_cover :
  let s := run [Connected 1 "abcdefgh" 0;
                ToggleProperty 0 4 "b" FUndefined;
                ToggleProperty 5 7 "b" FUndefined;
                Remove 4 5] (new_editor false) in
  properties s = [("b", Flagless [(0, 4); (4, 6)])]
  /\ read_only s = false /\ userid s = Some 1
  /\ covers 2 4 (0, 4) = true
  /\ builtup_inputs (state_of (toggle_property 2 4 "b" FUndefined s))
     = builtup_inputs s ++ [IAddProperty 2 4 "b" FUndefined].
Proof. cbv zeta. by_computation. Qed.

(** C7, amended.  In an editor that is not read-only,
    [toggle_property] removes (queues [remove_property], emits it and
    clears the range locally) when exactly one range of the
    (property, flag) bucket of the live table overlaps or touches
    the selection and that range covers it; in every other case it
    adds. *)
Theorem toggle_property_action (start end_ : Z) (property : string)
    (flag : Flag) (s : Editor) :
  read_only s = false ->
  exists s', toggle_property start end_ property flag s = Done s'
  /\ ((sole_cover start end_ (inspected property flag (properties s))
       /\ builtup_inputs s'
          = builtup_inputs s ++ [IRemoveProperty start end_ property]
       /\ emitted s'
          = emitted s ++ [EmitRemoveProperty start end_ property (last_mod_id s)]
       /\ properties s'
          = Props.actual_remove_property start end_ property (properties s))
      \/ (~ sole_cover start end_ (inspected property flag (properties s))
          /\ builtup_inputs s'
             = builtup_inputs s ++ [IAddProperty start end_ property flag]
          /\ emitted s'
             = emitted s ++ [EmitAddProperty start end_ property flag (last_mod_id s)]
          /\ properties s'
             = Props.actual_add_property start end_ property flag (properties s))).
Proof.
  intros Hro. unfold toggle_property. rewrite Hro.
  eexists. split; [reflexivity|].
  set (s1 := assert (in_bounds start s) s).
  set (s2 := assert (in_bounds end_ s1) s1).
  set (s3 := match JSMap.get (properties s2) property with
             | Some (Flagged _) => assert (negb (is_undefined flag)) s2
             | Some (Flagless _) => assert (is_undefined flag) s2
             | None => s2
             end).
  assert (H3 : live s3 = live s /\ builtup_inputs s3 = builtup_inputs s
               /\ emitted s3 = emitted s /\ last_mod_id s3 = last_mod_id s).
  { assert (H2 : live s2 = live s /\ builtup_inputs s2 = builtup_inputs s
                 /\ emitted s2 = emitted s /\ last_mod_id s2 = last_mod_id s).
    { unfold s2, s1.
      destruct (in_bounds start s), (in_bounds end_ (assert _ s)); repeat split. }
    destruct H2 as (L & Q & E & M). unfold s3.
    destruct (JSMap.get (properties s2) property) as [[rs|m]|];
      [destruct (is_undefined flag)|destruct (negb (is_undefined flag))|];
      cbn; auto. }
  destruct H3 as (L & Q & E & M).
  assert (P : properties s3 = properties s) by (unfold properties; now rewrite L).
  rewrite P.
  destruct (toggle_action start end_ property flag (properties s)) eqn:A.
  - right. split.
    + intros C. apply toggle_action_remove in C. congruence.
    + cbn. unfold properties. rewrite Q, E, M, L. repeat split.
  - left. split.
    + now apply toggle_action_remove.
    + cbn. unfold properties. rewrite Q, E, M, L. repeat split.
Qed.

Lemma toggle_property_action_witness :
  let s := run [Connected 1 "abcdefgh" 0; ToggleProperty 0 4 "b" FUndefined]
             (new_editor false) in
  exists s', toggle_property 1 3 "b" FUndefined s = Done s'
  /\ ((sole_cover 1 3 (inspected "b" FUndefined (properties s))
       /\ builtup_inputs s' = builtup_inputs s ++ [IRemoveProperty 1 3 "b"]
       /\ emitted s'
          = emitted s ++ [EmitRemoveProperty 1 3 "b" (last_mod_id s)]
       /\ properties s'
          = Props.actual_remove_property 1 3 "b" (properties s))
      \/ (~ sole_cover 1 3 (inspected "b" FUndefined (properties s))
          /\ builtup_inputs s'
             = builtup_inputs s ++ [IAddProperty 1 3 "b" FUndefined]
          /\ emitted s'
             = emitted s ++ [EmitAddProperty 1 3 "b" FUndefined (last_mod_id s)]
          /\ properties s'
             = Props.actual_add_property 1 3 "b" FUndefined (properties s))).
Proof.
  apply (toggle_property_action 1 3 "b" FUndefined
           (run [Connected 1 "abcdefgh" 0; ToggleProperty 0 4 "b" FUndefined]
              (new_editor false))).
  vm_compute; reflexivity.
Defined.

(** The selection inside one bold range is un-bolded, splitting the
    range in two. *)
Example toggle_inside_range :
  properties (run [Connected 1 "abcdefgh" 0;
                   ToggleProperty 0 4 "b" FUndefined;
                   ToggleProperty 1 3 "b" FUndefined] (new_editor false))
  = [("b", Flagless [(0, 1); (3, 4)])].
Proof. vm_compute; reflexivity. Qed.

(** *** Echoes *)

(** A cursor echo that does not match the head of the queue is
    noticed (one console error) and the shadow cursor is written all
    the same, after the failed comparison. *)
Lemma cursor_echo_mismatch_still_writes :
  let s := run [Connected 1 "abc" 0; MoveCursor 2] (new_editor false) in
  let s' := state_of (on_cursor_moved 1 1 "Me" 1 0 s) in
  builtup_inputs s = [ICursor 2]
  /\ expects_cursor 1 (ICursor 2) = false
  /\ position <$> server_cursors s !! 1 = Some 0
  /\ errors s = 0%nat /\ errors s' = 1%nat
  /\ position <$> server_cursors s' !! 1 = Some 1
  /\ shadow s' <> shadow s.
Proof.
  cbv zeta. by_computation.
Qed.

(** C8, amended.  When an echo of the local user arrives and the
    queue is not empty, [#on_add_region], [#on_remove_region],
    [#on_add_property] and [#on_remove_property] end in the same
    state whether or not the popped head matches: the event applied
    to the shadow replica, the head popped, the live replica and the
    socket untouched; a mismatch adds one console error and nothing
    else.  [#on_cursor_moved] sets the shadow cursor of the local
    user to the echoed position after the comparison, matched or
    not. *)
Theorem echo_mismatch_only_logs (s : Editor) (uid m : Z) (expect : Input)
    (rest : list Input) :
  userid s = Some uid ->
  builtup_inputs s = expect :: rest ->
  (forall text pos, exists s',
      on_add_region text pos uid m s = Done s'
      /\ live s' = live s
      /\ shadow s' = Replica.actual_add text pos (shadow s)
      /\ builtup_inputs s' = rest
      /\ emitted s' = emitted s
      /\ errors s'
         = (errors s + if expects_add text pos expect then 0 else 1)%nat)
  /\ (forall a b, exists s',
      on_remove_region a b uid m s = Done s'
      /\ live s' = live s
      /\ shadow s' = Replica.actual_remove a b (shadow s)
      /\ builtup_inputs s' = rest
      /\ emitted s' = emitted s
      /\ errors s'
         = (errors s + if expects_remove a b expect then 0 else 1)%nat)
  /\ (forall a b property flag, exists s',
      on_add_property a b property flag uid m s = Done s'
      /\ live s' = live s
      /\ shadow s' = Replica.actual_add_property a b property flag (shadow s)
      /\ builtup_inputs s' = rest
      /\ emitted s' = emitted s
      /\ errors s'
         = (errors s
            + if expects_add_property a b property flag expect then 0 else 1)%nat)
  /\ (forall a b property, exists s',
      on_remove_property a b property uid m s = Done s'
      /\ live s' = live s
      /\ shadow s' = Replica.actual_remove_property a b property (shadow s)
      /\ builtup_inputs s' = rest
      /\ emitted s' = emitted s
      /\ errors s'
         = (errors s
            + if expects_remove_property a b property expect then 0 else 1)%nat)
  /\ (forall pos name rnd c,
      server_cursors s !! uid = Some c ->
      exists s',
        on_cursor_moved pos uid name m rnd s = Done s'
        /\ live s' = live s
        /\ server_cursors s' = <[uid := with_position pos c]> (server_cursors s)
        /\ builtup_inputs s' = rest
        /\ emitted s' = emitted s
        /\ errors s'
           = (errors s + if expects_cursor pos expect then 0 else 1)%nat).
Proof.
  intros Hu Hq.
  split; [|split; [|split; [|split]]].
  - intros text pos. unfold on_add_region. echo_branch Hu Hq.
    eexists. split; [reflexivity|].
    destruct (expects_add text pos expect); cbn; repeat split; lia.
  - intros a b. unfold on_remove_region. echo_branch Hu Hq.
    eexists. split; [reflexivity|].
    destruct (expects_remove a b expect); cbn; repeat split; lia.
  - intros a b property flag. unfold on_add_property. echo_branch Hu Hq.
    eexists. split; [reflexivity|].
    destruct (expects_add_property a b property flag expect); cbn;
      repeat split; lia.
  - intros a b property. unfold on_remove_property. echo_branch Hu Hq.
    eexists. split; [reflexivity|].
    destruct (expects_remove_property a b property expect); cbn;
      repeat split; lia.
  - intros pos name rnd c Hc. unfold on_cursor_moved. echo_branch Hu Hq.
    unfold server_cursors, set_shadow in *.
    destruct (expects_cursor pos expect); cbn; rewrite Hc;
      eexists; (split; [reflexivity|]); cbn; repeat split; lia.
Qed.

Lemma echo_mismatch_only_logs_witness :
  let s := run [Connected 1 "abc" 0; MoveCursor 2] (new_editor false) in
  exists s',
    on_add_region "Q" 0 1 5 s = Done s'
    /\ live s' = live s
    /\ shadow s' = Replica.actual_add "Q" 0 (shadow s)
    /\ builtup_inputs s' = []
    /\ emitted s' = emitted s
    /\ errors s'
       = (errors s + if expects_add "Q" 0 (ICursor 2) then 0 else 1)%nat.
Proof.
  refine (proj1 (echo_mismatch_only_logs
                   (run [Connected 1 "abc" 0; MoveCursor 2] (new_editor false))
                   1 5 (ICursor 2) [] _ _) "Q" 0); vm_compute; reflexivity.
Defined.

(** *** The rebase scenario *)

(** C3.  In a connected editor with live and shadow text ["abc"], an
    empty queue and the local cursor at 3, [add("X", 1)] gives the
    live text ["aXbc"] with [add("X", 1)] pending; the event
    [add_region("YY", 0, other, 17)] of another user then leaves the
    shadow text ["YYabc"], the live text ["YYaXbc"], the pending
    input rebased to [add("X", 3)] and the local cursor at 6. *)
Theorem concurrent_insert_scenario (s : Editor) (me other : Z)
    (c c' : Cursor) :
  read_only s = false ->
  userid s = Some me ->
  other <> me ->
  content s = "abc" ->
  server_content s = "abc" ->
  builtup_inputs s = [] ->
  cursors s !! me = Some c -> position c = 3 ->
  server_cursors s !! me = Some c' -> position c' = 3 ->
  exists s1 s2,
    add "X" 1 s = Done s1
    /\ on_add_region "YY" 0 other 17 s1 = Done s2
    /\ content s1 = "aXbc"
    /\ builtup_inputs s1 = [IAdd 1 "X"]
    /\ server_content s2 = "YYabc"
    /\ content s2 = "YYaXbc"
    /\ builtup_inputs s2 = [IAdd 3 "X"]
    /\ position <$> cursors s2 !! me = Some 6.
Proof.
  destruct s as [[lc lcur lp] [sc scur sp] q lm d u ro em er].
  unfold content, server_content, cursors, server_cursors.
  cbn [read_only userid live shadow builtup_inputs r_content r_cursors].
  intros -> -> Hne -> -> -> Hc Hp Hc' Hp'.
  assert (Hadd : exists s1, add "X" 1 (mkEditor (mkReplica "abc" lcur lp) (mkReplica "abc" scur sp) [] lm d (Some me) false em er) = Done s1
     /\ s1 = mkEditor (Replica.actual_add "X" 1 (mkReplica "abc" lcur lp)) (mkReplica "abc" scur sp) [IAdd 1 "X"] lm false (Some me) false (em ++ [EmitAddRegion "X" 1 lm]) er).
  { unfold add. cbn [read_only].
    change (in_bounds 1 _) with true. cbn [assert].
    unfold get_position, own_cursor, cursors, push, emit, set_dirty, on_replica, set_live, set_inputs.
    cbn [read_only userid live shadow builtup_inputs r_cursors last_mod_id emitted errors last_mod_id_dirty app].
    unfold Replica.actual_add at 1, Replica.shift_all_fixed_points, set_content.
    cbn [r_cursors r_content r_properties].
    rewrite lookup_fmap, Hc. cbn [fmap option_fmap option_map with_position position].
    rewrite Hp. change (JS.len "X") with 1. cbn [Z.gtb Z.compare Z.add Pos.compare Pos.compare_cont Z.eqb Pos.eqb Pos.add].
    change (3 + 1 =? 1) with false. cbn iota.
    eexists. split; reflexivity. }
  destruct Hadd as (s1 & Hadd & Hs1).
  exists s1. rewrite Hadd. subst s1.
  unfold on_add_region.
  unfold on_replica, set_shadow, set_last_mod_id, reset_live, set_live.
  cbn [read_only userid live shadow builtup_inputs last_mod_id emitted errors last_mod_id_dirty].
  rewrite bool_decide_eq_false_2 by congruence.
  cbn [replay rebase_input_add app apply_local].
  change (JS.len "YY") with 2. change (0 <? 1) with true. cbn iota.
  change (1 + 2) with 3.
  unfold on_replica, set_live, set_inputs.
  cbn [read_only userid live shadow builtup_inputs last_mod_id emitted errors last_mod_id_dirty].
  eexists. split; [reflexivity|]. split; [reflexivity|].
  unfold content, server_content, cursors.
  cbn [read_only userid live shadow builtup_inputs last_mod_id emitted errors last_mod_id_dirty].
  split; [reflexivity|]. split; [reflexivity|].
  split; [reflexivity|]. split; [reflexivity|]. split; [reflexivity|].
  unfold Replica.actual_add, Replica.shift_all_fixed_points, set_content.
  cbn [r_cursors r_content r_properties].
  rewrite !lookup_fmap, Hc'.
  cbn [fmap option_fmap option_map with_position position].
  rewrite Hp'. reflexivity.
Qed.

(** The scenario from a fresh editor: connect, put the cursor at 3
    and receive the echo, then insert and receive the remote
    insert. *)
Lemma concurrent_insert_scenario_witness :
  let s := run [Connected 1 "abc" 0; MoveCursor 3; CursorMoved 3 1 "Me" 1 0]
             (new_editor false) in
  exists s1 s2,
    add "X" 1 s = Done s1
    /\ on_add_region "YY" 0 2 17 s1 = Done s2
    /\ content s1 = "aXbc"
    /\ builtup_inputs s1 = [IAdd 1 "X"]
    /\ server_content s2 = "YYabc"
    /\ content s2 = "YYaXbc"
    /\ builtup_inputs s2 = [IAdd 3 "X"]
    /\ position <$> cursors s2 !! 1 = Some 6.
Proof.
  apply (concurrent_insert_scenario
           (run [Connected 1 "abc" 0; MoveCursor 3; CursorMoved 3 1 "Me" 1 0]
              (new_editor false))
           1 2 (mkCursor 3 "Me" (Some "black")) (mkCursor 3 "Me" (Some "black")));
    try (vm_compute; reflexivity).
  discriminate.
Defined.

(** *** The range invariant *)

(** C4.  Bold on [2, 4) and then on [0, 2): the second call finds a
    range that begins where the new one ends and sets its end to
    [start], which leaves the single range [[2, 0]].  The invariant
    holds before the call and fails after it; no assertion fires. *)
Theorem right_touch_breaks_range_invariant :
  let s := run [Connected 1 "abcd" 0; ToggleProperty 2 4 "b" FUndefined]
             (new_editor false) in
  let s' := run [ToggleProperty 0 2 "b" FUndefined] s in
  reachable false s
  /\ properties s = [("b", Flagless [(2, 4)])]
  /\ Props.table_ok (properties s) = true
  /\ properties s' = [("b", Flagless [(2, 0)])]
  /\ Props.table_ok (properties s') = false
  /\ errors s' = 0%nat.
Proof.
  cbv zeta. split; [eexists; reflexivity|]. by_computation.
Qed.

(** The remote event does the same to the shadow table. *)
Example right_touch_breaks_shadow :
  server_properties
    (run [Connected 1 "abcd" 0; AddProperty 2 4 "b" FNull 2 1;
          AddProperty 0 2 "b" FNull 2 2] (new_editor false))
  = [("b", Flagless [(2, 0)])].
Proof. vm_compute; reflexivity. Qed.

(** Bold on [0, 2) and then on [0, 3): clearing [0, 3) deletes the
    property, the new range is pushed to the detached object, and the
    table ends up without bold. *)
Example covering_add_loses_property :
  properties
    (run [Connected 1 "abcd" 0; ToggleProperty 0 2 "b" FUndefined;
          ToggleProperty 0 3 "b" FUndefined] (new_editor false))
  = [].
Proof. vm_compute; reflexivity. Qed.

(** *** Live and shadow replicas *)

(** C1.  The local user inserts "X" at its cursor (which queues the
    insert and the cursor move), a remote [add_property] arrives,
    then the two echoes, each matching the head of the queue.  The
    queue is empty again, and the live table has bold on [1, 2) where
    the shadow table has it on [2, 3): the replay of the remote
    property event did not shift the table by the pending insert. *)
Theorem drained_queue_live_differs_from_shadow :
  let s := run [Connected 1 "abc" 0;
                Add "X" 0;
                AddProperty 1 2 "b" FNull 2 1;
                AddRegion "X" 0 1 2;
                CursorMoved 1 1 "Me" 3 0] (new_editor false) in
  reachable false s
  /\ builtup_inputs s = []
  /\ errors s = 0%nat
  /\ content s = "Xabc" /\ server_content s = "Xabc"
  /\ properties s = [("b", Flagless [(1, 2)])]
  /\ server_properties s = [("b", Flagless [(2, 3)])]
  /\ live s <> shadow s.
Proof.
  cbv zeta. split; [eexists; reflexivity|]. by_computation.
Qed.

(** C2.  With the insert of "X" at 0 pending, the event
    [cursor_moved(2, 2, "bob", 1)] of another user stores 3 in the
    shadow cursor table, the position carried over the pending insert,
    and not the position 2 the server sent.  When the insert is
    echoed the shadow cursor is shifted once more, to 4, while the
    live cursor stays at 3. *)
Theorem remote_cursor_shadow_gets_rebased_position :
  let s := run [Connected 1 "abc" 0; Add "X" 0] (new_editor false) in
  let s1 := state_of (on_cursor_moved 2 2 "bob" 1 0 s) in
  let s2 := run [AddRegion "X" 0 1 2; CursorMoved 1 1 "Me" 3 0] s1 in
  builtup_inputs s = [IAdd 0 "X"; ICursor 1]
  /\ server_content s1 = "abc"
  /\ position <$> server_cursors s1 !! 2 = Some 3
  /\ position <$> cursors s1 !! 2 = Some 3
  /\ builtup_inputs s2 = [] /\ errors s2 = 0%nat
  /\ server_content s2 = "Xabc"
  /\ position <$> server_cursors s2 !! 2 = Some 4
  /\ position <$> cursors s2 !! 2 = Some 3.
Proof. cbv zeta. by_computation. Qed.

(** The replay loops never write to the shadow replica. *)
Lemma apply_local_shadow (input : Input) (s : Editor) :
  shadow (state_of (apply_local input s)) = shadow s.
Proof.
  destruct input; cbn; try reflexivity.
  unfold set_own_position.
  destruct (userid s) as [u|]; [|reflexivity].
  destruct (cursors s !! u); reflexivity.
Qed.

Lemma replay_shadow (rebase : Input -> Input) (todo done : list Input)
    (s : Editor) :
  shadow (state_of (replay rebase done todo s)) = shadow s.
Proof.
  revert done s. induction todo as [|input rest IH]; intros done s; cbn.
  - reflexivity.
  - pose proof (apply_local_shadow (rebase input)
                  (set_inputs (done ++ rebase input :: rest) s)) as H.
    destruct (apply_local (rebase input)
                (set_inputs (done ++ rebase input :: rest) s)) as [s'|s'];
      cbn in H.
    + now rewrite IH.
    + exact H.
Qed.

Lemma replay_properties_shadow (inputs : list Input) (s : Editor) :
  shadow (replay_properties inputs s) = shadow s.
Proof.
  unfold replay_properties. revert s.
  induction inputs as [|input rest IH]; intros s; cbn; [reflexivity|].
  rewrite IH. destruct input; reflexivity.
Qed.

(** The four other handlers apply the event to the shadow replica
    first, whoever sent it and whatever the queue holds. *)
Lemma shadow_applied_first (s : Editor) (uid m : Z) :
  (forall text pos,
      shadow (state_of (on_add_region text pos uid m s))
      = Replica.actual_add text pos (shadow s))
  /\ (forall a b,
      shadow (state_of (on_remove_region a b uid m s))
      = Replica.actual_remove a b (shadow s))
  /\ (forall a b property flag,
      shadow (state_of (on_add_property a b property flag uid m s))
      = Replica.actual_add_property a b property flag (shadow s))
  /\ (forall a b property,
      shadow (state_of (on_remove_property a b property uid m s))
      = Replica.actual_remove_property a b property (shadow s)).
Proof.
  split; [|split; [|split]]; intros.
  - unfold on_add_region. case_bool_decide.
    + unfold shift_expect.
      destruct (builtup_inputs _); cbn; [reflexivity|].
      now rewrite (proj1 (proj2 (assert_fields _ _))).
    + now rewrite replay_shadow.
  - unfold on_remove_region. case_bool_decide.
    + unfold shift_expect.
      destruct (builtup_inputs _); cbn; [reflexivity|].
      now rewrite (proj1 (proj2 (assert_fields _ _))).
    + now rewrite replay_shadow.
  - unfold on_add_property. case_bool_decide.
    + unfold shift_expect.
      destruct (builtup_inputs _); cbn; [reflexivity|].
      now rewrite (proj1 (proj2 (assert_fields _ _))).
    + cbn [state_of]. now rewrite replay_properties_shadow.
  - unfold on_remove_property. case_bool_decide.
    + unfold shift_expect.
      destruct (builtup_inputs _); cbn; [reflexivity|].
      now rewrite (proj1 (proj2 (assert_fields _ _))).
    + cbn [state_of]. now rewrite replay_properties_shadow.
Qed.

(** *** One user alone *)

Lemma insert_with_position (u p : Z) (c : Cursor) (m : gmap Z Cursor) :
  m !! u = Some c -> <[u := with_position p c]> m = alter (with_position p) u m.
Proof.
  intros H. apply map_eq. intros j. destruct (decide (u = j)) as [->|Hne].
  - now rewrite lookup_insert_eq, lookup_alter_eq, H.
  - now rewrite lookup_insert_ne, lookup_alter_ne.
Qed.

Lemma apply_input_keeps_cursor (u : Z) (input : Input) (r : Replica) :
  is_Some (r_cursors r !! u) -> is_Some (r_cursors (apply_input u input r) !! u).
Proof.
  intros [c Hc]. destruct input; cbn.
  - rewrite lookup_fmap, Hc. eexists; reflexivity.
  - rewrite lookup_fmap, Hc. eexists; reflexivity.
  - exists c. exact Hc.
  - exists c. exact Hc.
  - rewrite lookup_alter_eq, Hc. eexists; reflexivity.
Qed.











(** A flag-less toggle of a flagged property does not come back as it
    went: after [toggle_property(0, 1, "p", "x")] and
    [toggle_property(2, 3, "p")] and the two echoes, the second with
    the flag [null], the queue is empty and both echoes matched it
    (the one assertion that failed is [flag !== undefined] of the
    second toggle), yet the live table holds the second range under
    the key [undefined] and the shadow table under [null]. *)
Example flagless_echo_files_under_null :
  let s := run [Connected 1 "abcd" 0;
                ToggleProperty 0 1 "p" (FString "x");
                ToggleProperty 2 3 "p" FUndefined;
                echo_of 1 1 (IAddProperty 0 1 "p" (FString "x"));
                echo_of 1 2 (IAddProperty 2 3 "p" FUndefined)]
             (new_editor false) in
  builtup_inputs s = []
  /\ errors s = 1%nat
  /\ properties s
     = [("p", Flagged [(FString "x", [(0, 1)]); (FUndefined, [(2, 3)])])]
  /\ server_properties s
     = [("p", Flagged [(FString "x", [(0, 1)]); (FNull, [(2, 3)])])].
Proof. cbv zeta. by_computation. Qed.

(** The echo scenario of the specification: "Z" typed into an empty
    document and echoed. *)
Example echo_of_own_insert :
  let s := run [Connected 1 "" 0; Add "Z" 0; AddRegion "Z" 0 1 1;
                CursorMoved 1 1 "Me" 2 0] (new_editor false) in
  builtup_inputs s = []
  /\ content s = "Z" /\ server_content s = "Z"
  /\ position <$> cursors s !! 1 = Some 1
  /\ live s = shadow s.
Proof. cbv zeta. by_computation. Qed.

End EditorFacts.

(** ** Property ranges *)

Module CoverageFacts.
Import Props Coverage.

Lemma cutOverlaps_cons (start end_ r0 r1 : Z) (rest : list Range) :
  cutOverlaps start end_ ((r0, r1) :: rest)
  = (if r0 >=? start then
       if r1 >? end_ then [(Z.max end_ r0, r1)] else []
     else
       if r1 >? end_ then [(r0, start); (end_, r1)]
       else [(r0, Z.min start r1)])
    ++ cutOverlaps start end_ rest.
Proof. reflexivity. Qed.

Lemma cutOverlaps_covered (start end_ p : Z) (rs : list Range) :
  start <= end_ ->
  covered p (cutOverlaps start end_ rs)
  = covered p rs && negb ((start <=? p) && (p <? end_)).
Proof.
  intros Hse. unfold covered.
  induction rs as [|[r0 r1] rest IH]; [reflexivity|].
  rewrite cutOverlaps_cons, existsb_app. unfold Range in *. rewrite IH. cbn [existsb].
  unfold in_range. cbn [fst snd].
  destruct (existsb _ rest); rewrite ?orb_true_r, ?orb_false_r; zcases.
Qed.

(** *** JS maps with unique keys *)

Section UniqueKeys.
Context {K V : Type} `{EqDecision K}.

Lemma get_In (m : list (K * V)) (k : K) (v : V) :
  JSMap.get m k = Some v -> In (k, v) m.
Proof.
  induction m as [|[k' v'] rest IH]; cbn; [discriminate|].
  destruct (decide (k' = k)) as [->|Hne].
  - intros [= ->]. now left.
  - intros H. right. auto.
Qed.

Lemma get_None_keys (m : list (K * V)) (k : K) :
  ~ In k (List.map fst m) -> JSMap.get m k = None.
Proof.
  induction m as [|[k' v'] rest IH]; cbn; [reflexivity|].
  intros Hn. destruct (decide (k' = k)) as [->|Hne]; [tauto|]. apply IH. tauto.
Qed.

Lemma get_delete_eq (m : list (K * V)) (k : K) :
  unique_keys m -> JSMap.get (JSMap.delete m k) k = None.
Proof.
  unfold unique_keys.
  induction m as [|[k' v'] rest IH]; cbn; [reflexivity|].
  intros Hnd. apply List.NoDup_cons_iff in Hnd as [Hn Hnd].
  destruct (decide (k' = k)) as [->|Hne]; cbn.
  - now apply get_None_keys.
  - destruct (decide (k' = k)); [congruence|]. auto.
Qed.

Lemma keys_set_incl (m : list (K * V)) (k x : K) (v : V) :
  In x (List.map fst (JSMap.set m k v)) -> x = k \/ In x (List.map fst m).
Proof.
  induction m as [|[k' v'] rest IH]; cbn.
  - intros [->|[]]. now left.
  - destruct (decide (k' = k)) as [->|Hne]; cbn.
    + intros [->|H]; auto.
    + intros [->|H]; [auto|]. destruct (IH H); auto.
Qed.

Lemma get_Some_keys (m : list (K * V)) (k : K) (v : V) :
  JSMap.get m k = Some v -> In k (List.map fst m).
Proof. intros H. apply get_In in H. now apply (in_map fst) in H. Qed.

Lemma unique_keys_set (m : list (K * V)) (k : K) (v : V) :
  unique_keys m -> unique_keys (JSMap.set m k v).
Proof.
  unfold unique_keys.
  induction m as [|[k' v'] rest IH]; cbn.
  - intros _. repeat constructor. intros [].
  - intros Hnd. apply List.NoDup_cons_iff in Hnd as [Hn Hnd].
    destruct (decide (k' = k)) as [->|Hne]; cbn.
    + apply List.NoDup_cons_iff. auto.
    + apply List.NoDup_cons_iff. split; [|auto].
      intros Hin. apply keys_set_incl in Hin as [->|Hin]; [congruence|tauto].
Qed.

Lemma keys_delete_incl (m : list (K * V)) (k x : K) :
  In x (List.map fst (JSMap.delete m k)) -> In x (List.map fst m).
Proof.
  induction m as [|[k' v'] rest IH]; cbn; [tauto|].
  destruct (decide (k' = k)); cbn; [tauto|]. intros [->|H]; auto.
Qed.

Lemma unique_keys_delete (m : list (K * V)) (k : K) :
  unique_keys m -> unique_keys (JSMap.delete m k).
Proof.
  unfold unique_keys.
  induction m as [|[k' v'] rest IH]; cbn; [auto|].
  intros Hnd. apply List.NoDup_cons_iff in Hnd as [Hn Hnd].
  destruct (decide (k' = k)); cbn; [exact Hnd|].
  apply List.NoDup_cons_iff. split; [|auto].
  intros Hin. apply Hn. eapply keys_delete_incl, Hin.
Qed.

End UniqueKeys.
(** *** Clearing a range *)

Lemma cut_buckets_cons (start end_ : Z) (k : Flag) (rs : list Range)
    (rest : list (Flag * list Range)) :
  cut_buckets start end_ ((k, rs) :: rest)
  = (if nonempty (cutOverlaps start end_ rs)
     then [(k, cutOverlaps start end_ rs)] else [])
    ++ cut_buckets start end_ rest.
Proof. reflexivity. Qed.

Lemma keys_cut_buckets_incl (start end_ : Z) (m : list (Flag * list Range))
    (x : Flag) :
  In x (List.map fst (cut_buckets start end_ m)) -> In x (List.map fst m).
Proof.
  induction m as [|[k rs] rest IH]; [tauto|].
  rewrite cut_buckets_cons. destruct (nonempty _); cbn; intros H.
  - destruct H; auto.
  - auto.
Qed.

Lemma unique_keys_cut_buckets (start end_ : Z) (m : list (Flag * list Range)) :
  unique_keys m -> unique_keys (cut_buckets start end_ m).
Proof.
  unfold unique_keys. induction m as [|[k rs] rest IH]; [auto|].
  rewrite cut_buckets_cons. cbn. intros [Hn Hnd]%List.NoDup_cons_iff.
  destruct (nonempty _); cbn; [|auto].
  apply List.NoDup_cons_iff. split; [|auto].
  intros Hin. apply Hn. eapply keys_cut_buckets_incl, Hin.
Qed.

Lemma nonempty_false {A} (l : list A) : nonempty l = false -> l = [].
Proof. destruct l; [reflexivity|discriminate]. Qed.

Lemma get_cut_buckets (start end_ : Z) (m : list (Flag * list Range))
    (flag : Flag) :
  unique_keys m ->
  default [] (JSMap.get (cut_buckets start end_ m) flag)
  = cutOverlaps start end_ (default [] (JSMap.get m flag)).
Proof.
  unfold unique_keys. induction m as [|[k rs] rest IH]; [reflexivity|].
  rewrite cut_buckets_cons. cbn [List.map fst].
  intros [Hn Hnd]%List.NoDup_cons_iff. cbn [JSMap.get].
  destruct (decide (k = flag)) as [->|Hne].
  - destruct (nonempty _) eqn:E; cbn.
    + destruct (decide (flag = flag)); [reflexivity|congruence].
    + rewrite get_None_keys.
      * cbn. symmetry. now apply nonempty_false.
      * intros Hin. apply Hn. eapply keys_cut_buckets_incl, Hin.
  - destruct (nonempty _); cbn.
    + destruct (decide (k = flag)); [congruence|]. auto.
    + auto.
Qed.

Lemma table_wf_get (t : PropTable) (property : string)
    (m : list (Flag * list Range)) :
  table_wf t -> JSMap.get t property = Some (Flagged m) -> unique_keys m.
Proof.
  intros [_ Hall] Hget. apply get_In in Hget.
  rewrite List.Forall_forall in Hall. exact (Hall _ Hget).
Qed.

Lemma ranges_of_remove (start end_ : Z) (property : string) (flag : Flag)
    (t : PropTable) :
  table_wf t ->
  ranges_of property flag (actual_remove_property start end_ property t)
  = cutOverlaps start end_ (ranges_of property flag t).
Proof.
  intros Hwf. pose proof Hwf as [Hk _].
  unfold ranges_of, actual_remove_property.
  destruct (JSMap.get t property) as [[rs|m]|] eqn:Hget.
  - destruct (nonempty (cutOverlaps start end_ rs)) eqn:E.
    + now rewrite JSMapFacts.get_set_eq.
    + rewrite get_delete_eq by assumption. symmetry. now apply nonempty_false.
  - pose proof (table_wf_get t property m Hwf Hget) as Hm.
    destruct (nonempty (cut_buckets start end_ m)) eqn:E.
    + rewrite JSMapFacts.get_set_eq. cbn [bucket]. now apply get_cut_buckets.
    + rewrite get_delete_eq by assumption. cbn [bucket].
      rewrite <- get_cut_buckets by assumption.
      now rewrite (nonempty_false _ E).
  - now rewrite Hget.
Qed.

(** X1.  [#actual_remove_property(start, end, property)] with
    [start <= end] clears the property, under every flag, from the
    positions of [start, end) and from no other: a position carries
    the property afterwards exactly when it did before and lies
    outside the interval.  Other properties are not touched. *)
Theorem actual_remove_property_clears (start end_ : Z) (property : string)
    (t : PropTable) :
  table_wf t ->
  start <= end_ ->
  (forall flag p,
      covered p (ranges_of property flag
                   (actual_remove_property start end_ property t))
      = covered p (ranges_of property flag t)
        && negb ((start <=? p) && (p <? end_)))
  /\ (forall other, other <> property ->
        JSMap.get (actual_remove_property start end_ property t) other
        = JSMap.get t other).
Proof.
  intros Hwf Hse. split.
  - intros flag p. rewrite ranges_of_remove by assumption.
    now apply cutOverlaps_covered.
  - intros other Hne. unfold actual_remove_property.
    destruct (JSMap.get t property) as [[rs|m]|]; [| |reflexivity];
      destruct (nonempty _);
      now rewrite ?JSMapFacts.get_set_ne, ?JSMapFacts.get_delete_ne.
Qed.

(** The theorem on a bold range cut in the middle, beside an italic
    one. *)
Lemma actual_remove_property_clears_witness :
  let t := [("b", Flagless [(0, 6)]); ("i", Flagless [(1, 3)])] in
  covered 3 (ranges_of "b" FUndefined (actual_remove_property 2 4 "b" t))
  = covered 3 (ranges_of "b" FUndefined t) && negb ((2 <=? 3) && (3 <? 4))
  /\ JSMap.get (actual_remove_property 2 4 "b" t) "i" = JSMap.get t "i".
Proof.
  cbv zeta.
  destruct (actual_remove_property_clears 2 4 "b"
              [("b", Flagless [(0, 6)]); ("i", Flagless [(1, 3)])])
    as [H1 H2].
  - split.
    + unfold unique_keys. cbn [List.map fst].
      repeat (apply List.NoDup_cons; [cbn; intuition discriminate|]).
      apply List.NoDup_nil.
    + repeat constructor.
  - lia.
  - split; [apply H1|apply H2; discriminate].
Defined.

(** *** The range invariant *)

Lemma pairwise_disjoint_app (l1 l2 : list Range) :
  pairwise_disjoint (l1 ++ l2)
  = pairwise_disjoint l1 && pairwise_disjoint l2
    && forallb (fun x => forallb (disjoint x) l2) l1.
Proof.
  induction l1 as [|x l1 IH]; cbn.
  - now rewrite andb_true_r.
  - rewrite forallb_app, IH.
    destruct (forallb (disjoint x) l1), (pairwise_disjoint l1),
      (pairwise_disjoint l2), (forallb (disjoint x) l2); reflexivity.
Qed.

Lemma disjoint_within (r r' x y : Range) :
  disjoint r r' = true -> within r x -> within r' y -> disjoint x y = true.
Proof.
  unfold disjoint, within. intros H [] [].
  rewrite orb_true_iff, !Z.leb_le in *. lia.
Qed.

Lemma cutOverlaps_within (start end_ : Z) (rs : list Range) (y : Range) :
  start <= end_ -> In y (cutOverlaps start end_ rs) ->
  exists r, In r rs /\ within r y /\ (range_ok r = true -> range_ok y = true).
Proof.
  intros Hse. induction rs as [|[r0 r1] rest IH]; [intros []|].
  rewrite cutOverlaps_cons. intros [H|H]%in_app_or.
  - exists (r0, r1). split; [now left|].
    unfold within, range_ok. cbn [fst snd].
    revert H. rewrite Z.geb_leb, Z.gtb_ltb.
    destruct (Z.leb_spec start r0) as [Ha|Ha],
      (Z.ltb_spec end_ r1) as [Hb|Hb]; cbn;
      intros Hy; repeat (destruct Hy as [<-|Hy]); try contradiction; cbn;
      (split; [lia|]); rewrite !Z.ltb_lt; lia.
  - destruct (IH H) as (r & Hin & Hw). exists r. split; [now right|exact Hw].
Qed.

Lemma forallb_In {A} (P : A -> bool) (l : list A) :
  forallb P l = true <-> forall x, In x l -> P x = true.
Proof. apply forallb_forall. Qed.

Lemma cutOverlaps_bucket_ok (start end_ : Z) (rs : list Range) :
  start <= end_ -> bucket_ok rs = true ->
  bucket_ok (cutOverlaps start end_ rs) = true.
Proof.
  intros Hse. unfold bucket_ok. intros [Hok Hdis]%andb_prop.
  apply andb_true_intro. split.
  - apply forallb_In. intros y Hy.
    destruct (cutOverlaps_within start end_ rs y Hse Hy) as (r & Hin & _ & Hr).
    apply Hr. rewrite forallb_In in Hok. auto.
  - clear Hok. induction rs as [|[r0 r1] rest IH]; [reflexivity|].
    cbn [pairwise_disjoint] in Hdis. apply andb_prop in Hdis as [Hhead Hrest].
    rewrite cutOverlaps_cons, pairwise_disjoint_app.
    rewrite (IH Hrest), andb_true_r. apply andb_true_intro. split.
    + rewrite Z.geb_leb, Z.gtb_ltb.
      destruct (Z.leb_spec start r0), (Z.ltb_spec end_ r1); cbn;
        try reflexivity.
      unfold disjoint. cbn. rewrite ?andb_true_r, orb_true_iff, !Z.leb_le. lia.
    + apply forallb_In. intros x Hx. apply forallb_In. intros y Hy.
      destruct (cutOverlaps_within start end_ rest y Hse Hy) as (r' & Hin' & Hw' & _).
      assert (Hx' : In x (cutOverlaps start end_ [(r0, r1)])).
      { rewrite cutOverlaps_cons. cbn [cutOverlaps flat_map].
        now rewrite app_nil_r. }
      destruct (cutOverlaps_within start end_ [(r0, r1)] x Hse Hx')
        as (r & [<-|[]] & Hw & _).
      rewrite forallb_In in Hhead.
      exact (disjoint_within _ _ _ _ (Hhead r' Hin') Hw Hw').
Qed.

Section TableFold.
Context (P : string * PropertyRanges -> bool).

Lemma forallb_set (t : PropTable) (k : string) (v : PropertyRanges) :
  forallb P t = true -> (forall k', P (k', v) = true) ->
  forallb P (JSMap.set t k v) = true.
Proof.
  intros Ht Hv. induction t as [|[k' v'] rest IH]; cbn in *.
  - now rewrite Hv.
  - apply andb_prop in Ht as [H1 H2].
    destruct (decide (k' = k)); cbn; rewrite ?Hv, ?H1; auto.
Qed.

Lemma forallb_delete (t : PropTable) (k : string) :
  forallb P t = true -> forallb P (JSMap.delete t k) = true.
Proof.
  intros Ht. induction t as [|[k' v'] rest IH]; cbn in *; [reflexivity|].
  apply andb_prop in Ht as [H1 H2].
  destruct (decide (k' = k)); cbn; rewrite ?H1; auto.
Qed.

Lemma forallb_get (t : PropTable) (k : string) (v : PropertyRanges) :
  forallb P t = true -> JSMap.get t k = Some v -> P (k, v) = true.
Proof.
  intros Ht Hget. apply get_In in Hget. rewrite forallb_In in Ht. auto.
Qed.
End TableFold.

Lemma cut_buckets_ok (start end_ : Z) (m : list (Flag * list Range)) :
  start <= end_ ->
  forallb (fun kv : Flag * list Range => bucket_ok (snd kv)) m = true ->
  forallb (fun kv : Flag * list Range => bucket_ok (snd kv))
    (cut_buckets start end_ m) = true.
Proof.
  intros Hse. induction m as [|[k rs] rest IH]; [reflexivity|].
  rewrite cut_buckets_cons. cbn. intros [H1 H2]%andb_prop.
  rewrite forallb_app, (IH H2), andb_true_r.
  destruct (nonempty _); cbn; [|reflexivity].
  now rewrite cutOverlaps_bucket_ok.
Qed.

(** X2.  Clearing a range keeps the range invariant: when every bucket
    of the table holds pairwise disjoint ranges with [start < end],
    the same is true after [#actual_remove_property]. *)
Theorem actual_remove_property_keeps_table_ok (start end_ : Z)
    (property : string) (t : PropTable) :
  start <= end_ ->
  table_ok t = true ->
  table_ok (actual_remove_property start end_ property t) = true.
Proof.
  intros Hse Hok. unfold actual_remove_property.
  destruct (JSMap.get t property) as [[rs|m]|] eqn:Hget; [| |exact Hok].
  - pose proof (forallb_get _ t property _ Hok Hget) as Hrs. cbn in Hrs.
    destruct (nonempty _).
    + apply forallb_set; [exact Hok|]. intros k'. cbn.
      now apply cutOverlaps_bucket_ok.
    + now apply forallb_delete.
  - pose proof (forallb_get _ t property _ Hok Hget) as Hm. cbn in Hm.
    destruct (nonempty _).
    + apply forallb_set; [exact Hok|]. intros k'. cbn.
      now apply cut_buckets_ok.
    + now apply forallb_delete.
Qed.

Lemma actual_remove_property_keeps_table_ok_witness :
  table_ok (actual_remove_property 2 4 "b" [("b", Flagless [(0, 3); (3, 6)])])
  = true.
Proof.
  apply (actual_remove_property_keeps_table_ok 2 4 "b"
           [("b", Flagless [(0, 3); (3, 6)])]); [lia|reflexivity].
Defined.

(** *** Shifting and dropping ranges *)

Lemma table_ok_all_buckets (t : PropTable) :
  table_ok t = all_buckets bucket_ok t.
Proof. reflexivity. Qed.

Lemma all_buckets_shift (P Q : list Range -> bool) (f : Z -> Z) (t : PropTable) :
  (forall rs, P rs = true -> Q (shift_ranges f rs) = true) ->
  all_buckets P t = true -> all_buckets Q (shift_table f t) = true.
Proof.
  intros HPQ. unfold all_buckets, shift_table.
  induction t as [|[k [rs|m]] rest IH]; cbn [List.map forallb fst snd];
    [reflexivity| |];
    intros [H1 H2]%andb_prop; rewrite (IH H2), andb_true_r; [auto|].
  clear IH H2. induction m as [|[fl rs] m IH];
    cbn [List.map forallb fst snd] in *; [reflexivity|].
  apply andb_prop in H1 as [H1 H2]. rewrite (HPQ _ H1). auto.
Qed.

Lemma all_buckets_remove_empty (P Q : list Range -> bool) (t : PropTable) :
  (forall rs, P rs = true -> Q (remove_empty rs) = true) ->
  all_buckets P t = true ->
  all_buckets Q (remove_empty_property_ranges t) = true.
Proof.
  intros HPQ. unfold all_buckets, remove_empty_property_ranges.
  induction t as [|[k [rs|m]] rest IH]; cbn [flat_map forallb snd fst];
    [reflexivity| |]; intros [H1 H2]%andb_prop;
    rewrite forallb_app, (IH H2), andb_true_r.
  - destruct (nonempty _); cbn [forallb snd fst]; [|reflexivity].
    now rewrite (HPQ _ H1).
  - destruct (nonempty _); cbn [forallb snd fst]; [|reflexivity].
    rewrite andb_true_r.
    clear IH H2. induction m as [|[fl rs] m IH];
      cbn [flat_map forallb snd fst] in *; [reflexivity|].
    apply andb_prop in H1 as [H1 H2]. rewrite forallb_app, (IH H2), andb_true_r.
    destruct (nonempty _); cbn [forallb snd fst]; [|reflexivity].
    now rewrite (HPQ _ H1).
Qed.

Lemma remove_empty_range_ok (rs : list Range) :
  forallb range_ok (remove_empty rs) = true.
Proof.
  unfold remove_empty, range_ok. induction rs as [|r rs IH]; cbn; [reflexivity|].
  destruct (fst r <? snd r) eqn:E; cbn; [now rewrite E|exact IH].
Qed.

Lemma forallb_filter_weaken {A} (P Q : A -> bool) (l : list A) :
  forallb P l = true -> forallb P (List.filter Q l) = true.
Proof.
  induction l as [|x l IH]; cbn; [auto|]. intros [H1 H2]%andb_prop.
  destruct (Q x); cbn; rewrite ?H1; auto.
Qed.

Lemma remove_empty_disjoint (rs : list Range) :
  pairwise_disjoint rs = true -> pairwise_disjoint (remove_empty rs) = true.
Proof.
  unfold remove_empty. induction rs as [|r rs IH]; cbn; [auto|].
  intros [H1 H2]%andb_prop. destruct (fst r <? snd r); cbn; [|auto].
  rewrite (IH H2), andb_true_r. now apply forallb_filter_weaken.
Qed.

Lemma shift_ranges_disjoint (f : Z -> Z) (rs : list Range) :
  monotone f ->
  pairwise_disjoint rs = true -> pairwise_disjoint (shift_ranges f rs) = true.
Proof.
  intros Hf. unfold shift_ranges.
  induction rs as [|r rs IH]; cbn; [auto|]. intros [H1 H2]%andb_prop.
  rewrite (IH H2), andb_true_r. rewrite forallb_In in *.
  intros y [x [<- Hx]]%in_map_iff. specialize (H1 x Hx).
  unfold disjoint in *. cbn [fst snd].
  rewrite orb_true_iff, !Z.leb_le in *. destruct H1; [left|right]; now apply Hf.
Qed.

Lemma remove_shift_monotone (start end_ : Z) :
  monotone (fun pos => if pos >? start
                       then pos - (Z.min end_ pos - start) else pos).
Proof. intros p q Hpq. rewrite !Z.gtb_ltb. zcases. Qed.

Lemma add_shift_monotone (position : Z) (text : string) :
  monotone (fun pos => if pos >? position then pos + JS.len text else pos).
Proof.
  intros p q Hpq. unfold JS.len. rewrite !Z.gtb_ltb. zcases.
Qed.

Lemma add_shift_range_ok (position : Z) (text : string) (rs : list Range) :
  forallb range_ok rs = true ->
  forallb range_ok
    (shift_ranges (fun pos => if pos >? position
                              then pos + JS.len text else pos) rs) = true.
Proof.
  unfold shift_ranges, range_ok, JS.len.
  induction rs as [|r rs IH]; cbn; [auto|]. intros [H1 H2]%andb_prop.
  rewrite (IH H2), andb_true_r. apply Z.ltb_lt in H1. apply Z.ltb_lt.
  rewrite !Z.gtb_ltb. zcases.
Qed.

(** X3.  [#actual_remove] leaves no empty or inverted range behind,
    whatever the table held before: every range of the resulting
    table has [start < end], and no flag or property is left without
    a range. *)
Theorem actual_remove_drops_empty_ranges (start end_ : Z) (r : Replica) :
  all_ranges range_ok (r_properties (Replica.actual_remove start end_ r)) = true
  /\ no_empty_entry (r_properties (Replica.actual_remove start end_ r)) = true.
Proof.
  unfold Replica.actual_remove. cbn [r_properties set_content set_properties
    Replica.shift_all_fixed_points].
  set (t := shift_table _ _). clearbody t. split.
  - apply (all_buckets_remove_empty (fun _ => true)).
    + intros rs _. apply remove_empty_range_ok.
    + unfold all_buckets. induction t as [|[k [rs|m]] rest IH]; cbn; auto.
      rewrite IH, andb_true_r. clear. induction m as [|kv m IH]; cbn; auto.
  - unfold no_empty_entry, remove_empty_property_ranges.
    induction t as [|[k [rs|m]] rest IH]; cbn [flat_map forallb snd fst];
      [reflexivity| |]; rewrite forallb_app, IH, andb_true_r.
    + destruct (nonempty (remove_empty rs)) eqn:E; cbn [forallb snd fst];
        [|reflexivity].
      now rewrite E.
    + destruct (nonempty _) eqn:E; cbn [forallb snd fst]; [|reflexivity].
      rewrite E, andb_true_r. cbn [andb]. clear.
      induction m as [|[fl rs] m IH]; cbn [flat_map forallb snd fst];
        [reflexivity|].
      rewrite forallb_app, IH, andb_true_r.
      destruct (nonempty (remove_empty rs)) eqn:E; cbn [forallb snd fst];
        [|reflexivity].
      now rewrite E.
Qed.

(** X4.  The two text primitives keep the range invariant: when every
    bucket holds pairwise disjoint ranges with [start < end], so does
    the table after [#actual_add] and after [#actual_remove]. *)
Theorem text_primitives_keep_table_ok (r : Replica) :
  table_ok (r_properties r) = true ->
  (forall text position,
      table_ok (r_properties (Replica.actual_add text position r)) = true)
  /\ (forall start end_,
      table_ok (r_properties (Replica.actual_remove start end_ r)) = true).
Proof.
  intros Hok. split.
  - intros text position. unfold Replica.actual_add.
    cbn [r_properties set_content Replica.shift_all_fixed_points].
    apply (all_buckets_shift bucket_ok); [|exact Hok].
    intros rs [H1 H2]%andb_prop. unfold bucket_ok.
    rewrite add_shift_range_ok by assumption.
    now rewrite shift_ranges_disjoint by (auto using add_shift_monotone).
  - intros start end_. unfold Replica.actual_remove.
    cbn [r_properties set_content set_properties
         Replica.shift_all_fixed_points].
    apply (all_buckets_remove_empty pairwise_disjoint).
    + intros rs H. unfold bucket_ok.
      now rewrite remove_empty_range_ok, remove_empty_disjoint.
    + apply (all_buckets_shift bucket_ok); [|exact Hok].
      intros rs [H1 H2]%andb_prop.
      apply shift_ranges_disjoint; auto using remove_shift_monotone.
Qed.

Lemma text_primitives_keep_table_ok_witness :
  let r := mkReplica "abcdef" ∅ [("b", Flagless [(0, 3); (4, 6)])] in
  table_ok (r_properties (Replica.actual_add "xy" 2 r)) = true
  /\ table_ok (r_properties (Replica.actual_remove 1 5 r)) = true.
Proof.
  cbv zeta.
  destruct (text_primitives_keep_table_ok
              (mkReplica "abcdef" ∅ [("b", Flagless [(0, 3); (4, 6)])]))
    as [H1 H2]; [reflexivity|].
  split; [apply H1|apply H2].
Defined.

End CoverageFacts.

(** ** Strings and replicas *)

Module StringFacts.

Lemma append_cons (c : ascii) (a b : string) :
  (String c a ++ b)%string = String c (a ++ b)%string.
Proof. reflexivity. Qed.

Lemma length_append (a b : string) :
  String.length (a ++ b)%string = (String.length a + String.length b)%nat.
Proof. induction a as [|c a IH]; simpl; [reflexivity|now rewrite IH]. Qed.

Lemma length_substring (n m : nat) (s : string) :
  String.length (String.substring n m s)
  = Nat.min m (String.length s - n).
Proof.
  revert n m. induction s as [|c s IH]; intros [|n] [|m];
    cbn [String.substring String.length]; rewrite ?IH; lia.
Qed.

Lemma substring_all (s : string) :
  String.substring 0 (String.length s) s = s.
Proof. induction s as [|c s IH]; simpl; [reflexivity|now rewrite IH]. Qed.

Lemma substring_split (n : nat) (s : string) :
  (String.substring 0 n s
   ++ String.substring n (String.length s - n) s)%string = s.
Proof.
  revert n. induction s as [|c s IH]; intros [|n]; try reflexivity.
  - rewrite Nat.sub_0_r, substring_all. reflexivity.
  - cbn [String.substring String.length Nat.sub]. rewrite append_cons.
    f_equal. apply IH.
Qed.

Lemma substring_app_l (a b : string) :
  String.substring 0 (String.length a) (a ++ b)%string = a.
Proof.
  induction a as [|c a IH]; simpl.
  - destruct b; reflexivity.
  - now rewrite IH.
Qed.

Lemma substring_app_r (a b : string) (m : nat) :
  String.substring (String.length a) m (a ++ b)%string
  = String.substring 0 m b.
Proof. induction a as [|c a IH]; simpl; [reflexivity|exact IH]. Qed.

Lemma append_assoc (a b c : string) :
  (a ++ (b ++ c))%string = ((a ++ b) ++ c)%string.
Proof.
  induction a as [|x a IH]; [reflexivity|].
  now rewrite !append_cons, IH.
Qed.

End StringFacts.

Module ReplicaFacts.
Import StringFacts Bounds Coverage.

Lemma len_nonneg (s : string) : 0 <= JS.len s.
Proof. unfold JS.len. lia. Qed.

Lemma clamp_bounds (s : string) (p : Z) : 0 <= JS.clamp s p <= JS.len s.
Proof. unfold JS.clamp. pose proof (len_nonneg s). lia. Qed.

Lemma clamp_id (s : string) (p : Z) : 0 <= p <= JS.len s -> JS.clamp s p = p.
Proof. unfold JS.clamp. lia. Qed.

(** [s.substring(0, p)] is the first [clamp p] characters of [s]. *)
Lemma substring_prefix (s : string) (p : Z) :
  JS.substring s 0 p = String.substring 0 (Z.to_nat (JS.clamp s p)) s.
Proof.
  unfold JS.substring. pose proof (clamp_bounds s p).
  replace (JS.clamp s 0) with 0 by (unfold JS.clamp; pose proof (len_nonneg s); lia).
  rewrite Z.min_l, Z.max_r by lia. cbn [Z.to_nat]. now rewrite Z.sub_0_r.
Qed.

(** [s.substring(p)] is [s] without its first [clamp p] characters. *)
Lemma substring_suffix (s : string) (p : Z) :
  JS.substring_from s p
  = String.substring (Z.to_nat (JS.clamp s p))
      (String.length s - Z.to_nat (JS.clamp s p)) s.
Proof.
  unfold JS.substring_from, JS.substring. pose proof (clamp_bounds s p).
  replace (JS.clamp s (JS.len s)) with (JS.len s)
    by (unfold JS.clamp; pose proof (len_nonneg s); lia).
  rewrite Z.min_l, Z.max_r by lia. f_equal. unfold JS.len in *. lia.
Qed.

Lemma prefix_suffix (s : string) (p : Z) :
  (JS.substring s 0 p ++ JS.substring_from s p)%string = s.
Proof. rewrite substring_prefix, substring_suffix. apply substring_split. Qed.

Lemma len_append (a b : string) :
  JS.len (a ++ b)%string = JS.len a + JS.len b.
Proof. unfold JS.len. rewrite length_append. lia. Qed.

Lemma len_prefix (s : string) (p : Z) :
  JS.len (JS.substring s 0 p) = JS.clamp s p.
Proof.
  rewrite substring_prefix. unfold JS.len. rewrite length_substring.
  pose proof (clamp_bounds s p). unfold JS.len in *. lia.
Qed.

Lemma len_suffix (s : string) (p : Z) :
  JS.len (JS.substring_from s p) = JS.len s - JS.clamp s p.
Proof.
  rewrite substring_suffix. unfold JS.len. rewrite length_substring.
  pose proof (clamp_bounds s p). unfold JS.len in *. lia.
Qed.

Lemma len_actual_add (text : string) (position : Z) (r : Replica) :
  JS.len (r_content (Replica.actual_add text position r))
  = JS.len (r_content r) + JS.len text.
Proof.
  unfold Replica.actual_add. cbn [r_content set_content
    Replica.shift_all_fixed_points].
  rewrite !len_append, len_prefix, len_suffix. lia.
Qed.

Lemma len_actual_remove (start end_ : Z) (r : Replica) :
  JS.len (r_content (Replica.actual_remove start end_ r))
  = JS.len (r_content r)
    - (JS.clamp (r_content r) end_ - JS.clamp (r_content r) start).
Proof.
  unfold Replica.actual_remove. cbn [r_content set_content set_properties
    Replica.shift_all_fixed_points].
  rewrite !len_append, len_prefix, len_suffix. lia.
Qed.

Lemma forallb_shift_ranges (P Q : Range -> bool) (f : Z -> Z) (rs : list Range) :
  (forall x, P x = true -> Q (f (fst x), f (snd x)) = true) ->
  forallb P rs = true -> forallb Q (Props.shift_ranges f rs) = true.
Proof.
  intros HPQ. unfold Props.shift_ranges.
  induction rs as [|x rs IH]; cbn [List.map forallb]; [auto|].
  intros [H1 H2]%andb_prop. now rewrite (HPQ _ H1), (IH H2).
Qed.

Lemma in_text_spec (n : Z) (x : Range) :
  in_text n x = true <-> 0 <= fst x <= n /\ 0 <= snd x <= n.
Proof. unfold in_text. rewrite !andb_true_iff, !Z.leb_le. tauto. Qed.

(** X5.  The two text primitives keep positions inside the text.  When
    every cursor and every range end point of a replica lies in
    [0, length], the same holds after [#actual_add], for any argument,
    and after [#actual_remove(start, end)] with
    [0 <= start <= end <= length]. *)
Theorem text_primitives_keep_positions_in_bounds (r : Replica) :
  cursors_in_bounds r ->
  ranges_in_bounds r ->
  (forall text pos,
      cursors_in_bounds (Replica.actual_add text pos r)
      /\ ranges_in_bounds (Replica.actual_add text pos r))
  /\ (forall start end_,
        0 <= start <= end_ -> end_ <= JS.len (r_content r) ->
        cursors_in_bounds (Replica.actual_remove start end_ r)
        /\ ranges_in_bounds (Replica.actual_remove start end_ r)).
Proof.
  intros Hc Hr. split.
  - intros text pos. split.
    + intros u c'. rewrite len_actual_add.
      unfold Replica.actual_add. cbn [r_cursors set_content
        Replica.shift_all_fixed_points].
      intros (c & <- & Hu)%lookup_fmap_Some. cbn [position with_position].
      specialize (Hc u c Hu). pose proof (len_nonneg text).
      destruct (position c >? pos); lia.
    + unfold ranges_in_bounds. rewrite len_actual_add.
      unfold Replica.actual_add. cbn [r_properties set_content
        Replica.shift_all_fixed_points].
      unfold all_ranges. eapply CoverageFacts.all_buckets_shift; [|exact Hr].
      intros rs. apply forallb_shift_ranges. intros x.
      rewrite !in_text_spec. cbn [fst snd]. pose proof (len_nonneg text).
      destruct (fst x >? pos), (snd x >? pos); lia.
  - intros start end_ Hse Hlen.
    assert (Hl : JS.len (r_content (Replica.actual_remove start end_ r))
                 = JS.len (r_content r) - (end_ - start)).
    { rewrite len_actual_remove, !clamp_id by lia. reflexivity. }
    split.
    + intros u c'. rewrite Hl.
      unfold Replica.actual_remove. cbn [r_cursors set_content set_properties
        Replica.shift_all_fixed_points].
      intros (c & <- & Hu)%lookup_fmap_Some. cbn [position with_position].
      specialize (Hc u c Hu). rewrite Z.gtb_ltb.
      destruct (Z.ltb_spec start (position c)); lia.
    + unfold ranges_in_bounds. rewrite Hl.
      unfold Replica.actual_remove. cbn [r_properties set_content
        set_properties Replica.shift_all_fixed_points].
      unfold all_ranges.
      apply (CoverageFacts.all_buckets_remove_empty
               (forallb (in_text (JS.len (r_content r) - (end_ - start))))).
      * intros rs. apply CoverageFacts.forallb_filter_weaken.
      * eapply CoverageFacts.all_buckets_shift; [|exact Hr].
        intros rs. apply forallb_shift_ranges. intros x.
        rewrite !in_text_spec, !Z.gtb_ltb. cbn [fst snd].
        destruct (Z.ltb_spec start (fst x)), (Z.ltb_spec start (snd x)); lia.
Qed.

Lemma text_primitives_keep_positions_in_bounds_witness :
  let r := mkReplica "abcdef" {[1 := mkCursor 2 "ann" None]}
             [("b", Flagless [(0, 3)])] in
  (cursors_in_bounds (Replica.actual_add "xy" 2 r)
   /\ ranges_in_bounds (Replica.actual_add "xy" 2 r))
  /\ (cursors_in_bounds (Replica.actual_remove 1 5 r)
      /\ ranges_in_bounds (Replica.actual_remove 1 5 r)).
Proof.
  cbv zeta.
  destruct (text_primitives_keep_positions_in_bounds
              (mkReplica "abcdef" {[1 := mkCursor 2 "ann" None]}
                 [("b", Flagless [(0, 3)])]))
    as [H1 H2].
  - intros u c H. cbn [r_cursors r_content] in H |- *.
    apply lookup_singleton_Some in H as [<- <-]. unfold JS.len. cbn. lia.
  - reflexivity.
  - split; [apply H1|apply H2; unfold JS.len; cbn; lia].
Defined.

(** *** Insert, then delete what was inserted *)

Lemma shift_ranges_ext (f : Z -> Z) (rs : list Range) :
  (forall x, f x = x) -> Props.shift_ranges f rs = rs.
Proof.
  intros Hf. unfold Props.shift_ranges.
  induction rs as [|[a b] rs IH]; cbn [List.map fst snd]; [reflexivity|].
  now rewrite !Hf, IH.
Qed.

Lemma shift_ranges_compose (f g : Z -> Z) (rs : list Range) :
  Props.shift_ranges g (Props.shift_ranges f rs)
  = Props.shift_ranges (fun x => g (f x)) rs.
Proof.
  unfold Props.shift_ranges.
  induction rs as [|[a b] rs IH]; cbn [List.map fst snd]; [reflexivity|].
  now rewrite IH.
Qed.

Lemma shift_table_round_trip (f g : Z -> Z) (t : PropTable) :
  (forall x, g (f x) = x) ->
  Props.shift_table g (Props.shift_table f t) = t.
Proof.
  intros Hgf. unfold Props.shift_table.
  induction t as [|[k [rs|m]] t IH]; cbn [List.map fst snd]; [reflexivity| |];
    rewrite IH; repeat f_equal.
  - now rewrite shift_ranges_compose, shift_ranges_ext.
  - clear IH. induction m as [|[fl rs] m IH]; cbn [List.map fst snd];
      [reflexivity|].
    now rewrite IH, shift_ranges_compose, shift_ranges_ext.
Qed.

Lemma remove_empty_id (rs : list Range) :
  forallb Props.range_ok rs = true -> Props.remove_empty rs = rs.
Proof.
  unfold Props.remove_empty, Props.range_ok.
  induction rs as [|x rs IH]; cbn [List.filter forallb]; [reflexivity|].
  intros [H1 H2]%andb_prop. now rewrite H1, (IH H2).
Qed.

Lemma remove_empty_property_ranges_id (t : PropTable) :
  all_ranges Props.range_ok t = true -> no_empty_entry t = true ->
  Props.remove_empty_property_ranges t = t.
Proof.
  unfold all_ranges, all_buckets, no_empty_entry,
    Props.remove_empty_property_ranges.
  induction t as [|[k [rs|m]] t IH]; cbn [flat_map forallb fst snd];
    [reflexivity| |]; intros [H1 H2]%andb_prop [H3 H4]%andb_prop;
    rewrite (IH H2 H4).
  - now rewrite (remove_empty_id _ H1), H3.
  - apply andb_prop in H3 as [H3 H5].
    assert (E : flat_map (fun kv : Flag * list Range =>
                  if Props.nonempty (Props.remove_empty (snd kv))
                  then [(fst kv, Props.remove_empty (snd kv))] else []) m = m).
    { clear -H1 H5. induction m as [|[fl rs] m IHm];
        cbn [flat_map forallb fst snd] in *; [reflexivity|].
      apply andb_prop in H1 as [H1 H2]. apply andb_prop in H5 as [H5 H6].
      now rewrite (remove_empty_id _ H1), H5, (IHm H2 H6). }
    now rewrite E, H3.
Qed.

(** X6.  Inserting a text and then deleting the interval it occupies
    gives the replica back: for [0 <= pos <= length] and a table whose
    ranges all have [start < end] and whose entries are not empty,
    [#actual_remove(pos, pos + text.length)] after
    [#actual_add(text, pos)] restores the text, every cursor and every
    range. *)
Theorem actual_add_then_remove_restores (text : string) (pos : Z) (r : Replica) :
  0 <= pos <= JS.len (r_content r) ->
  all_ranges Props.range_ok (r_properties r) = true ->
  no_empty_entry (r_properties r) = true ->
  Replica.actual_remove pos (pos + JS.len text)
    (Replica.actual_add text pos r) = r.
Proof.
  intros Hpos Hok Hne. destruct r as [s cs t]. cbn [r_content r_properties] in *.
  pose proof (len_nonneg text) as Hlen.
  assert (Hround : forall x,
             (fun p => if p >? pos
                       then p - (Z.min (pos + JS.len text) p - pos) else p)
               ((fun p => if p >? pos then p + JS.len text else p) x) = x).
  { intros x. cbn beta. rewrite !Z.gtb_ltb.
    destruct (Z.ltb_spec pos x).
    - destruct (Z.ltb_spec pos (x + JS.len text)); lia.
    - destruct (Z.ltb_spec pos x); lia. }
  unfold Replica.actual_remove, Replica.actual_add,
    Replica.shift_all_fixed_points, set_content, set_properties.
  cbn [r_content r_cursors r_properties]. f_equal.
  - set (A := JS.substring s 0 pos). set (B := JS.substring_from s pos).
    assert (HA : String.length A = Z.to_nat pos).
    { pose proof (len_prefix s pos) as H. rewrite clamp_id in H by lia.
      fold A in H. unfold JS.len in H. lia. }
    assert (HAB : (A ++ B)%string = s) by apply prefix_suffix.
    assert (HL : JS.len (A ++ text ++ B)%string = JS.len s + JS.len text).
    { pose proof (f_equal JS.len HAB) as H. rewrite len_append in H.
      rewrite !len_append. lia. }
    rewrite substring_prefix, substring_suffix, !clamp_id by lia.
    rewrite <- HA at 1. rewrite substring_app_l.
    rewrite append_assoc.
    assert (HAt : String.length (A ++ text)%string
                  = Z.to_nat (pos + JS.len text)).
    { rewrite length_append, HA. unfold JS.len. lia. }
    rewrite <- HAt at 1. rewrite substring_app_r.
    replace (String.length ((A ++ text) ++ B)%string
             - Z.to_nat (pos + JS.len text))%nat with (String.length B)
      by (rewrite length_append, HAt; lia).
    now rewrite substring_all.
  - apply map_eq. intros u. rewrite !lookup_fmap.
    destruct (cs !! u) as [[p n c]|]; [|reflexivity]. cbn.
    unfold with_position. cbn. now rewrite Hround.
  - rewrite shift_table_round_trip by exact Hround.
    now apply remove_empty_property_ranges_id.
Qed.

Lemma actual_add_then_remove_restores_witness :
  let r := mkReplica "abcdef" {[1 := mkCursor 2 "ann" None]}
             [("b", Flagless [(0, 3)])] in
  Replica.actual_remove 2 (2 + JS.len "xy") (Replica.actual_add "xy" 2 r) = r.
Proof.
  apply (actual_add_then_remove_restores "xy" 2
           (mkReplica "abcdef" {[1 := mkCursor 2 "ann" None]}
              [("b", Flagless [(0, 3)])])).
  - unfold JS.len. cbn. lia.
  - reflexivity.
  - reflexivity.
Defined.

End ReplicaFacts.

(** ** Synchronisation *)

Module SyncFacts.
Import EditorJS Sync EditorFacts.

(** X7.  Typing at the cursor: when the local cursor is at [p],
    [add(text, p)] inserts the text and then moves the cursor behind
    it.  Two inputs are queued and two events sent, the insert and the
    cursor move to [p + text.length]. *)
Theorem add_at_cursor_advances (s : Editor) (u : Z) (c : Cursor) (text : string) :
  read_only s = false ->
  userid s = Some u ->
  cursors s !! u = Some c ->
  exists s',
    add text (position c) s = Done s'
    /\ content s'
       = (JS.substring (content s) 0 (position c) ++ text
          ++ JS.substring_from (content s) (position c))%string
    /\ position <$> cursors s' !! u = Some (position c + JS.len text)
    /\ builtup_inputs s'
       = builtup_inputs s
         ++ [IAdd (position c) text; ICursor (position c + JS.len text)]
    /\ emitted s'
       = emitted s
         ++ [EmitAddRegion text (position c) (last_mod_id s);
             EmitCursorMoved (position c + JS.len text) (last_mod_id s)]
    /\ shadow s' = shadow s
    /\ last_mod_id_dirty s' = false.
Proof.
  intros Hro Hu Hc.
  destruct s as [[lc lcur lp] sh q lm d uid ro em er].
  unfold content, cursors in *.
  cbn [read_only userid live shadow r_cursors r_content builtup_inputs
       emitted last_mod_id last_mod_id_dirty] in *.
  subst ro uid.
  unfold add. cbn [read_only].
  match goal with |- context [assert ?b ?s] => destruct b end;
    cbn [assert].
  all: unfold get_position, own_cursor, cursors, push, emit, set_dirty,
         on_replica, set_live, set_inputs;
       cbn [read_only userid live shadow builtup_inputs last_mod_id
            emitted errors last_mod_id_dirty].
  all: unfold Replica.actual_add, Replica.shift_all_fixed_points, set_content;
       cbn [r_cursors r_content r_properties].
  all: rewrite lookup_fmap, Hc;
       cbn [fmap option_fmap option_map with_position position].
  all: rewrite Z.gtb_ltb, Z.ltb_irrefl, Z.eqb_refl.
  all: unfold move_cursor; cbn [read_only].
  all: match goal with |- context [assert ?b ?s] => destruct b end;
       cbn [assert].
  all: unfold set_own_position, push, set_inputs, cursors;
       cbn [read_only userid live shadow builtup_inputs last_mod_id
            emitted errors last_mod_id_dirty r_cursors].
  all: rewrite lookup_fmap, Hc; cbn [fmap option_fmap option_map bind].
  all: eexists; (split; [reflexivity|]).
  all: unfold content, cursors, emit, set_dirty, set_live, set_cursors;
       cbn [read_only userid live shadow builtup_inputs last_mod_id
            emitted errors last_mod_id_dirty r_cursors r_content].
  all: rewrite lookup_insert_eq, <- !app_assoc;
       cbn [fmap option_fmap option_map with_position position app].
  all: rewrite ?Z.gtb_ltb, ?Z.ltb_irrefl; repeat split.
Qed.

(** The theorem on the first key typed after the connection. *)
Lemma add_at_cursor_advances_witness :
  let s := run [Connected 1 "abc" 0] (new_editor false) in
  exists s',
    add "x" 0 s = Done s'
    /\ position <$> cursors s' !! 1 = Some (0 + JS.len "x")
    /\ builtup_inputs s'
       = builtup_inputs s ++ [IAdd 0 "x"; ICursor (0 + JS.len "x")].
Proof.
  cbv zeta.
  destruct (add_at_cursor_advances
              (run [Connected 1 "abc" 0] (new_editor false)) 1
              (mkCursor 0 "Me" (Some "black")) "x")
    as (s' & H1 & _ & H2 & H3 & _); try (vm_compute; reflexivity).
  exists s'. split; [exact H1|]. split; [exact H2|exact H3].
Defined.

(** *** Remote text events *)

Lemma apply_local_live (u : Z) (input : Input) (s : Editor) :
  userid s = Some u -> is_Some (cursors s !! u) ->
  exists s', apply_local input s = Done s'
    /\ live s' = apply_input u input (live s)
    /\ shadow s' = shadow s
    /\ userid s' = userid s /\ read_only s' = read_only s
    /\ builtup_inputs s' = builtup_inputs s.
Proof.
  intros Hu [c Hc].
  destruct input as [a b|p text|a b property flag|a b property|p];
    cbn [apply_local apply_input]; try (eexists; repeat split; reflexivity).
  unfold set_own_position. rewrite Hu, Hc. eexists. split; [reflexivity|].
  unfold cursors in *. cbn [live set_live].
  rewrite (insert_with_position u p c _ Hc). repeat split. exact Hu.
Qed.

Lemma fold_keeps_cursor (u : Z) (inputs : list Input) (r : Replica) :
  is_Some (r_cursors r !! u) ->
  is_Some (r_cursors (fold_left (fun r input => apply_input u input r)
                        inputs r) !! u).
Proof.
  revert r. induction inputs as [|i l IH]; intros r Hr; cbn [fold_left];
    [exact Hr|].
  apply IH. now apply apply_input_keeps_cursor.
Qed.

Lemma replay_live (u : Z) (rebase : Input -> Input) (todo done : list Input)
    (s : Editor) :
  userid s = Some u -> is_Some (cursors s !! u) ->
  exists s', replay rebase done todo s = Done s'
    /\ live s' = fold_left (fun r input => apply_input u input r)
                   (List.map rebase todo) (live s)
    /\ shadow s' = shadow s
    /\ userid s' = userid s /\ read_only s' = read_only s
    /\ builtup_inputs s' = done ++ List.map rebase todo.
Proof.
  revert done s. induction todo as [|input rest IH]; intros done s Hu Hc.
  - cbn. eexists. rewrite app_nil_r. repeat split.
  - cbn [replay List.map fold_left].
    destruct (apply_local_live u (rebase input)
                (set_inputs (done ++ rebase input :: rest) s) Hu Hc)
      as (s1 & -> & Hl & Hs & Hu1 & Hr1 & Hq1).
    cbn [live set_inputs shadow userid read_only] in *.
    assert (Hc1 : is_Some (cursors s1 !! u)).
    { unfold cursors. rewrite Hl. now apply apply_input_keeps_cursor. }
    destruct (IH (done ++ [rebase input]) s1 (eq_trans Hu1 Hu) Hc1)
      as (s2 & -> & Hl2 & Hs2 & Hu2 & Hr2 & Hq2).
    exists s2. split; [reflexivity|].
    rewrite Hl2, Hl, Hs2, Hs, Hu2, Hu1, Hr2, Hr1, Hq2, <- app_assoc.
    repeat split.
Qed.

Lemma remote_add_resyncs (u v m pos : Z) (text : string) (s : Editor) :
  userid s = Some u -> read_only s = false ->
  is_Some (server_cursors s !! u) -> v <> u ->
  in_sync u (state_of (on_add_region text pos v m s))
  /\ shadow (state_of (on_add_region text pos v m s))
     = Replica.actual_add text pos (shadow s)
  /\ builtup_inputs (state_of (on_add_region text pos v m s))
     = List.map (rebase_input_add text pos) (builtup_inputs s).
Proof.
  intros Hu Hro Hsc Hne. unfold on_add_region.
  cbn [userid set_last_mod_id on_replica set_shadow].
  rewrite Hu, bool_decide_eq_false_2 by congruence.
  set (s0 := reset_live _).
  assert (Hc0 : is_Some (cursors s0 !! u)).
  { subst s0. unfold cursors, reset_live. cbn.
    apply (apply_input_keeps_cursor u (IAdd pos text)). exact Hsc. }
  destruct (replay_live u (rebase_input_add text pos) (builtup_inputs s0) []
              s0 Hu Hc0) as (s1 & E & Hl & Hs & Hu1 & Hr1 & Hq).
  rewrite E. cbn [state_of].
  assert (Hsh : shadow s1 = Replica.actual_add text pos (shadow s))
    by (rewrite Hs; reflexivity).
  split; [|split; [exact Hsh|exact Hq]].
  unfold in_sync, cursors, server_cursors.
  rewrite Hu1, Hr1, Hq, Hl, Hsh. repeat split; try assumption.
  now apply fold_keeps_cursor.
Qed.

Lemma remote_remove_resyncs (u v m start end_ : Z) (s : Editor) :
  userid s = Some u -> read_only s = false ->
  is_Some (server_cursors s !! u) -> v <> u ->
  in_sync u (state_of (on_remove_region start end_ v m s))
  /\ shadow (state_of (on_remove_region start end_ v m s))
     = Replica.actual_remove start end_ (shadow s)
  /\ builtup_inputs (state_of (on_remove_region start end_ v m s))
     = List.map (rebase_input_remove start end_) (builtup_inputs s).
Proof.
  intros Hu Hro Hsc Hne. unfold on_remove_region.
  cbn [userid set_last_mod_id on_replica set_shadow].
  rewrite Hu, bool_decide_eq_false_2 by congruence.
  set (s0 := reset_live _).
  assert (Hc0 : is_Some (cursors s0 !! u)).
  { subst s0. unfold cursors, reset_live. cbn.
    apply (apply_input_keeps_cursor u (IRemove start end_)). exact Hsc. }
  destruct (replay_live u (rebase_input_remove start end_)
              (builtup_inputs s0) [] s0 Hu Hc0)
    as (s1 & E & Hl & Hs & Hu1 & Hr1 & Hq).
  rewrite E. cbn [state_of].
  assert (Hsh : shadow s1 = Replica.actual_remove start end_ (shadow s))
    by (rewrite Hs; reflexivity).
  split; [|split; [exact Hsh|exact Hq]].
  unfold in_sync, cursors, server_cursors.
  rewrite Hu1, Hr1, Hq, Hl, Hsh. repeat split; try assumption.
  now apply fold_keeps_cursor.
Qed.

(** X8.  A text event of another user puts the editor in sync, whatever
    the live replica was: after [#on_add_region] or [#on_remove_region]
    from a user other than the local one, the live replica is the new
    shadow replica with the rebased queue applied, and the queue holds
    the rebased inputs in their order. *)
Theorem remote_text_event_resyncs (u v m : Z) (s : Editor) :
  userid s = Some u ->
  read_only s = false ->
  is_Some (server_cursors s !! u) ->
  v <> u ->
  (forall text pos,
      in_sync u (state_of (on_add_region text pos v m s))
      /\ shadow (state_of (on_add_region text pos v m s))
         = Replica.actual_add text pos (shadow s)
      /\ builtup_inputs (state_of (on_add_region text pos v m s))
         = List.map (rebase_input_add text pos) (builtup_inputs s))
  /\ (forall start end_,
        in_sync u (state_of (on_remove_region start end_ v m s))
        /\ shadow (state_of (on_remove_region start end_ v m s))
           = Replica.actual_remove start end_ (shadow s)
        /\ builtup_inputs (state_of (on_remove_region start end_ v m s))
           = List.map (rebase_input_remove start end_) (builtup_inputs s)).
Proof.
  intros Hu Hro Hsc Hne. split; intros.
  - now apply remote_add_resyncs.
  - now apply remote_remove_resyncs.
Qed.

(** The theorem on an editor with one pending insert that receives the
    insert and the deletion of another user. *)
Lemma remote_text_event_resyncs_witness :
  let s := run [Connected 1 "abc" 0; Add "x" 0] (new_editor false) in
  in_sync 1 (state_of (on_add_region "Q" 0 2 5 s))
  /\ in_sync 1 (state_of (on_remove_region 0 1 2 5 s)).
Proof.
  cbv zeta.
  destruct (remote_text_event_resyncs 1 2 5
              (run [Connected 1 "abc" 0; Add "x" 0] (new_editor false)))
    as [H1 H2].
  - vm_compute; reflexivity.
  - vm_compute; reflexivity.
  - eexists. vm_compute. reflexivity.
  - discriminate.
  - split; [apply (H1 "Q" 0)|apply (H2 0 1)].
Defined.





(** *** A remote cursor over the queue *)

(** X10.  The position [#on_cursor_moved] gives a remote cursor is the
    one the queue would give it: carrying a position over the pending
    inputs equals applying the queue to a replica that holds the
    cursor at that position. *)
Theorem rebase_position_is_replay (u v : Z) (inputs : list Input)
    (r : Replica) (c : Cursor) :
  v <> u ->
  r_cursors r !! v = Some c ->
  position <$> r_cursors (fold_left (fun r input => apply_input u input r)
                            inputs r) !! v
  = Some (rebase_position inputs (position c)).
Proof.
  intros Hne. unfold rebase_position. revert r c.
  induction inputs as [|input rest IH]; intros r c Hc; cbn [fold_left].
  - now rewrite Hc.
  - destruct input as [a b|p text|a b property flag|a b property|p];
      cbn [apply_input].
    + apply (IH _ (with_position
                     (if position c >? a
                      then position c - (Z.min b (position c) - a)
                      else position c) c)).
      unfold Replica.actual_remove. cbn [r_cursors set_content set_properties
        Replica.shift_all_fixed_points].
      now rewrite lookup_fmap, Hc.
    + apply (IH _ (with_position
                     (if position c >? p
                      then position c + JS.len text else position c) c)).
      unfold Replica.actual_add. cbn [r_cursors set_content
        Replica.shift_all_fixed_points].
      now rewrite lookup_fmap, Hc.
    + now apply IH.
    + now apply IH.
    + apply IH. cbn [r_cursors set_cursors]. now rewrite lookup_alter_ne.
Qed.

Lemma rebase_position_is_replay_witness :
  let r := mkReplica "abc" {[2 := mkCursor 1 "bob" None]} [] in
  position <$> r_cursors (fold_left (fun r input => apply_input 1 input r)
                            [IAdd 0 "x"] r) !! 2
  = Some (rebase_position [IAdd 0 "x"] 1).
Proof.
  apply (rebase_position_is_replay 1 2 [IAdd 0 "x"]
           (mkReplica "abc" {[2 := mkCursor 1 "bob" None]} [])
           (mkCursor 1 "bob" None)).
  - discriminate.
  - vm_compute. reflexivity.
Defined.

(** *** Modification ids and pings *)

Lemma apply_local_meta (input : Input) (s : Editor) :
  meta (state_of (apply_local input s)) = meta s.
Proof.
  destruct input; cbn; try reflexivity.
  unfold set_own_position.
  destruct (userid s) as [u|]; [|reflexivity].
  destruct (cursors s !! u); reflexivity.
Qed.

Lemma replay_meta (rebase : Input -> Input) (todo done : list Input)
    (s : Editor) :
  meta (state_of (replay rebase done todo s)) = meta s.
Proof.
  revert done s. induction todo as [|input rest IH]; intros done s; cbn.
  - reflexivity.
  - pose proof (apply_local_meta (rebase input)
                  (set_inputs (done ++ rebase input :: rest) s)) as H.
    destruct (apply_local (rebase input)
                (set_inputs (done ++ rebase input :: rest) s)) as [s'|s'];
      cbn in H.
    + now rewrite IH.
    + exact H.
Qed.

Lemma replay_properties_meta (inputs : list Input) (s : Editor) :
  meta (replay_properties inputs s) = meta s.
Proof.
  unfold replay_properties. revert s.
  induction inputs as [|input rest IH]; intros s; cbn; [reflexivity|].
  rewrite IH. destruct input; reflexivity.
Qed.

Lemma assert_meta (b : bool) (s : Editor) : meta (assert b s) = meta s.
Proof. destruct b; reflexivity. Qed.

Lemma inbound_meta (a : Action) (m : Z) (s : Editor) :
  mod_id_of a = Some m ->
  meta (state_of (step a s)) = (Some m, true, emitted s).
Proof.
  destruct a; try discriminate; intros [= ->]; cbn [step].
  - unfold on_cursor_moved. case_bool_decide.
    + unfold shift_expect. destruct (builtup_inputs _); [reflexivity|].
      cbn [builtup_inputs set_last_mod_id].
      destruct (expects_cursor _ _); cbn [assert];
        match goal with |- context [server_cursors ?s !! ?u] =>
          destruct (server_cursors s !! u) end; reflexivity.
    + reflexivity.
  - unfold on_remove_region. case_bool_decide.
    + unfold shift_expect. destruct (builtup_inputs _); [reflexivity|].
      cbn [state_of]. now rewrite assert_meta.
    + now rewrite replay_meta.
  - unfold on_add_region. case_bool_decide.
    + unfold shift_expect. destruct (builtup_inputs _); [reflexivity|].
      cbn [state_of]. now rewrite assert_meta.
    + now rewrite replay_meta.
  - unfold on_remove_property. case_bool_decide.
    + unfold shift_expect. destruct (builtup_inputs _); [reflexivity|].
      cbn [state_of]. now rewrite assert_meta.
    + cbn [state_of]. now rewrite replay_properties_meta.
  - unfold on_add_property. case_bool_decide.
    + unfold shift_expect. destruct (builtup_inputs _); [reflexivity|].
      cbn [state_of]. now rewrite assert_meta.
    + cbn [state_of]. now rewrite replay_properties_meta.
Qed.

(** X11.  Every inbound mutation event records its modification id and
    marks it dirty, whether the handler returns or raises, and sends
    nothing; the next ping then reports exactly that id, once. *)
Theorem inbound_event_records_mod_id (a : Action) (m : Z) (s : Editor) :
  mod_id_of a = Some m ->
  last_mod_id (state_of (step a s)) = Some m
  /\ last_mod_id_dirty (state_of (step a s)) = true
  /\ emitted (state_of (step a s)) = emitted s
  /\ emitted (run [Ping] (state_of (step a s)))
     = emitted s ++ [EmitUpdateLastModId (Some m)]
  /\ emitted (run [Ping; Ping] (state_of (step a s)))
     = emitted s ++ [EmitUpdateLastModId (Some m)].
Proof.
  intros Ha. pose proof (inbound_meta a m s Ha) as H.
  unfold meta in H. injection H as Hm Hd He.
  repeat split; try assumption.
  - cbn. unfold on_ping. rewrite Hd. cbn. now rewrite Hm, He.
  - cbn. unfold on_ping at 2. rewrite Hd. cbn. now rewrite Hm, He.
Qed.

Lemma inbound_event_records_mod_id_witness :
  let s := run [Connected 1 "abc" 0] (new_editor false) in
  last_mod_id (state_of (step (AddRegion "Q" 0 2 5) s)) = Some 5
  /\ last_mod_id_dirty (state_of (step (AddRegion "Q" 0 2 5) s)) = true
  /\ emitted (state_of (step (AddRegion "Q" 0 2 5) s)) = emitted s
  /\ emitted (run [Ping] (state_of (step (AddRegion "Q" 0 2 5) s)))
     = emitted s ++ [EmitUpdateLastModId (Some 5)]
  /\ emitted (run [Ping; Ping] (state_of (step (AddRegion "Q" 0 2 5) s)))
     = emitted s ++ [EmitUpdateLastModId (Some 5)].
Proof.
  apply (inbound_event_records_mod_id (AddRegion "Q" 0 2 5) 5
           (run [Connected 1 "abc" 0] (new_editor false))).
  reflexivity.
Defined.

(** *** Toggling twice *)

Lemma delete_set_fresh {V} (t : list (string * V)) (k : string) (v : V) :
  JSMap.get t k = None -> JSMap.delete (JSMap.set t k v) k = t.
Proof.
  induction t as [|[k' v'] t IH]; cbn.
  - intros _. destruct (decide (k = k)); congruence.
  - destruct (decide (k' = k)); [discriminate|]. intros H. cbn.
    destruct (decide (k' = k)); [congruence|]. now rewrite IH.
Qed.

Lemma properties_assert (b : bool) (s : Editor) :
  properties (assert b s) = properties s.
Proof. destruct b; reflexivity. Qed.

Lemma toggle_property_effect (start end_ : Z) (property : string)
    (flag : Flag) (s : Editor) :
  read_only s = false ->
  exists s', toggle_property start end_ property flag s = Done s'
    /\ read_only s' = false
    /\ content s' = content s
    /\ match toggle_action start end_ property flag (properties s) with
       | ActAdd =>
           properties s'
           = Props.actual_add_property start end_ property flag (properties s)
           /\ builtup_inputs s'
              = builtup_inputs s ++ [IAddProperty start end_ property flag]
       | ActRemove =>
           properties s'
           = Props.actual_remove_property start end_ property (properties s)
           /\ builtup_inputs s'
              = builtup_inputs s ++ [IRemoveProperty start end_ property]
       end.
Proof.
  intros Hro. unfold toggle_property. rewrite Hro.
  eexists. split; [reflexivity|].
  set (s2 := assert (in_bounds end_ _) _).
  assert (H2 : live s2 = live s /\ builtup_inputs s2 = builtup_inputs s
               /\ read_only s2 = false).
  { subst s2. rewrite <- Hro.
    destruct (in_bounds start s), (in_bounds end_ (assert _ s)); repeat split. }
  clearbody s2.
  set (s3 := match JSMap.get (properties s2) property with
             | Some (Flagged _) => _ | Some (Flagless _) => _ | None => _ end).
  assert (H3 : live s3 = live s /\ builtup_inputs s3 = builtup_inputs s
               /\ read_only s3 = false).
  { destruct H2 as (L & Q & R). subst s3.
    destruct (JSMap.get (properties s2) property) as [[rs|m]|];
      [destruct (is_undefined flag)|destruct (negb (is_undefined flag))|];
      cbn; auto. }
  clearbody s3. destruct H3 as (L & Q & R).
  assert (P : properties s3 = properties s) by (unfold properties; now rewrite L).
  rewrite P.
  destruct (toggle_action start end_ property flag (properties s));
    cbn; unfold content, properties; rewrite ?L, ?Q, ?R; repeat split;
    assumption.
Qed.

(** X12.  Toggling a property that the table does not hold, twice on
    the same selection with [start <= end], leaves the property table
    and the text as they were: the first call adds the range, the
    second finds it as the one covering range and removes it.  The
    queue receives the [add_property] and then the [remove_property]
    input. *)
Theorem toggle_twice_restores (start end_ : Z) (property : string)
    (flag : Flag) (s : Editor) :
  read_only s = false ->
  JSMap.get (properties s) property = None ->
  start <= end_ ->
  properties (run [ToggleProperty start end_ property flag;
                   ToggleProperty start end_ property flag] s)
  = properties s
  /\ content (run [ToggleProperty start end_ property flag;
                   ToggleProperty start end_ property flag] s)
     = content s
  /\ builtup_inputs (run [ToggleProperty start end_ property flag;
                          ToggleProperty start end_ property flag] s)
     = builtup_inputs s
       ++ [IAddProperty start end_ property flag;
           IRemoveProperty start end_ property].
Proof.
  intros Hro Hget Hse. cbn [run fold_left step].
  destruct (toggle_property_effect start end_ property flag s Hro)
    as (s1 & -> & Hro1 & Hc1 & H1).
  unfold toggle_action in H1. rewrite Hget in H1. destruct H1 as [Hp1 Hq1].
  cbn [state_of].
  destruct (toggle_property_effect start end_ property flag s1 Hro1)
    as (s2 & -> & Hro2 & Hc2 & H2).
  cbn [state_of]. rewrite Hc2, Hc1.
  assert (Hact : toggle_action start end_ property flag (properties s1)
                 = ActRemove
                 /\ Props.actual_remove_property start end_ property
                      (properties s1) = properties s).
  { rewrite Hp1. unfold Props.actual_add_property. rewrite Hget.
    unfold toggle_action, Props.actual_remove_property.
    assert (Ho : overlaps start end_ (start, end_) = true).
    { unfold overlaps. cbn [fst snd]. rewrite Z.leb_refl. now apply Z.leb_le. }
    assert (Hcv : covers start end_ (start, end_) = true).
    { unfold covers. cbn [fst snd]. rewrite Z.leb_refl, Z.geb_leb, Z.leb_refl.
      reflexivity. }
    assert (Hcut : Props.cutOverlaps start end_ [(start, end_)] = []).
    { unfold Props.cutOverlaps. cbn [flat_map].
      rewrite Z.geb_leb, Z.leb_refl, Z.gtb_ltb, Z.ltb_irrefl. reflexivity. }
    destruct (truthy flag); rewrite JSMapFacts.get_set_eq;
      cbn [Props.bucket JSMap.get List.filter].
    - destruct (decide (flag = flag)); [|congruence].
      unfold default, from_option. cbn [Datatypes.id List.filter].
      rewrite Ho, Hcv.
      unfold Props.cut_buckets. cbn [flat_map snd fst]. rewrite Hcut.
      cbn [Props.nonempty app]. split; [reflexivity|].
      now apply delete_set_fresh.
    - cbn [List.filter]. rewrite Ho, Hcv, Hcut. cbn [Props.nonempty].
      split; [reflexivity|].
      now apply delete_set_fresh. }
  destruct Hact as [Hact Hrem]. rewrite Hact in H2. destruct H2 as [Hp2 Hq2].
  rewrite Hp2, Hrem, Hq2, Hq1, <- app_assoc. repeat split.
Qed.

Lemma toggle_twice_restores_witness :
  let s := run [Connected 1 "abcdef" 0] (new_editor false) in
  properties (run [ToggleProperty 1 3 "b" FUndefined;
                   ToggleProperty 1 3 "b" FUndefined] s)
  = properties s
  /\ content (run [ToggleProperty 1 3 "b" FUndefined;
                   ToggleProperty 1 3 "b" FUndefined] s)
     = content s
  /\ builtup_inputs (run [ToggleProperty 1 3 "b" FUndefined;
                          ToggleProperty 1 3 "b" FUndefined] s)
     = builtup_inputs s
       ++ [IAddProperty 1 3 "b" FUndefined; IRemoveProperty 1 3 "b"].
Proof.
  apply (toggle_twice_restores 1 3 "b" FUndefined
           (run [Connected 1 "abcdef" 0] (new_editor false))).
  - vm_compute; reflexivity.
  - vm_compute; reflexivity.
  - lia.
Defined.

End SyncFacts.

(** ** Navigation *)

Module NavigationFacts.
Import Navigation.

Lemma get_Some (text : string) (n : nat) :
  (n < String.length text)%nat -> exists c, String.get n text = Some c.
Proof.
  revert n. induction text as [|c text IH]; intros n; cbn; [lia|].
  destruct n as [|n]; [eauto|]. intros H. apply IH. lia.
Qed.

Lemma char_at_Some (text : string) (i : Z) :
  0 <= i < JS.len text -> exists c, char_at text i = Some c.
Proof.
  intros H. unfold char_at. destruct (Z.ltb_spec i 0); [lia|].
  apply get_Some. unfold JS.len in H. lia.
Qed.

(** The forward loop from a position of the text. *)
Lemma while_loop_forwards (condition : ascii -> bool) (text : string)
    (fuel : nat) (pos : Z) :
  0 <= pos <= JS.len text ->
  (Z.of_nat fuel > JS.len text - pos) ->
  exists p,
    while_loop fuel condition Forwards text pos = Returned p
    /\ pos <= p <= JS.len text
    /\ (forall i, pos <= i < p -> matches condition text i)
    /\ (p = JS.len text \/ mismatches condition text p).
Proof.
  revert pos. induction fuel as [|fuel IH]; intros pos Hpos Hfuel; [lia|].
  cbn [while_loop end_of delta].
  destruct (Z.eqb_spec pos (JS.len text)) as [->|Hne].
  - exists (JS.len text).
    split; [reflexivity|]. split; [lia|]. split; [intros; lia|now left].
  - destruct (char_at_Some text pos) as [c Hc]; [lia|]. rewrite Hc.
    destruct (condition c) eqn:Hcond.
    + destruct (IH (pos + 1)) as (p & E & Hp & Hall & Hend); [lia|lia|].
      exists p. rewrite E.
      split; [reflexivity|]. split; [lia|]. split; [|exact Hend].
      intros i Hi. destruct (Z.eq_dec i pos) as [->|]; [exists c; auto|].
      apply Hall. lia.
    + exists pos.
      split; [reflexivity|]. split; [lia|]. split; [intros; lia|].
      right. exists c. auto.
Qed.

(** The backward loop from an index of the text. *)
Lemma while_loop_backwards (condition : ascii -> bool) (text : string)
    (fuel : nat) (pos : Z) :
  0 <= pos -> (pos = 0 \/ pos < JS.len text) ->
  (Z.of_nat fuel > pos) ->
  exists p,
    while_loop fuel condition Backwards text pos = Returned p
    /\ 0 <= p <= pos
    /\ (forall i, p < i <= pos -> matches condition text i)
    /\ (p = 0 \/ mismatches condition text p).
Proof.
  revert pos. induction fuel as [|fuel IH]; intros pos Hpos Hlen Hfuel; [lia|].
  cbn [while_loop end_of delta].
  destruct (Z.eqb_spec pos 0) as [->|Hne].
  - exists 0.
    split; [reflexivity|]. split; [lia|]. split; [intros; lia|now left].
  - destruct (char_at_Some text pos) as [c Hc]; [lia|]. rewrite Hc.
    destruct (condition c) eqn:Hcond.
    + destruct (IH (pos + -1)) as (p & E & Hp & Hall & Hend); [lia|lia|lia|].
      exists p. rewrite E.
      split; [reflexivity|]. split; [lia|]. split; [|exact Hend].
      intros i Hi. destruct (Z.eq_dec i pos) as [->|]; [exists c; auto|].
      apply Hall. lia.
    + exists pos.
      split; [reflexivity|]. split; [lia|]. split; [intros; lia|].
      right. exists c. auto.
Qed.

Lemma step_while_forwards (condition : ascii -> bool) (start : Z) (s : Editor) :
  0 <= start <= JS.len (content s) ->
  exists p,
    step_while condition Forwards start s = Returned p
    /\ start <= p <= JS.len (content s)
    /\ (forall i, start <= i < p -> matches condition (content s) i)
    /\ (p = JS.len (content s) \/ mismatches condition (content s) p).
Proof.
  intros H. unfold step_while.
  destruct (while_loop_forwards condition (content s)
              (S (String.length (content s))) start H)
    as (p & -> & Hp); [unfold JS.len in *; lia|].
  exists p. split; [reflexivity|exact Hp].
Qed.

Lemma step_while_backwards (condition : ascii -> bool) (start : Z) (s : Editor) :
  0 <= start <= JS.len (content s) ->
  exists p,
    step_while condition Backwards start s = Returned p
    /\ 0 <= p <= start
    /\ (forall i, Z.max p 1 <= i < start -> matches condition (content s) i)
    /\ (p = 0 \/ mismatches condition (content s) (p - 1)).
Proof.
  intros H. unfold step_while.
  set (pos := if start >? 0 then start - 1 else start).
  assert (Hpos : 0 <= pos /\ (pos = 0 \/ pos < JS.len (content s))
                 /\ (pos = start - 1 \/ (pos = 0 /\ start = 0))).
  { subst pos. rewrite Z.gtb_ltb. destruct (Z.ltb_spec 0 start); lia. }
  destruct Hpos as (H0 & H1 & H2).
  destruct (while_loop_backwards condition (content s)
              (S (String.length (content s))) pos H0 H1)
    as (q & -> & Hq & Hall & Hend); [unfold JS.len in *; lia|].
  cbn [end_of]. destruct (Z.eqb_spec q 0) as [->|Hne]; cbn [negb].
  - exists 0. split; [reflexivity|]. split; [lia|]. split; [|now left].
    intros i Hi. apply Hall. lia.
  - exists (q + 1). split; [reflexivity|]. split; [lia|]. split.
    + intros i Hi. apply Hall. lia.
    + right. replace (q + 1 - 1) with q by lia.
      destruct Hend; [contradiction|assumption].
Qed.

Lemma get_None (text : string) (n : nat) :
  (String.length text <= n)%nat -> String.get n text = None.
Proof.
  revert n. induction text as [|c text IH]; intros n; cbn; [reflexivity|].
  destruct n as [|n]; [lia|]. intros H. apply IH. lia.
Qed.

Lemma char_at_None (text : string) (i : Z) :
  i < 0 \/ JS.len text <= i -> char_at text i = None.
Proof.
  intros H. unfold char_at. destruct (Z.ltb_spec i 0); [reflexivity|].
  apply get_None. unfold JS.len in H. lia.
Qed.

Lemma step_while_has_fuel (condition : ascii -> bool) (direction : Direction)
    (start : Z) (s : Editor) :
  step_while condition direction start s <> OutOfFuel.
Proof.
  assert (Hlen : 0 <= JS.len (content s)) by (unfold JS.len; lia).
  destruct direction.
  - destruct (Z_le_gt_dec 0 start) as [H0|H0];
      [destruct (Z_le_gt_dec start (JS.len (content s))) as [H1|H1]|].
    + destruct (step_while_backwards condition start s) as (p & -> & _);
        [lia|discriminate].
    + unfold step_while. cbn [while_loop end_of].
      rewrite Z.gtb_ltb. destruct (Z.ltb_spec 0 start); [|lia].
      destruct (Z.eqb_spec (start - 1) 0); [discriminate|].
      rewrite char_at_None by lia. discriminate.
    + unfold step_while. cbn [while_loop end_of].
      rewrite Z.gtb_ltb. destruct (Z.ltb_spec 0 start); [lia|].
      destruct (Z.eqb_spec start 0); [lia|].
      rewrite char_at_None by lia. discriminate.
  - destruct (Z_le_gt_dec 0 start) as [H0|H0];
      [destruct (Z_le_gt_dec start (JS.len (content s))) as [H1|H1]|].
    + destruct (step_while_forwards condition start s) as (p & -> & _);
        [lia|discriminate].
    + unfold step_while. cbn [while_loop end_of].
      destruct (Z.eqb_spec start (JS.len (content s))); [lia|].
      rewrite char_at_None by lia. discriminate.
    + unfold step_while. cbn [while_loop end_of].
      destruct (Z.eqb_spec start (JS.len (content s))); [lia|].
      rewrite char_at_None by lia. discriminate.
Qed.

(** X13.  [step_while] from a position of the text returns a position
    of the text and never raises.  Forwards it returns the first
    position at or after [start] whose character does not match, or
    the length.  Backwards it returns the position behind the nearest
    character before [start] that does not match, or 0; the character
    at index 0 is never tested.  The loop always ends within
    [length + 1] rounds, from any start. *)
Theorem step_while_spec (condition : ascii -> bool) (start : Z) (s : Editor) :
  0 <= start <= JS.len (content s) ->
  (exists p,
      step_while condition Forwards start s = Returned p
      /\ start <= p <= JS.len (content s)
      /\ (forall i, start <= i < p -> matches condition (content s) i)
      /\ (p = JS.len (content s) \/ mismatches condition (content s) p))
  /\ (exists p,
        step_while condition Backwards start s = Returned p
        /\ 0 <= p <= start
        /\ (forall i, Z.max p 1 <= i < start ->
                      matches condition (content s) i)
        /\ (p = 0 \/ mismatches condition (content s) (p - 1)))
  /\ (forall direction from,
        step_while condition direction from s <> OutOfFuel).
Proof.
  intros H. split; [|split].
  - now apply step_while_forwards.
  - now apply step_while_backwards.
  - intros. apply step_while_has_fuel.
Qed.

(** The theorem inside the first word of ["ab cd"]. *)
Lemma step_while_spec_witness :
  let s := EditorJS.run [EditorJS.Connected 1 "ab cd" 0] (new_editor false) in
  (exists p, step_while not_space Forwards 1 s = Returned p
             /\ 1 <= p <= JS.len (content s))
  /\ (exists p, step_while not_space Backwards 1 s = Returned p
                /\ 0 <= p <= 1).
Proof.
  cbv zeta.
  destruct (step_while_spec not_space 1
              (EditorJS.run [EditorJS.Connected 1 "ab cd" 0] (new_editor false)))
    as ((p & H1 & H2 & _) & (q & H3 & H4 & _) & _).
  - split; vm_compute; discriminate.
  - split; [exists p|exists q]; split; assumption.
Defined.

Lemma step_in_text (direction : Direction) (start : Z) (s : Editor) :
  0 <= start <= JS.len (content s) ->
  0 <= step direction start s <= JS.len (content s)
  /\ match direction with
     | Forwards => start <= step direction start s
     | Backwards => step direction start s <= start
     end.
Proof.
  intros H. unfold step, end_of, delta.
  destruct direction;
    match goal with |- context [?a =? ?b] => destruct (Z.eqb_spec a b) end; lia.
Qed.

Lemma jump_line_in_text (direction : Direction) (start : Z) (s : Editor) :
  0 <= start <= JS.len (content s) ->
  exists p, jump_line direction start s = Returned p
    /\ 0 <= p <= JS.len (content s)
    /\ match direction with
       | Forwards => start <= p
       | Backwards => p <= start
       end.
Proof.
  intros H. unfold jump_line.
  destruct (step_in_text direction start s H) as [Hs Hd].
  destruct direction.
  - destruct (step_while_backwards not_newline _ s Hs) as (p & -> & Hp & _).
    exists p. split; [reflexivity|]. lia.
  - destruct (step_while_forwards not_newline _ s Hs) as (p & -> & Hp & _).
    exists p. split; [reflexivity|]. lia.
Qed.

Lemma jump_position_in_text (direction : Direction) (start : Z) (s : Editor) :
  0 <= start <= JS.len (content s) ->
  exists p, jump_position direction start s = Returned p
    /\ 0 <= p <= JS.len (content s)
    /\ match direction with
       | Forwards => start <= p
       | Backwards => p <= start
       end.
Proof.
  intros H. unfold jump_position. destruct direction.
  - destruct (step_while_backwards is_space start s H) as (q & -> & Hq & _).
    destruct (step_while_backwards not_space q s) as (p & -> & Hp & _); [lia|].
    exists p. split; [reflexivity|]. lia.
  - destruct (step_while_forwards is_space start s H) as (q & -> & Hq & _).
    destruct (step_while_forwards not_space q s) as (p & -> & Hp & _); [lia|].
    exists p. split; [reflexivity|]. lia.
Qed.

(** X14.  The jumps stay in the text: from a position of the text,
    [step], [jump_line] and [jump_position] return a position of the
    text, not before [start] when going forwards and not after it when
    going backwards; none of them raises. *)
Theorem jumps_stay_in_text (direction : Direction) (start : Z) (s : Editor) :
  0 <= start <= JS.len (content s) ->
  (0 <= step direction start s <= JS.len (content s)
   /\ match direction with
      | Forwards => start <= step direction start s
      | Backwards => step direction start s <= start
      end)
  /\ (exists p, jump_line direction start s = Returned p
        /\ 0 <= p <= JS.len (content s)
        /\ match direction with
           | Forwards => start <= p
           | Backwards => p <= start
           end)
  /\ (exists p, jump_position direction start s = Returned p
        /\ 0 <= p <= JS.len (content s)
        /\ match direction with
           | Forwards => start <= p
           | Backwards => p <= start
           end).
Proof.
  intros H. split; [|split].
  - now apply step_in_text.
  - now apply jump_line_in_text.
  - now apply jump_position_in_text.
Qed.

(** The theorem on the first line of a text of two lines. *)
Lemma jumps_stay_in_text_witness :
  let s := EditorJS.run [EditorJS.Connected 1 (String "a" (String "010" "bc")) 0]
             (new_editor false) in
  (exists p, jump_line Forwards 0 s = Returned p
             /\ 0 <= p <= JS.len (content s) /\ 0 <= p)
  /\ (exists p, jump_position Forwards 0 s = Returned p
                /\ 0 <= p <= JS.len (content s) /\ 0 <= p).
Proof.
  cbv zeta.
  destruct (jumps_stay_in_text Forwards 0
              (EditorJS.run
                 [EditorJS.Connected 1 (String "a" (String "010" "bc")) 0]
                 (new_editor false)))
    as (_ & H1 & H2).
  - split; vm_compute; discriminate.
  - split; assumption.
Defined.

(** The quirk of the backward scan: in ["\nabc"] the start of the line
    that holds position 4 is 1, and [step_while] answers 0. *)
Example step_while_skips_index_zero :
  step_while not_newline Backwards 4
    (EditorJS.run [EditorJS.Connected 1 (String "010"%char "abc") 0]
       (new_editor false))
  = Returned 0.
Proof. vm_compute. reflexivity. Qed.

End NavigationFacts.

(** ** Key handlers *)

Module TextJSFacts.
Import EditorJS Navigation NavigationFacts TextJS.

Lemma move_cursor_in_text (u p : Z) (c : Cursor) (s : Editor) :
  read_only s = false -> userid s = Some u -> cursors s !! u = Some c ->
  0 <= p <= JS.len (content s) ->
  exists s', move_cursor p s = Done s' /\ cursor_moved_to u p s s'.
Proof.
  intros Hro Hu Hc Hp. unfold move_cursor. rewrite Hro.
  assert (Hb : in_bounds p s = true).
  { unfold in_bounds. rewrite Z.geb_leb. apply andb_true_intro.
    split; apply Z.leb_le; lia. }
  rewrite Hb. cbn [assert]. unfold set_own_position, push, set_inputs.
  cbn [userid]. rewrite Hu. unfold cursors in *. cbn [live]. rewrite Hc.
  cbn [bind]. eexists. split; [reflexivity|].
  unfold cursor_moved_to, content, cursors, emit, set_dirty, set_live,
    set_cursors.
  cbn [errors live shadow builtup_inputs emitted last_mod_id r_content
       r_cursors].
  rewrite lookup_insert_eq. repeat split.
Qed.

(** X15.  The navigation keys keep the cursor in the text.  With the
    local cursor at a position of the text, the handler of ArrowLeft,
    ArrowRight, ArrowUp, ArrowDown, Home or End, with or without Ctrl,
    returns, and either changes nothing or moves the cursor once, to a
    position of the text: no assertion of [move_cursor] fails. *)
Theorem navigation_keys_stay_in_text (key : Key) (ctrl : bool)
    (selection : option (Z * Z)) (u : Z) (c : Cursor) (s : Editor) :
  is_navigation key = true ->
  read_only s = false ->
  userid s = Some u ->
  cursors s !! u = Some c ->
  0 <= position c <= JS.len (content s) ->
  exists s',
    keydown key ctrl selection s = Done s'
    /\ (s' = s
        \/ exists p, 0 <= p <= JS.len (content s) /\ cursor_moved_to u p s s').
Proof.
  intros Hkey Hro Hu Hc Hpos.
  assert (Hget : get_position s = Some (position c)).
  { unfold get_position, own_cursor. now rewrite Hro, Hu, Hc. }
  assert (Hmove : forall p, 0 <= p <= JS.len (content s) ->
            exists s', move_cursor p s = Done s'
              /\ (s' = s \/ exists p, 0 <= p <= JS.len (content s)
                                     /\ cursor_moved_to u p s s')).
  { intros p Hp. destruct (move_cursor_in_text u p c s Hro Hu Hc Hp)
      as (s' & E & H). exists s'. split; [exact E|]. right. eauto. }
  assert (Hstay : exists s', Done s = Done s'
            /\ (s' = s \/ exists p, 0 <= p <= JS.len (content s)
                                   /\ cursor_moved_to u p s s')).
  { exists s. auto. }
  unfold keydown, is_initialized. rewrite Hu. cbn [negb].
  destruct key; try discriminate; unfold read_position; rewrite Hget.
  - (* ArrowLeft *)
    rewrite Z.gtb_ltb. destruct (Z.ltb_spec 0 (position c)); [|exact Hstay].
    destruct ctrl; [|apply Hmove; lia].
    destruct (jump_position_in_text Backwards (position c) s Hpos)
      as (q & -> & Hq & _). cbn [with_scan]. apply Hmove. lia.
  - (* ArrowRight *)
    destruct (Z.ltb_spec (position c) (JS.len (content s))); [|exact Hstay].
    destruct ctrl; [|apply Hmove; lia].
    destruct (jump_position_in_text Forwards (position c) s Hpos)
      as (q & -> & Hq & _). cbn [with_scan]. apply Hmove. lia.
  - (* ArrowUp *)
    rewrite Z.gtb_ltb. destruct (Z.ltb_spec 0 (position c)); [|exact Hstay].
    destruct (step_while_backwards not_newline (position c) s Hpos)
      as (a & -> & Ha & _). cbn [with_scan].
    rewrite Z.gtb_ltb. destruct (Z.ltb_spec 0 a); [|exact Hstay].
    destruct (jump_line_in_text Backwards a s) as (b & -> & Hb & _); [lia|].
    cbn [with_scan]. apply Hmove. lia.
  - (* ArrowDown *)
    destruct (Z.ltb_spec (position c) (JS.len (content s))); [|exact Hstay].
    destruct (step_while_forwards not_newline (position c) s Hpos)
      as (e & -> & He & _). cbn [with_scan].
    destruct (step_while_backwards not_newline (position c) s Hpos)
      as (a & -> & Ha & _). cbn [with_scan].
    destruct (jump_line_in_text Forwards e s) as (n & -> & Hn & _); [lia|].
    cbn [with_scan]. apply Hmove. lia.
  - (* Home *)
    rewrite Z.gtb_ltb. destruct (Z.ltb_spec 0 (position c)); [|exact Hstay].
    destruct ctrl; [apply Hmove; lia|].
    destruct (jump_line_in_text Backwards (position c) s Hpos)
      as (q & -> & Hq & _). cbn [with_scan]. apply Hmove. lia.
  - (* End *)
    destruct (Z.ltb_spec (position c) (JS.len (content s))); [|exact Hstay].
    destruct ctrl; [apply Hmove; lia|].
    destruct (jump_line_in_text Forwards (position c) s Hpos)
      as (q & -> & Hq & _). cbn [with_scan]. apply Hmove. lia.
Qed.

(** The theorem on ArrowDown in the first of two lines. *)
Lemma navigation_keys_stay_in_text_witness :
  let s := run [Connected 1 (String "a" (String "010" "bc")) 0; MoveCursor 1]
             (new_editor false) in
  exists s',
    keydown ArrowDown false None s = Done s'
    /\ (s' = s
        \/ exists p, 0 <= p <= JS.len (content s) /\ cursor_moved_to 1 p s s').
Proof.
  apply (navigation_keys_stay_in_text ArrowDown false None 1
           (mkCursor 1 "Me" (Some "black"))
           (run [Connected 1 (String "a" (String "010" "bc")) 0; MoveCursor 1]
              (new_editor false))).
  - reflexivity.
  - vm_compute; reflexivity.
  - vm_compute; reflexivity.
  - vm_compute; reflexivity.
  - split; vm_compute; discriminate.
Defined.

(** X16.  Delete is not guarded at the end of the text, as Backspace
    is at its start.  With the cursor after the last character, the
    Delete key calls [remove(len, len + 1)]: the assertion on the end
    fails, the event is sent and the input queued all the same, and
    the text stays as it is.  Backspace with the cursor at 0 does
    nothing at all. *)
Theorem delete_at_end_of_text (u : Z) (c : Cursor) (s : Editor) :
  read_only s = false ->
  userid s = Some u ->
  cursors s !! u = Some c ->
  (position c = JS.len (content s) ->
   exists s',
     keydown Delete false None s = Done s'
     /\ errors s' = S (errors s)
     /\ content s' = content s
     /\ builtup_inputs s'
        = builtup_inputs s ++ [IRemove (position c) (position c + 1)]
     /\ emitted s'
        = emitted s
          ++ [EmitRemoveRegion (position c) (position c + 1) (last_mod_id s)])
  /\ (position c = 0 -> keydown Backspace false None s = Done s).
Proof.
  intros Hro Hu Hc.
  assert (Hget : get_position s = Some (position c)).
  { unfold get_position, own_cursor. now rewrite Hro, Hu, Hc. }
  unfold keydown, is_initialized. rewrite Hu. cbn [negb].
  unfold read_position. rewrite Hget. split; intros Hp.
  - pose proof (ReplicaFacts.len_nonneg (content s)) as Hlen.
    unfold remove. rewrite Hro.
    assert (H1 : in_bounds (position c) s = true).
    { unfold in_bounds. rewrite Z.geb_leb. apply andb_true_intro.
      split; apply Z.leb_le; lia. }
    assert (H2 : in_bounds (position c + 1) s = false).
    { unfold in_bounds. apply andb_false_intro2. apply Z.leb_gt. lia. }
    rewrite H1. cbn [assert]. rewrite H2. cbn [assert].
    eexists. split; [reflexivity|].
    unfold on_replica, set_dirty, emit, push, set_inputs, set_live, content.
    cbn [errors live shadow builtup_inputs emitted last_mod_id].
    repeat split.
    unfold Replica.actual_remove.
    cbn [r_content set_content set_properties Replica.shift_all_fixed_points].
    unfold content in Hp. rewrite Hp.
    rewrite ReplicaFacts.substring_prefix, ReplicaFacts.substring_suffix.
    replace (JS.clamp (r_content (live s)) (JS.len (r_content (live s)) + 1))
      with (JS.clamp (r_content (live s)) (JS.len (r_content (live s))))
      by (unfold JS.clamp; lia).
    apply StringFacts.substring_split.
  - rewrite Hp. reflexivity.
Qed.

(** The theorem with the cursor behind ["abc"]. *)
Lemma delete_at_end_of_text_witness :
  let s := run [Connected 1 "abc" 0; MoveCursor 3] (new_editor false) in
  exists s',
    keydown Delete false None s = Done s'
    /\ errors s' = S (errors s)
    /\ content s' = content s.
Proof.
  cbv zeta.
  destruct (delete_at_end_of_text 1 (mkCursor 3 "Me" (Some "black"))
              (run [Connected 1 "abc" 0; MoveCursor 3] (new_editor false)))
    as [H _]; try (vm_compute; reflexivity).
  destruct H as (s' & H1 & H2 & H3 & _); [vm_compute; reflexivity|].
  exists s'. split; [exact H1|]. split; [exact H2|exact H3].
Defined.

Lemma substring_append_l (a b : string) :
  JS.substring (a ++ b)%string 0 (JS.len a) = a.
Proof.
  rewrite ReplicaFacts.substring_prefix, ReplicaFacts.clamp_id.
  - unfold JS.len. rewrite Nat2Z.id. apply StringFacts.substring_app_l.
  - rewrite ReplicaFacts.len_append.
    pose proof (ReplicaFacts.len_nonneg a). pose proof (ReplicaFacts.len_nonneg b).
    lia.
Qed.

Lemma substring_from_append (a b : string) :
  JS.substring_from (a ++ b)%string (JS.len a) = b.
Proof.
  rewrite ReplicaFacts.substring_suffix, ReplicaFacts.clamp_id.
  - unfold JS.len. rewrite Nat2Z.id, StringFacts.substring_app_r.
    rewrite StringFacts.length_append.
    replace (String.length a + String.length b - String.length a)%nat
      with (String.length b) by lia.
    apply StringFacts.substring_all.
  - rewrite ReplicaFacts.len_append.
    pose proof (ReplicaFacts.len_nonneg a). pose proof (ReplicaFacts.len_nonneg b).
    lia.
Qed.

(** X17.  A click never moves the cursor out of the text: the handler
    clamps the position under the pointer to [0, length], as
    [substring] clamps its arguments, and the cursor move that follows
    fails no assertion. *)
Theorem click_moves_cursor_into_text (pos u : Z) (c : Cursor) (s : Editor) :
  read_only s = false ->
  userid s = Some u ->
  cursors s !! u = Some c ->
  exists s',
    click false pos s = Done s'
    /\ cursor_moved_to u (JS.clamp (content s) pos) s s'.
Proof.
  intros Hro Hu Hc. unfold click, is_initialized. rewrite Hu. cbn [negb].
  pose proof (ReplicaFacts.len_nonneg (content s)) as Hlen.
  set (p := if (if pos <? 0 then 0 else pos) >? JS.len (content s)
            then JS.len (content s) else if pos <? 0 then 0 else pos).
  assert (Hp : p = JS.clamp (content s) pos).
  { unfold p, JS.clamp. rewrite Z.gtb_ltb.
    destruct (Z.ltb_spec pos 0);
      destruct (Z.ltb_spec (JS.len (content s)) 0);
      try destruct (Z.ltb_spec (JS.len (content s)) pos); lia. }
  rewrite Hp. apply (move_cursor_in_text u _ c s Hro Hu Hc).
  apply ReplicaFacts.clamp_bounds.
Qed.

(** The theorem on a click far behind the text. *)
Lemma click_moves_cursor_into_text_witness :
  let s := run [Connected 1 "abc" 0] (new_editor false) in
  exists s',
    click false 99 s = Done s'
    /\ cursor_moved_to 1 (JS.clamp (content s) 99) s s'.
Proof.
  apply (click_moves_cursor_into_text 99 1 (mkCursor 0 "Me" (Some "black"))
           (run [Connected 1 "abc" 0] (new_editor false)));
    vm_compute; reflexivity.
Defined.

(** X18.  Typing over a selection replaces it.  With the selection
    [start, end) in the text, a key press removes the selection, moves
    the cursor to [start], inserts the key there and moves the cursor
    behind it: the text is the part before the selection, the key, and
    the part after the selection; four inputs are queued and no
    assertion fails. *)
Theorem keypress_replaces_selection (key : string) (start end_ u : Z)
    (c : Cursor) (s : Editor) :
  read_only s = false ->
  userid s = Some u ->
  cursors s !! u = Some c ->
  0 <= start <= end_ ->
  end_ <= JS.len (content s) ->
  exists s',
    keypress key (Some (start, end_)) s = Done s'
    /\ errors s' = errors s
    /\ content s'
       = (JS.substring (content s) 0 start ++ key
          ++ JS.substring_from (content s) end_)%string
    /\ position <$> cursors s' !! u = Some (start + JS.len key)
    /\ builtup_inputs s'
       = builtup_inputs s
         ++ [IRemove start end_; ICursor start; IAdd start key;
             ICursor (start + JS.len key)].
Proof.
  intros Hro Hu Hc Hse Hend.
  destruct s as [[lc lcur lp] sh q lm d uid ro em er].
  unfold content, cursors in *.
  cbn [read_only userid live shadow r_cursors r_content builtup_inputs
       emitted last_mod_id last_mod_id_dirty] in *.
  subst ro uid.
  pose proof (ReplicaFacts.len_nonneg key) as Hkey.
  set (A := JS.substring lc 0 start).
  set (B := JS.substring_from lc end_).
  assert (HA : JS.len A = start).
  { unfold A. rewrite ReplicaFacts.len_prefix.
    apply ReplicaFacts.clamp_id. lia. }
  assert (HB : 0 <= JS.len B) by apply ReplicaFacts.len_nonneg.
  assert (Hin : forall x, 0 <= x <= JS.len lc ->
            (x >=? 0) && (x <=? JS.len lc) = true).
  { intros x Hx. rewrite Z.geb_leb. apply andb_true_intro.
    split; apply Z.leb_le; lia. }
  unfold keypress, is_initialized, replace_selection. cbn [userid negb fst snd].
  (* remove(start, end) *)
  unfold remove, in_bounds, content.
  cbn [read_only live r_content assert].
  rewrite !Hin by lia. cbn [assert].
  unfold on_replica, set_dirty, emit, push, set_inputs, set_live.
  cbn [live shadow builtup_inputs last_mod_id last_mod_id_dirty userid
       read_only emitted errors bind].
  unfold Replica.actual_remove, Replica.shift_all_fixed_points, set_content,
    set_properties.
  cbn [r_content r_cursors r_properties]. fold A B.
  (* move_cursor(start) *)
  unfold move_cursor, in_bounds, content.
  cbn [read_only live r_content].
  assert (Hin1 : (start >=? 0) && (start <=? JS.len (A ++ B)%string) = true).
  { rewrite Z.geb_leb, ReplicaFacts.len_append. apply andb_true_intro.
    split; apply Z.leb_le; lia. }
  rewrite Hin1. cbn [assert].
  unfold set_own_position, push, set_inputs, cursors.
  cbn [userid live r_cursors builtup_inputs shadow last_mod_id
       last_mod_id_dirty read_only emitted errors].
  rewrite lookup_fmap, Hc. cbn [fmap option_fmap option_map bind].
  unfold emit, set_dirty, set_live, set_cursors.
  cbn [live shadow builtup_inputs last_mod_id last_mod_id_dirty userid
       read_only emitted errors r_content r_cursors r_properties bind].
  (* editor.position, then add(key, start) *)
  unfold read_position, get_position, own_cursor, cursors.
  cbn [read_only userid live r_cursors].
  rewrite lookup_insert_eq.
  cbn [fmap option_fmap option_map with_position position].
  (* add(key, start) *)
  unfold add, in_bounds, content. cbn [read_only live r_content].
  rewrite Hin1. cbn [assert].
  unfold push, emit, set_dirty, on_replica, set_live, set_inputs.
  cbn [live shadow builtup_inputs last_mod_id last_mod_id_dirty userid
       read_only emitted errors].
  unfold Replica.actual_add, Replica.shift_all_fixed_points, set_content.
  cbn [r_content r_cursors r_properties].
  pose proof (substring_append_l A B) as HsA.
  pose proof (substring_from_append A B) as HsB.
  rewrite HA in HsA, HsB. rewrite HsA, HsB.
  unfold get_position, own_cursor, cursors.
  cbn [read_only userid live r_cursors].
  rewrite lookup_fmap, lookup_insert_eq.
  cbn [fmap option_fmap option_map with_position position].
  rewrite Z.gtb_ltb, Z.ltb_irrefl, Z.eqb_refl.
  (* move_cursor(start + key.length) *)
  unfold move_cursor, in_bounds, content. cbn [read_only live r_content].
  assert (Hin2 : (start + JS.len key >=? 0)
                 && (start + JS.len key <=? JS.len (A ++ key ++ B)%string)
                 = true).
  { rewrite Z.geb_leb, !ReplicaFacts.len_append. apply andb_true_intro.
    split; apply Z.leb_le; lia. }
  rewrite Hin2. cbn [assert].
  unfold set_own_position, push, set_inputs, cursors.
  cbn [userid live r_cursors builtup_inputs shadow last_mod_id
       last_mod_id_dirty read_only emitted errors].
  rewrite lookup_fmap, lookup_insert_eq.
  cbn [fmap option_fmap option_map bind].
  eexists. split; [reflexivity|].
  unfold emit, set_dirty, set_live, set_cursors.
  cbn [live shadow builtup_inputs last_mod_id last_mod_id_dirty userid
       read_only emitted errors r_content r_cursors r_properties].
  rewrite lookup_insert_eq, <- !app_assoc.
  cbn [fmap option_fmap option_map with_position position app].
  repeat split.
Qed.

(** The theorem on ["abc"] with ["b"] selected. *)
Lemma keypress_replaces_selection_witness :
  let s := run [Connected 1 "abc" 0] (new_editor false) in
  exists s',
    keypress "x" (Some (1, 2)) s = Done s'
    /\ errors s' = errors s
    /\ content s'
       = (JS.substring (content s) 0 1 ++ "x"
          ++ JS.substring_from (content s) 2)%string
    /\ position <$> cursors s' !! 1 = Some (1 + JS.len "x")
    /\ builtup_inputs s'
       = builtup_inputs s
         ++ [IRemove 1 2; ICursor 1; IAdd 1 "x"; ICursor (1 + JS.len "x")].
Proof.
  apply (keypress_replaces_selection "x" 1 2 1 (mkCursor 0 "Me" (Some "black"))
           (run [Connected 1 "abc" 0] (new_editor false)));
    try (vm_compute; reflexivity).
  - lia.
  - vm_compute. discriminate.
Defined.

End TextJSFacts.

(** ** Scenes *)

Module SceneFacts.
Import Whiteboard WhiteboardFacts.

Lemma has_id_create_path (id path : string) :
  id <> "" -> has_id id (create_path id path) = true.
Proof.
  intros Hid. unfold has_id, create_path. cbn [id_of].
  rewrite String.eqb_refl, andb_true_r.
  apply negb_true_iff, String.eqb_neq. exact Hid.
Qed.

(** X20.  A draw event for an id that is on the board is ignored:
    repeating [#on_draw] with the same id, even with another path,
    leaves the scene of the first one. *)
Theorem on_draw_is_idempotent (id path path' : string) (area : list Element) :
  id <> "" ->
  on_draw id path' (scene_of (on_draw id path area)) = on_draw id path area.
Proof.
  intros Hid. unfold on_draw at 2 3.
  destruct (getElementById id area) eqn:E; cbn [scene_of]; unfold on_draw.
  - now rewrite E.
  - rewrite (getElementById_at id area [] (create_path id path))
      by (auto using has_id_create_path). reflexivity.
Qed.

Lemma on_draw_is_idempotent_witness :
  on_draw "a" "M 9 9" (scene_of (on_draw "a" "M 0 0" nested_scene))
  = on_draw "a" "M 0 0" nested_scene.
Proof.
  apply (on_draw_is_idempotent "a" "M 0 0" "M 9 9" nested_scene). discriminate.
Defined.

(** X21.  Drawing a path under a fresh id and removing it again gives
    back the scene. *)
Theorem on_draw_then_on_remove (id path : string) (area : list Element) :
  id <> "" ->
  getElementById id area = None ->
  on_remove id (scene_of (on_draw id path area)) = Ok area.
Proof.
  intros Hid E. unfold on_draw. rewrite E. cbn [scene_of]. unfold on_remove.
  rewrite (replace_first_at id _ area [] (create_path id path))
    by (auto using has_id_create_path).
  cbn [app]. now rewrite app_nil_r.
Qed.

Lemma on_draw_then_on_remove_witness :
  on_remove "z" (scene_of (on_draw "z" "M 0 0" nested_scene)) = Ok nested_scene.
Proof.
  apply (on_draw_then_on_remove "z" "M 0 0" nested_scene);
    [discriminate|reflexivity].
Defined.






End SceneFacts.

(** ** Cursors of other users *)

Module CursorFacts.
Import EditorJS.

Lemma remaining_colours_unused (cs : gmap Z Cursor) (rnd : nat) (col : string) :
  remaining_colours cs !! rnd = Some col ->
  In col CURSOR_COLOURS
  /\ forall v c, cs !! v = Some c -> colour c <> Some col.
Proof.
  intros H. apply list_elem_of_lookup_2, list_elem_of_In in H.
  unfold remaining_colours in H. apply List.filter_In in H as [Hin Hfree].
  split; [exact Hin|]. intros v c Hv Hc.
  apply negb_true_iff in Hfree.
  assert (Hex : existsb (fun kc : Z * Cursor =>
                           bool_decide (colour (snd kc) = Some col))
                  (map_to_list cs) = true).
  { apply existsb_exists. exists (v, c). split.
    - apply list_elem_of_In, elem_of_map_to_list. exact Hv.
    - cbn. now apply bool_decide_eq_true_2. }
  congruence.
Qed.

(** X23.  The cursor of a user seen for the first time.  When
    [#on_cursor_moved] comes from another user who has no cursor in
    the live table, the handler returns and gives that user a cursor
    with the name of the event, at the position carried over the
    queue; its colour, when it has one, is a palette colour that no
    cursor of the table had, and it has none exactly when the choice
    falls outside the remaining colours.  The same cursor is written
    to the shadow table. *)
Theorem new_cursor_gets_unused_colour (pos uid m : Z) (name : string)
    (rnd : nat) (s : Editor) :
  userid s <> Some uid ->
  cursors s !! uid = None ->
  exists s' c,
    on_cursor_moved pos uid name m rnd s = Done s'
    /\ cursors s' !! uid = Some c
    /\ server_cursors s' !! uid = Some c
    /\ username c = name
    /\ position c = rebase_position (builtup_inputs s) pos
    /\ colour c = remaining_colours (cursors s) !! rnd
    /\ (forall col, colour c = Some col ->
          In col CURSOR_COLOURS
          /\ forall v c', cursors s !! v = Some c' -> colour c' <> Some col).
Proof.
  intros Hne Hnone. unfold on_cursor_moved.
  assert (Hu : userid (set_last_mod_id m s) = userid s) by reflexivity.
  rewrite Hu, bool_decide_eq_false_2 by congruence.
  assert (Hc : cursors (set_last_mod_id m s) = cursors s) by reflexivity.
  rewrite Hc, Hnone.
  eexists. eexists. split; [reflexivity|].
  unfold cursors, server_cursors, set_shadow, set_live, set_cursors.
  cbn [live shadow r_cursors builtup_inputs set_last_mod_id].
  rewrite !lookup_insert_eq.
  do 5 (split; [reflexivity|]).
  intros col H. cbn [colour] in H.
  exact (remaining_colours_unused _ rnd col H).
Qed.

Lemma new_cursor_gets_unused_colour_witness :
  let s := run [Connected 1 "abc" 0; CursorMoved 2 2 "bob" 1 0]
             (new_editor false) in
  exists s' c,
    on_cursor_moved 1 3 "eve" 2 0 s = Done s'
    /\ cursors s' !! 3 = Some c
    /\ server_cursors s' !! 3 = Some c
    /\ username c = "eve"
    /\ colour c = Some "orange".
Proof.
  cbv zeta.
  destruct (new_cursor_gets_unused_colour 1 3 2 "eve" 0
              (run [Connected 1 "abc" 0; CursorMoved 2 2 "bob" 1 0]
                 (new_editor false)))
    as (s' & c & H1 & H2 & H3 & H4 & _ & H5 & _).
  - vm_compute. discriminate.
  - vm_compute. reflexivity.
  - exists s', c. repeat (split; [assumption|]).
    rewrite H5. vm_compute. reflexivity.
Defined.

End CursorFacts.
